(** * SketchQL: canonical schema model, validation, dialect conversion,
      structural diff and multi-file ingestion

    A shallow embedding of the backend services of SketchQL

      - [services/schemaRefactorService.js]  ([validateSchema],
        [validateRefactorResponse], [refactorSchema]),
      - [services/migrationService.js]       ([migrateSchema] and helpers),
      - [services/versionService.js]         ([computeDiff]),
      - [services/githubParserService.js]    ([parseModels] and the parsers),
      - [services/mockDataService.js]        ([generateSQLInserts]),
      - [routes/schema.js]                   (the handler of [/refactor]),

    followed by the properties of these functions.

    Conventions of the embedding.

      - A JavaScript string is a [string]: a sequence of 8-bit characters.
        Case conversion and the classes [\w], [\s] act on the ASCII range,
        characters above 127 are left alone.
      - A schema ({nodes, edges}) as the React Flow editor and the parsers
        build it is the record [Schema]; where the code inspects values of
        unknown shape (the validator, the collaborator's reply) the value is a
        [JsVal], and [schema_to_js] gives the JavaScript object of a record.
      - A function that can throw returns an [outcome]. *)

From Stdlib Require Import ZArith Ascii String List Lia Permutation DecimalString.
From Stdlib Require DecimalNat DecimalFacts DecimalPos DecimalZ.
From stdpp Require Import base option list gmap strings.

Local Open Scope Z_scope.
Local Open Scope nat_scope.
Local Open Scope stdpp_scope.

(* ===================================================================== *)
(** * JavaScript strings                                                  *)
(* ===================================================================== *)

Module Js.

Definition isUpper (c : ascii) : bool :=
  (65 <=? nat_of_ascii c) && (nat_of_ascii c <=? 90).

Definition isLower (c : ascii) : bool :=
  (97 <=? nat_of_ascii c) && (nat_of_ascii c <=? 122).

Definition isDigit (c : ascii) : bool :=
  (48 <=? nat_of_ascii c) && (nat_of_ascii c <=? 57).

Definition toLowerAscii (c : ascii) : ascii :=
  if isUpper c then ascii_of_nat (nat_of_ascii c + 32) else c.

Definition toUpperAscii (c : ascii) : ascii :=
  if isLower c then ascii_of_nat (nat_of_ascii c - 32) else c.

Fixpoint mapChars (f : ascii -> ascii) (s : string) : string :=
  match s with
  | EmptyString => EmptyString
  | String c s' => String (f c) (mapChars f s')
  end.

(** [s.toLowerCase()], [s.toUpperCase()] *)
Definition toLowerCase : string -> string := mapChars toLowerAscii.
Definition toUpperCase : string -> string := mapChars toUpperAscii.

Fixpoint drop (n : nat) (s : string) : string :=
  match n, s with
  | O, _ => s
  | S _, EmptyString => EmptyString
  | S n', String _ s' => drop n' s'
  end.

Fixpoint take (n : nat) (s : string) : string :=
  match n, s with
  | O, _ => EmptyString
  | S _, EmptyString => EmptyString
  | S n', String c s' => String c (take n' s')
  end.

(** [s.includes(sub)] *)
Fixpoint includes (s sub : string) : bool :=
  String.prefix sub s ||
  match s with
  | EmptyString => false
  | String _ s' => includes s' sub
  end.

(** [s.indexOf(sub)]: the first position of [sub], -1 when there is none. *)
Fixpoint indexOfFrom (i : Z) (s sub : string) : Z :=
  if String.prefix sub s then i
  else match s with
       | EmptyString => (-1)%Z
       | String _ s' => indexOfFrom (i + 1)%Z s' sub
       end.

Definition indexOf (s sub : string) : Z := indexOfFrom 0%Z s sub.

(** [s.replace(pat, rep)] with a string pattern: the first occurrence only.
    (The replacement texts of the source contain no [$].) *)
Fixpoint replace (s pat rep : string) : string :=
  if String.prefix pat s then rep +:+ drop (String.length pat) s
  else match s with
       | EmptyString => EmptyString
       | String c s' => String c (replace s' pat rep)
       end.

(** [s.substring(a, b)]: both ends clamped to the length, swapped when
    [a > b]. *)
Definition substring (s : string) (a b : nat) : string :=
  let lo := Nat.min (Nat.min a b) (String.length s) in
  let hi := Nat.min (Nat.max a b) (String.length s) in
  take (hi - lo) (drop lo s).

(** The class [\s] on ASCII: tab, line feed, vertical tab, form feed,
    carriage return, space. *)
Definition isSpace (c : ascii) : bool :=
  let n := nat_of_ascii c in
  ((9 <=? n) && (n <=? 13)) || (n =? 32).

(** The class [\w]: letters, digits, underscore. *)
Definition isWord (c : ascii) : bool :=
  isUpper c || isLower c || isDigit c || (nat_of_ascii c =? 95).

(** [s.replace(/\s+/g, rep)]: every maximal run of white space becomes one
    [rep]. [inRun] tells that the previous character was white space. *)
Fixpoint replaceSpaceRuns (inRun : bool) (rep s : string) : string :=
  match s with
  | EmptyString => EmptyString
  | String c s' =>
      if isSpace c
      then (if inRun then replaceSpaceRuns true rep s'
            else rep +:+ replaceSpaceRuns true rep s')
      else String c (replaceSpaceRuns false rep s')
  end.

(** [parts.join(sep)] *)
Fixpoint join (sep : string) (parts : list string) : string :=
  match parts with
  | [] => EmptyString
  | [p] => p
  | p :: rest => p +:+ sep +:+ join sep rest
  end.

(** Decimal rendering of a number inside a template literal or by
    [JSON.stringify]: all the digits, which is what JavaScript prints for
    an integer below [1e21] in absolute value; from there on JavaScript
    uses the exponent form, which is not followed here. *)
Definition natToString (n : nat) : string :=
  NilZero.string_of_uint (Nat.to_uint n).

Definition numToString (z : Z) : string :=
  NilZero.string_of_int (Z.to_int z).

End Js.

(* ===================================================================== *)
(** * Exceptions                                                          *)
(* ===================================================================== *)

(** What a [throw] carries: an [Error] made by the program, or the engine's
    [TypeError] for a property read on [undefined] or [null] (the message is
    the one of V8, the engine of Node.js). *)
Inductive exn : Type :=
| Error (message : string)
| TypeError (message : string).

Definition message (e : exn) : string :=
  match e with
  | Error m => m
  | TypeError m => m
  end.

Inductive outcome (A : Type) : Type :=
| Ret (a : A)
| Throw (e : exn).

Arguments Ret {A} a.
Arguments Throw {A} e.

#[global] Instance outcome_ret : MRet outcome := fun A a => Ret a.
#[global] Instance outcome_bind : MBind outcome := fun A B f m =>
  match m with
  | Ret a => f a
  | Throw e => Throw e
  end.

#[global] Instance outcome_fmap : FMap outcome := fun A B f m =>
  match m with
  | Ret a => Ret (f a)
  | Throw e => Throw e
  end.

(** [try { body } catch (error) { handler }] *)
Definition tryCatch {A : Type} (body : outcome A) (handler : exn -> outcome A)
  : outcome A :=
  match body with
  | Ret a => Ret a
  | Throw e => handler e
  end.

(* ===================================================================== *)
(** * JavaScript values of unknown shape                                  *)
(* ===================================================================== *)

(** The values [JSON.parse] can produce, and [undefined]. Numbers are the
    integers. An object is the list of its own properties in insertion
    order. *)
#[warnings="-register-all"]
Inductive JsVal : Type :=
| JUndefined
| JNull
| JBool (b : bool)
| JNum (z : Z)
| JStr (s : string)
| JArr (items : list JsVal)
| JObj (props : list (string * JsVal)).

(** ToBoolean *)
Definition truthy (v : JsVal) : bool :=
  match v with
  | JUndefined | JNull => false
  | JBool b => b
  | JNum z => negb (z =? 0)%Z
  | JStr s => negb (String.eqb s "")
  | JArr _ | JObj _ => true
  end.

(** [typeof v === "object"] *)
Definition typeofObject (v : JsVal) : bool :=
  match v with
  | JNull | JArr _ | JObj _ => true
  | _ => false
  end.

(** [Array.isArray(v)] *)
Definition isArray (v : JsVal) : bool :=
  match v with
  | JArr _ => true
  | _ => false
  end.

(** The value a list of (key, value) entries has for a key, if any. *)
Fixpoint ownEntry {A : Type} (k : string) (l : list (string * A)) : option A :=
  match l with
  | [] => None
  | (k', a) :: rest => if String.eqb k k' then Some a else ownEntry k rest
  end.

(** [v.k] for the property names the services read ([nodes], [edges], [id],
    [data], [label], [columns], [name], [type], [targetDDL],
    [mappingSummary]): none of them is defined on the prototype of objects,
    arrays, strings, numbers or booleans, so the read gives the own property
    of an object and [undefined] elsewhere; on [undefined] and [null] it
    throws. *)
Definition getProp (v : JsVal) (k : string) : outcome JsVal :=
  match v with
  | JUndefined =>
      Throw (TypeError ("Cannot read properties of undefined (reading '" +:+ k +:+ "')"))
  | JNull =>
      Throw (TypeError ("Cannot read properties of null (reading '" +:+ k +:+ "')"))
  | JObj props => Ret (default JUndefined (ownEntry k props))
  | _ => Ret JUndefined
  end.

(** ** [JSON.stringify] *)

Definition hexDigit (n : nat) : ascii :=
  if n <? 10 then ascii_of_nat (48 + n) else ascii_of_nat (87 + n).

(** One character inside a JSON string literal. *)
Definition escapeChar (c : ascii) : string :=
  let n := nat_of_ascii c in
  if n =? 34 then String (ascii_of_nat 92) (String (ascii_of_nat 34) EmptyString)
  else if n =? 92 then "\\"
  else if n =? 8 then "\b"
  else if n =? 9 then "\t"
  else if n =? 10 then "\n"
  else if n =? 12 then "\f"
  else if n =? 13 then "\r"
  else if n <? 32 then
    "\u00" +:+ String (hexDigit (n / 16)) (String (hexDigit (n mod 16)) EmptyString)
  else String c EmptyString.

Fixpoint escapeString (s : string) : string :=
  match s with
  | EmptyString => EmptyString
  | String c s' => escapeChar c +:+ escapeString s'
  end.

Definition quoteJson (s : string) : string :=
  String (ascii_of_nat 34) (escapeString s +:+ String (ascii_of_nat 34) EmptyString).

(** [JSON.stringify(v)]; [None] is the result [undefined]. Inside an array
    [undefined] prints as [null]; inside an object the property is left
    out. *)
Fixpoint stringify (v : JsVal) : option string :=
  match v with
  | JUndefined => None
  | JNull => Some "null"
  | JBool b => Some (if b then "true" else "false")
  | JNum z => Some (Js.numToString z)
  | JStr s => Some (quoteJson s)
  | JArr items =>
      Some ("[" +:+ Js.join "," (map (fun x => default "null" (stringify x)) items) +:+ "]")
  | JObj props =>
      Some ("{" +:+
            Js.join ","
              (flat_map (fun kv =>
                           match stringify (snd kv) with
                           | Some s => [quoteJson (fst kv) +:+ ":" +:+ s]
                           | None => []
                           end) props) +:+ "}")
  end.

(* ===================================================================== *)
(** * The canonical schema model                                          *)
(* ===================================================================== *)

(** One attribute of an entity: [{ name, type, isPK, isNullable, isUnique }].
    A flag that is absent in the JavaScript object is falsy and is [false]
    here. The services that read the flags cannot tell the two apart;
    [JSON.stringify] can, see [column_to_js]. *)
Record Column : Type := {
  col_name : string;
  col_type : string;
  isPK : bool;
  isNullable : bool;
  isUnique : bool
}.

(** [node.data]: [{ label, columns }] *)
Record NodeData : Type := {
  label : string;
  columns : list Column
}.

Record Position : Type := {
  pos_x : Z;
  pos_y : Z
}.

(** An entity: [{ id, type, position, data }] *)
Record Node : Type := {
  node_id : string;
  node_type : string;
  position : Position;
  data : NodeData
}.

(** A relationship:
    [{ id, source, target, sourceHandle, targetHandle, type, data: { label } }] *)
Record Edge : Type := {
  edge_id : string;
  source : string;
  target : string;
  sourceHandle : string;
  targetHandle : string;
  edge_type : string;
  edge_label : string
}.

Record Schema : Type := {
  nodes : list Node;
  edges : list Edge
}.

(** The JavaScript objects of the records, properties in the order in which
    the parsers and the editor write them. The object of a column has its
    three flags written, as the parsers write them; an object that leaves a
    false flag out has the same record and another JSON text, so the
    properties of [computeDiff] that compare [data] are stated where this
    makes no difference: equal objects, or records that differ. *)
Definition column_to_js (c : Column) : JsVal :=
  JObj [("name", JStr (col_name c)); ("type", JStr (col_type c));
        ("isPK", JBool (isPK c)); ("isNullable", JBool (isNullable c));
        ("isUnique", JBool (isUnique c))].

Definition data_to_js (d : NodeData) : JsVal :=
  JObj [("label", JStr (label d));
        ("columns", JArr (map column_to_js (columns d)))].

Definition position_to_js (p : Position) : JsVal :=
  JObj [("x", JNum (pos_x p)); ("y", JNum (pos_y p))].

Definition node_to_js (n : Node) : JsVal :=
  JObj [("id", JStr (node_id n)); ("type", JStr (node_type n));
        ("position", position_to_js (position n));
        ("data", data_to_js (data n))].

Definition edge_to_js (e : Edge) : JsVal :=
  JObj [("id", JStr (edge_id e)); ("source", JStr (source e));
        ("target", JStr (target e));
        ("sourceHandle", JStr (sourceHandle e));
        ("targetHandle", JStr (targetHandle e));
        ("type", JStr (edge_type e));
        ("data", JObj [("label", JStr (edge_label e))])].

Definition schema_to_js (s : Schema) : JsVal :=
  JObj [("nodes", JArr (map node_to_js (nodes s)));
        ("edges", JArr (map edge_to_js (edges s)))].

(* ===================================================================== *)
(** * schemaRefactorService.js: [validateSchema]                          *)
(* ===================================================================== *)

(** The returned [{ valid: true }] or [{ valid: false, error }]. *)
Inductive Validation : Type :=
| Valid
| Invalid (error : string).

(** The inner loop [for (const col of node.data.columns)]; [Some v] is an
    early [return v], [None] lets the caller go on. *)
Fixpoint validateColumns (cols : list JsVal) : outcome (option Validation) :=
  match cols with
  | [] => Ret None
  | col :: rest =>
      name ← getProp col "name";
      type ← getProp col "type";
      if negb (truthy name) || negb (truthy type)
      then Ret (Some (Invalid "Each column must have 'name' and 'type'"))
      else validateColumns rest
  end.

(** [!node.id || !node.data || !node.data.label], evaluated from the left
    and stopping at the first operand that is true. *)
Definition nodeLacksIdOrLabel (node : JsVal) : outcome bool :=
  id ← getProp node "id";
  if negb (truthy id) then Ret true
  else
    d ← getProp node "data";
    if negb (truthy d) then Ret true
    else
      l ← getProp d "label";
      Ret (negb (truthy l)).

(** The outer loop [for (const node of schema.nodes)]. *)
Fixpoint validateNodes (ns : list JsVal) : outcome (option Validation) :=
  match ns with
  | [] => Ret None
  | node :: rest =>
      bad ← nodeLacksIdOrLabel node;
      if (bad : bool)
      then Ret (Some (Invalid "Each node must have 'id', 'data.label'"))
      else
        d ← getProp node "data";
        cols ← getProp d "columns";
        match cols with
        | JArr cs =>
            r ← validateColumns cs;
            match r with
            | Some v => Ret (Some v)
            | None => validateNodes rest
            end
        | _ => Ret (Some (Invalid "Each node must have 'data.columns' array"))
        end
  end.

Definition arrayItems (v : JsVal) : list JsVal :=
  match v with
  | JArr items => items
  | _ => []
  end.

Definition validateSchema (schema : JsVal) : outcome Validation :=
  if negb (truthy schema) || negb (typeofObject schema)
  then Ret (Invalid "Schema must be an object")
  else
    ns ← getProp schema "nodes";
    if negb (isArray ns)
    then Ret (Invalid "Schema must have a 'nodes' array")
    else
      es ← getProp schema "edges";
      if negb (isArray es)
      then Ret (Invalid "Schema must have an 'edges' array")
      else
        r ← validateNodes (arrayItems ns);
        Ret (default Valid r).

(* ===================================================================== *)
(** * migrationService.js                                                 *)
(* ===================================================================== *)

(** ** Reading a key of an object literal used as a table *)

(** The members every object literal inherits from [Object.prototype]. *)
Definition objectPrototypeNames : list string :=
  ["constructor"; "hasOwnProperty"; "isPrototypeOf"; "propertyIsEnumerable";
   "toLocaleString"; "toString"; "valueOf"; "__defineGetter__";
   "__defineSetter__"; "__lookupGetter__"; "__lookupSetter__"; "__proto__"].

(** The result of [table[k]]: an own entry, a member inherited from the
    prototype (a function, or the prototype itself: truthy, and without any
    of the keys the service reads from it), or [undefined]. *)
Inductive Lookup (A : Type) : Type :=
| Own (a : A)
| Inherited
| Missing.

Arguments Own {A} a.
Arguments Inherited {A}.
Arguments Missing {A}.

Definition readKey {A : Type} (table : list (string * A)) (k : string) : Lookup A :=
  match ownEntry k table with
  | Some a => Own a
  | None =>
      if existsb (String.eqb k) objectPrototypeNames then Inherited else Missing
  end.

Definition lookupTruthy {A : Type} (l : Lookup A) : bool :=
  match l with
  | Missing => false
  | _ => true
  end.

(** ** [TYPE_MAPPINGS] *)

Definition TypeTable : Type := list (string * string).

(** [TYPE_MAPPINGS[source].to[target]] as an association from the source
    to its (target, table) pairs; the level [to] between the two is the only
    property of each source entry. *)
Definition TYPE_MAPPINGS : list (string * list (string * TypeTable)) :=
  [("mongo",
    [("postgres",
      [("String", "VARCHAR(255)"); ("Number", "INTEGER"); ("Date", "TIMESTAMP");
       ("Boolean", "BOOLEAN"); ("ObjectId", "UUID"); ("Array", "JSONB");
       ("Object", "JSONB"); ("Mixed", "TEXT")]);
     ("mysql",
      [("String", "VARCHAR(255)"); ("Number", "INT"); ("Date", "DATETIME");
       ("Boolean", "TINYINT(1)"); ("ObjectId", "VARCHAR(36)"); ("Array", "JSON");
       ("Object", "JSON"); ("Mixed", "TEXT")]);
     ("sql",
      [("String", "NVARCHAR(255)"); ("Number", "INT"); ("Date", "DATETIME2");
       ("Boolean", "BIT"); ("ObjectId", "UNIQUEIDENTIFIER");
       ("Array", "NVARCHAR(MAX)"); ("Object", "NVARCHAR(MAX)");
       ("Mixed", "NVARCHAR(MAX)")])]);
   ("postgres",
    [("mongo",
      [("VARCHAR", "String"); ("TEXT", "String"); ("INTEGER", "Number");
       ("BIGINT", "Number"); ("SMALLINT", "Number"); ("DECIMAL", "Number");
       ("NUMERIC", "Number"); ("REAL", "Number"); ("DOUBLE PRECISION", "Number");
       ("BOOLEAN", "Boolean"); ("DATE", "Date"); ("TIMESTAMP", "Date");
       ("TIMESTAMPTZ", "Date"); ("UUID", "ObjectId"); ("JSONB", "Object");
       ("JSON", "Object"); ("ARRAY", "Array")]);
     ("mysql",
      [("VARCHAR", "VARCHAR"); ("TEXT", "TEXT"); ("INTEGER", "INT");
       ("BIGINT", "BIGINT"); ("SMALLINT", "SMALLINT"); ("DECIMAL", "DECIMAL");
       ("NUMERIC", "DECIMAL"); ("REAL", "FLOAT"); ("DOUBLE PRECISION", "DOUBLE");
       ("BOOLEAN", "TINYINT(1)"); ("DATE", "DATE"); ("TIMESTAMP", "DATETIME");
       ("TIMESTAMPTZ", "DATETIME"); ("UUID", "VARCHAR(36)"); ("JSONB", "JSON");
       ("JSON", "JSON"); ("ARRAY", "JSON")])]);
   ("mysql",
    [("mongo",
      [("VARCHAR", "String"); ("TEXT", "String"); ("INT", "Number");
       ("BIGINT", "Number"); ("SMALLINT", "Number"); ("DECIMAL", "Number");
       ("FLOAT", "Number"); ("DOUBLE", "Number"); ("TINYINT(1)", "Boolean");
       ("BOOLEAN", "Boolean"); ("DATE", "Date"); ("DATETIME", "Date");
       ("TIMESTAMP", "Date"); ("JSON", "Object"); ("CHAR", "String")]);
     ("postgres",
      [("VARCHAR", "VARCHAR"); ("TEXT", "TEXT"); ("INT", "INTEGER");
       ("BIGINT", "BIGINT"); ("SMALLINT", "SMALLINT"); ("DECIMAL", "DECIMAL");
       ("FLOAT", "REAL"); ("DOUBLE", "DOUBLE PRECISION");
       ("TINYINT(1)", "BOOLEAN"); ("BOOLEAN", "BOOLEAN"); ("DATE", "DATE");
       ("DATETIME", "TIMESTAMP"); ("TIMESTAMP", "TIMESTAMP"); ("JSON", "JSONB");
       ("CHAR", "CHAR")])])].

(** ** [normalizeDbType] *)

Definition normalizeDbType (dbType : string) : string :=
  let normalized := Js.toLowerCase dbType in
  if Js.includes normalized "mongo" then "mongo"
  else if Js.includes normalized "postgres" || Js.includes normalized "postgresql"
  then "postgres"
  else if Js.includes normalized "mysql" then "mysql"
  else if Js.includes normalized "sql" && negb (Js.includes normalized "mysql")
  then "sql"
  else normalized.

(** ** [needsAIAssistance] *)

Definition needsAIAssistance (schema : Schema) (sourceType targetType : string) : bool :=
  if String.eqb sourceType "mongo" || String.eqb targetType "mongo" then true
  else if (10 <? length (edges schema)) || (15 <? length (nodes schema)) then true
  else false.

(** ** [migrateWithMapping] *)

Record MappingEntry : Type := {
  ms_table : string;
  ms_column : string;
  ms_sourceType : string;
  ms_targetType : string;
  ms_reason : string
}.

Record MigrationResult : Type := {
  targetDDL : string;
  mappingSummary : list MappingEntry
}.

Definition newline : string := String (ascii_of_nat 10) EmptyString.

(** [mapping = TYPE_MAPPINGS[sourceType].to[targetType]]: throws when
    [TYPE_MAPPINGS[sourceType]] is [undefined] or has no property [to]. *)
Definition readMapping (sourceType targetType : string) : outcome (Lookup TypeTable) :=
  match readKey TYPE_MAPPINGS sourceType with
  | Own to => Ret (readKey to targetType)
  | Inherited =>
      Throw (TypeError ("Cannot read properties of undefined (reading '" +:+ targetType +:+ "')"))
  | Missing =>
      Throw (TypeError "Cannot read properties of undefined (reading 'to')")
  end.

(** [mapping[sourceType] || 'VARCHAR(255)'] for an upper-cased [sourceType]:
    a table gives its entry; an inherited member has no property spelled
    without lower-case letters; on [undefined] the read throws. *)
Definition lookupType (mapping : Lookup TypeTable) (sourceType : string) : outcome string :=
  match mapping with
  | Own table => Ret (default "VARCHAR(255)" (ownEntry sourceType table))
  | Inherited => Ret "VARCHAR(255)"
  | Missing =>
      Throw (TypeError ("Cannot read properties of undefined (reading '" +:+ sourceType +:+ "')"))
  end.

(** The identity idiom of the target for a primary key. *)
Definition primaryKeyType (targetType : string) : string :=
  if String.eqb targetType "postgres" then "SERIAL"
  else if String.eqb targetType "mysql" then "INT AUTO_INCREMENT"
  else if String.eqb targetType "sql" then "INT IDENTITY(1,1)"
  else "INT".

(** What one iteration of [node.data.columns.forEach] appends: the column
    definition, the [UNIQUE] constraint if any, the summary entry. *)
Record RenderedColumn : Type := {
  colDef : string;
  uniqueConstraint : list string;
  summaryEntry : MappingEntry
}.

(** The block [if (col.isPK) { ... }]: a primary key takes the idiom in
    place of the mapped type. *)
Definition overridePrimaryKey (targetType : string) (col : Column) (mappedType : string)
  : string :=
  if isPK col then primaryKeyType targetType else mappedType.

Definition mappedTypeOf (mapping : Lookup TypeTable) (targetType : string) (col : Column)
  : outcome string :=
  mappedType ← lookupType mapping (Js.toUpperCase (col_type col));
  Ret (overridePrimaryKey targetType col mappedType).

(** The three things pushed for a column once its type is known. *)
Definition columnEntry (tableLabel : string) (col : Column) (mappedType : string)
  : RenderedColumn :=
  {| colDef :=
       ("  " +:+ col_name col +:+ " " +:+ mappedType) +:+
       (if negb (isNullable col) && negb (isPK col) then " NOT NULL" else "");
     uniqueConstraint :=
       if isUnique col && negb (isPK col)
       then ["  UNIQUE (" +:+ col_name col +:+ ")"] else [];
     summaryEntry :=
       {| ms_table := tableLabel; ms_column := col_name col;
          ms_sourceType := Js.toUpperCase (col_type col);
          ms_targetType := mappedType;
          ms_reason := "Direct type mapping" |} |}.

Definition renderColumn (mapping : Lookup TypeTable) (targetType : string)
    (tableLabel : string) (col : Column) : outcome RenderedColumn :=
  mappedType ← mappedTypeOf mapping targetType col;
  Ret (columnEntry tableLabel col mappedType).

(** [label.toLowerCase().replace(/\s+/g, '_')] *)
Definition tableNameOf (lbl : string) : string :=
  Js.replaceSpaceRuns false "_" (Js.toLowerCase lbl).

(** [`  FOREIGN KEY (${sourceHandle}) REFERENCES ${targetTable}(${targetCol})`]
    for an edge and the node its target resolves to. *)
Definition foreignKeyText (edge : Edge) (targetNode : Node) : string :=
  let srcHandle := Js.replace (Js.replace (sourceHandle edge) "-right" "") "-left" "" in
  let targetTable := tableNameOf (label (data targetNode)) in
  let targetCol := Js.replace (Js.replace (targetHandle edge) "-left" "") "-right" "" in
  "  FOREIGN KEY (" +:+ srcHandle +:+ ") REFERENCES " +:+ targetTable +:+
  "(" +:+ targetCol +:+ ")".

(** The constraint pushed for one edge while [node] is rendered, if any. *)
Definition foreignKeyOf (schema : Schema) (node : Node) (edge : Edge) : list string :=
  if String.eqb (source edge) (node_id node) then
    match find (fun n => String.eqb (node_id n) (target edge)) (nodes schema) with
    | Some targetNode => [foreignKeyText edge targetNode]
    | None => []
    end
  else [].

(** [array.forEach(f)] for an [f] that can throw: the elements in order, up
    to the first that throws. *)
Fixpoint forEachM {A B : Type} (f : A -> outcome B) (l : list A) : outcome (list B) :=
  match l with
  | [] => Ret []
  | a :: rest =>
      b ← f a;
      bs ← forEachM f rest;
      Ret (b :: bs)
  end.

Definition constraintsOf (schema : Schema) (node : Node) (cols : list RenderedColumn)
  : list string :=
  flat_map uniqueConstraint cols ++ flat_map (foreignKeyOf schema node) (edges schema).

(** The text of one [CREATE TABLE] from its column definitions and
    constraints. *)
Definition tableDDL (tableName : string) (colDefs constraints : list string) : string :=
  ("CREATE TABLE " +:+ tableName +:+ " (" +:+ newline) +:+
  Js.join ("," +:+ newline) colDefs +:+
  (if (0 <? length constraints)
   then ("," +:+ newline) +:+ Js.join ("," +:+ newline) constraints
   else "") +:+
  (newline +:+ ");" +:+ newline).

(** One iteration of [schema.nodes.forEach]: the statement and the summary
    entries it appends. *)
Definition renderTable (mapping : Lookup TypeTable) (targetType : string)
    (schema : Schema) (node : Node) : outcome (string * list MappingEntry) :=
  cols ← forEachM (renderColumn mapping targetType (label (data node)))
                  (columns (data node));
  Ret (tableDDL (tableNameOf (label (data node))) (map colDef cols)
         (constraintsOf schema node cols),
       map summaryEntry cols).

Definition migrateWithMapping (schema : Schema) (sourceType targetType : string)
  : outcome MigrationResult :=
  mapping ← readMapping sourceType targetType;
  tables ← forEachM (renderTable mapping targetType schema) (nodes schema);
  Ret {| targetDDL := Js.join newline (map fst tables);
         mappingSummary := flat_map snd tables |}.

(** The returned object [{ targetDDL, mappingSummary }]. *)
Definition entry_to_js (e : MappingEntry) : JsVal :=
  JObj [("table", JStr (ms_table e)); ("column", JStr (ms_column e));
        ("sourceType", JStr (ms_sourceType e));
        ("targetType", JStr (ms_targetType e));
        ("reason", JStr (ms_reason e))].

Definition result_to_js (r : MigrationResult) : JsVal :=
  JObj [("targetDDL", JStr (targetDDL r));
        ("mappingSummary", JArr (map entry_to_js (mappingSummary r)))].

(** ** [migrateWithAI] *)

(** The generative collaborator: the prompt is built from the schema and the
    two dialect tags; the reply is the value [JSON.parse] gives for the
    cleaned response text, or an exception (transport failure, text that is
    not JSON). *)
Definition Collaborator : Type := Schema -> string -> string -> outcome JsVal.

Definition migrateWithAI (ai : Collaborator) (schema : Schema)
    (sourceType targetType : string) : outcome JsVal :=
  tryCatch
    (jsonResult ← ai schema sourceType targetType;
     ddl ← getProp jsonResult "targetDDL";
     if negb (truthy ddl) then Throw (Error "Invalid AI response structure")
     else
       summary ← getProp jsonResult "mappingSummary";
       if negb (isArray summary) then Throw (Error "Invalid AI response structure")
       else Ret jsonResult)
    (fun _ => result_to_js <$> migrateWithMapping schema sourceType targetType).

(** ** [migrateSchema] *)

(** [TYPE_MAPPINGS[normalizedSource]?.to?.[normalizedTarget]] *)
Definition hasDirectMapping (normalizedSource normalizedTarget : string)
  : Lookup TypeTable :=
  match readKey TYPE_MAPPINGS normalizedSource with
  | Own to => readKey to normalizedTarget
  | Inherited => Missing
  | Missing => Missing
  end.

Definition useAI (schema : Schema) (normalizedSource normalizedTarget : string) : bool :=
  negb (lookupTruthy (hasDirectMapping normalizedSource normalizedTarget))
  || needsAIAssistance schema normalizedSource normalizedTarget.

(** The handler of the outer [catch]:
    [throw new Error(`Failed to migrate schema: ${error.message}`)]. *)
Definition rethrowMigration (error : exn) : outcome JsVal :=
  Throw (Error ("Failed to migrate schema: " +:+ message error)).

Definition migrateSchema (ai : Collaborator) (schema : Schema)
    (sourceDbType targetDbType : string) : outcome JsVal :=
  tryCatch
    (let normalizedSource := normalizeDbType sourceDbType in
     let normalizedTarget := normalizeDbType targetDbType in
     if String.eqb normalizedSource normalizedTarget
     then Throw (Error "Source and target database types cannot be the same")
     else if useAI schema normalizedSource normalizedTarget
     then migrateWithAI ai schema normalizedSource normalizedTarget
     else result_to_js <$> migrateWithMapping schema normalizedSource normalizedTarget)
    rethrowMigration.

(* ===================================================================== *)
(** * versionService.js: [computeDiff]                                    *)
(* ===================================================================== *)

(** [new Map(entries)] with string keys: a later entry replaces an earlier
    one with the same key. Only [has] and [get] are used on these maps. *)
Definition newMap {V : Type} (entries : list (string * V)) : gmap string V :=
  fold_left (fun m kv => <[fst kv := snd kv]> m) entries ∅.

Definition mapHas {V : Type} (m : gmap string V) (k : string) : bool :=
  match m !! k with
  | Some _ => true
  | None => false
  end.

(** [JSON.stringify(a) !== JSON.stringify(b)] *)
Definition stringifyDiffers (a b : JsVal) : bool :=
  match stringify a, stringify b with
  | Some x, Some y => negb (String.eqb x y)
  | None, None => false
  | _, _ => true
  end.

Record NodeChange : Type := {
  change_id : string;
  node_original : Node;
  node_modified : Node
}.

Record EdgeChange : Type := {
  edge_original : Edge;
  edge_modified : Edge
}.

(** One of [diff.nodes], [diff.edges]: three arrays that only grow. *)
Record Changes (A M : Type) : Type := {
  added : list A;
  removed : list A;
  modified : list M
}.

Arguments added {A M} _.
Arguments removed {A M} _.
Arguments modified {A M} _.

Definition noChanges {A M : Type} : Changes A M :=
  {| added := []; removed := []; modified := [] |}.

Definition pushAdded {A M : Type} (c : Changes A M) (a : A) : Changes A M :=
  {| added := added c ++ [a]; removed := removed c; modified := modified c |}.

Definition pushRemoved {A M : Type} (c : Changes A M) (a : A) : Changes A M :=
  {| added := added c; removed := removed c ++ [a]; modified := modified c |}.

Definition pushModified {A M : Type} (c : Changes A M) (m : M) : Changes A M :=
  {| added := added c; removed := removed c; modified := modified c ++ [m] |}.

Record Diff : Type := {
  diff_nodes : Changes Node NodeChange;
  diff_edges : Changes Edge EdgeChange
}.

(** The key of an edge in the two edge maps: [`${e.source}-${e.target}`]. *)
Definition edgeKey (e : Edge) : string := source e +:+ "-" +:+ target e.

(** [nodes.map(n => [n.id, n])] and [edges.map(e => [key, e])], the entries
    the maps are made of. *)
Definition nodeEntries (ns : list Node) : list (string * Node) :=
  map (fun n => (node_id n, n)) ns.

Definition edgeEntries (es : list Edge) : list (string * Edge) :=
  map (fun e => (edgeKey e, e)) es.

(** Body of [schema1.nodes.forEach]: find removed nodes. *)
Definition removedNodeStep (nodes2Map : gmap string Node)
    (c : Changes Node NodeChange) (node : Node) : Changes Node NodeChange :=
  if negb (mapHas nodes2Map (node_id node)) then pushRemoved c node else c.

(** Body of [schema2.nodes.forEach]: find added nodes, compare the data of
    the others. *)
Definition addedNodeStep (nodes1Map : gmap string Node)
    (c : Changes Node NodeChange) (node : Node) : Changes Node NodeChange :=
  match nodes1Map !! node_id node with
  | None => pushAdded c node
  | Some node1 =>
      if stringifyDiffers (data_to_js (data node1)) (data_to_js (data node))
      then pushModified c {| change_id := node_id node;
                             node_original := node1;
                             node_modified := node |}
      else c
  end.

Definition removedEdgeStep (edges2Map : gmap string Edge)
    (c : Changes Edge EdgeChange) (edge : Edge) : Changes Edge EdgeChange :=
  if negb (mapHas edges2Map (edgeKey edge)) then pushRemoved c edge else c.

Definition addedEdgeStep (edges1Map : gmap string Edge)
    (c : Changes Edge EdgeChange) (edge : Edge) : Changes Edge EdgeChange :=
  match edges1Map !! edgeKey edge with
  | None => pushAdded c edge
  | Some edge1 =>
      if stringifyDiffers (edge_to_js edge1) (edge_to_js edge)
      then pushModified c {| edge_original := edge1; edge_modified := edge |}
      else c
  end.

Definition computeDiff (schema1 schema2 : Schema) : Diff :=
  let nodes1Map := newMap (nodeEntries (nodes schema1)) in
  let nodes2Map := newMap (nodeEntries (nodes schema2)) in
  let afterRemoved := fold_left (removedNodeStep nodes2Map) (nodes schema1) noChanges in
  let nodeChanges := fold_left (addedNodeStep nodes1Map) (nodes schema2) afterRemoved in
  let edges1Map := newMap (edgeEntries (edges schema1)) in
  let edges2Map := newMap (edgeEntries (edges schema2)) in
  let afterRemovedE := fold_left (removedEdgeStep edges2Map) (edges schema1) noChanges in
  let edgeChanges := fold_left (addedEdgeStep edges1Map) (edges schema2) afterRemovedE in
  {| diff_nodes := nodeChanges; diff_edges := edgeChanges |}.

(* ===================================================================== *)
(** * Regular expressions                                                 *)
(* ===================================================================== *)

(** The fragment of JavaScript regular expressions the parsers use, with the
    matching order of a backtracking engine: alternatives from the left,
    greedy repetition, the first way through that succeeds. *)
Module Regex.

Inductive re : Type :=
| Eps
| Chr (c : ascii)
| Cls (p : ascii -> bool)
| Seq (r1 r2 : re)
| Alt (r1 r2 : re)
| Star (r : re)
| Grp (i : nat) (r : re).

Fixpoint Lit (s : string) : re :=
  match s with
  | EmptyString => Eps
  | String c s' => Seq (Chr c) (Lit s')
  end.

Definition Plus (r : re) : re := Seq r (Star r).
Definition Opt (r : re) : re := Alt r Eps.
Definition seq (rs : list re) : re := fold_right Seq Eps rs.

(** [\s], [\w], [.] (anything but a line terminator) and a negated set. *)
Definition space : re := Cls Js.isSpace.
Definition word : re := Cls Js.isWord.
Definition dot : re :=
  Cls (fun c => negb ((nat_of_ascii c =? 10) || (nat_of_ascii c =? 13))).
Definition noneOf (cs : list ascii) : re :=
  Cls (fun c => negb (existsb (Ascii.eqb c) cs)).
Definition oneOf (cs : list ascii) : re :=
  Cls (fun c => existsb (Ascii.eqb c) cs).

(** The captures made so far, the latest first. *)
Definition Captures : Type := list (nat * string).

Fixpoint group (i : nat) (caps : Captures) : string :=
  match caps with
  | [] => EmptyString
  | (j, s) :: rest => if i =? j then s else group i rest
  end.

(** [run r s pos caps k]: match [r] at the head of [s] (the input from
    position [pos] on) and hand the rest to [k]; [None] makes the engine
    backtrack. An iteration of [Star] that consumes nothing is refused, so
    [String.length s] iterations are the most there can be. *)
Fixpoint run {R : Type} (r : re) (s : string) (pos : nat) (caps : Captures)
    (k : string -> nat -> Captures -> option R) : option R :=
  match r with
  | Eps => k s pos caps
  | Chr c =>
      match s with
      | String c' s' => if Ascii.eqb c c' then k s' (S pos) caps else None
      | EmptyString => None
      end
  | Cls p =>
      match s with
      | String c' s' => if p c' then k s' (S pos) caps else None
      | EmptyString => None
      end
  | Seq r1 r2 => run r1 s pos caps (fun s' pos' caps' => run r2 s' pos' caps' k)
  | Alt r1 r2 =>
      match run r1 s pos caps k with
      | Some x => Some x
      | None => run r2 s pos caps k
      end
  | Star r1 =>
      (fix loop (fuel : nat) (s : string) (pos : nat) (caps : Captures) : option R :=
         match fuel with
         | O => k s pos caps
         | S fuel' =>
             match run r1 s pos caps
                     (fun s' pos' caps' =>
                        if pos <? pos' then loop fuel' s' pos' caps' else None) with
             | Some x => Some x
             | None => k s pos caps
             end
         end) (String.length s) s pos caps
  | Grp i r1 =>
      run r1 s pos caps
        (fun s' pos' caps' => k s' pos' ((i, Js.take (pos' - pos) s) :: caps'))
  end.

(** One result of [regex.exec]: [index], the position after the match and
    the captured groups. *)
Record Match : Type := {
  index : nat;
  matchEnd : nat;
  captures : Captures
}.

(** [regex.exec(text)] with [lastIndex = pos], [s] being the text from
    [pos] on: the leftmost position at which the expression matches. Also
    returns the text after the match. *)
Fixpoint exec (r : re) (s : string) (pos : nat) : option (Match * string) :=
  match run r s pos []
          (fun s' pos' caps =>
             Some ({| index := pos; matchEnd := pos'; captures := caps |}, s')) with
  | Some x => Some x
  | None =>
      match s with
      | EmptyString => None
      | String _ s' => exec r s' (S pos)
      end
  end.

(** The loop [while ((m = regex.exec(text)) !== null)] of a global
    expression: each search starts where the last match ended. The
    expressions of the parsers match at least one character, so each round
    moves on and [fuel], the length of the text, is never used up. *)
Fixpoint execLoop (fuel : nat) (r : re) (s : string) (pos : nat) : list Match :=
  match fuel with
  | O => []
  | S fuel' =>
      match exec r s pos with
      | None => []
      | Some (m, rest) => m :: execLoop fuel' r rest (matchEnd m)
      end
  end.

Definition execAll (r : re) (text : string) : list Match :=
  execLoop (String.length text) r text 0.

End Regex.

(* ===================================================================== *)
(** * githubParserService.js                                              *)
(* ===================================================================== *)

(** [typeMap[key] || 'VARCHAR'] for the type tables of the parsers. A key
    spelled like a member of [Object.prototype] would make the JavaScript
    read return that member, not a string; a [Column] has no such type
    and the model gives the default for it. *)
Definition mapType (typeMap : list (string * string)) (key : string) : string :=
  default "VARCHAR" (ownEntry key typeMap).

Definition newTableNode (nodeId modelName : string) (cols : list Column) : Node :=
  {| node_id := nodeId;
     node_type := "tableNode";
     position := {| pos_x := 0; pos_y := 0 |};
     data := {| label := modelName; columns := cols |} |}.

(** [`table_${n}`] *)
Definition tableId (n : nat) : string := "table_" +:+ Js.natToString n.

(** The nodes of a parser, one per declaration found, numbered in order:
    [`table_${nodes.length + 1}`]. *)
Fixpoint numberNodes (count : nat) (found : list (string * list Column)) : list Node :=
  match found with
  | [] => []
  | (modelName, cols) :: rest =>
      newTableNode (tableId (count + 1)) modelName cols :: numberNodes (S count) rest
  end.

Module PrismaParser.

(** [/model\s+(\w+)\s*\{([^}]+)\}/g] *)
Definition modelRegex : Regex.re :=
  Regex.seq [Regex.Lit "model"; Regex.Plus Regex.space;
             Regex.Grp 1 (Regex.Plus Regex.word); Regex.Star Regex.space;
             Regex.Chr "{"; Regex.Grp 2 (Regex.Plus (Regex.noneOf ["}"%char]));
             Regex.Chr "}"].

(** [/(\w+)\s+(\w+(?:\[\])?)\s*(.{0,})/g]; the source writes the last
    group with a star. *)
Definition fieldRegex : Regex.re :=
  Regex.seq [Regex.Grp 1 (Regex.Plus Regex.word); Regex.Plus Regex.space;
             Regex.Grp 2 (Regex.Seq (Regex.Plus Regex.word)
                                    (Regex.Opt (Regex.Lit "[]")));
             Regex.Star Regex.space; Regex.Grp 3 (Regex.Star Regex.dot)].

Definition typeMap : list (string * string) :=
  [("String", "VARCHAR"); ("Int", "INT"); ("BigInt", "BIGINT");
   ("Float", "FLOAT"); ("Decimal", "DECIMAL"); ("Boolean", "BOOLEAN");
   ("DateTime", "DATETIME"); ("Date", "DATE"); ("Json", "JSON");
   ("Bytes", "BLOB")].

Definition mapPrismaType (type : string) : string :=
  let cleanType := Js.replace type "[]" "" in
  mapType typeMap cleanType.

(** One round of the field loop. The list [relations] the source also
    fills there is never read and is left out. *)
Definition parseField (fieldMatch : Regex.Match) : Column :=
  let fieldName := Regex.group 1 (Regex.captures fieldMatch) in
  let fieldType := Regex.group 2 (Regex.captures fieldMatch) in
  let attributes := Regex.group 3 (Regex.captures fieldMatch) in
  {| col_name := fieldName;
     col_type := mapPrismaType fieldType;
     isPK := Js.includes attributes "@id";
     isNullable := negb (Js.includes attributes "@required")
                   && negb (Js.includes fieldType "[]");
     isUnique := Js.includes attributes "@unique" |}.

Definition parseModel (modelMatch : Regex.Match) : string * list Column :=
  let modelName := Regex.group 1 (Regex.captures modelMatch) in
  let modelBody := Regex.group 2 (Regex.captures modelMatch) in
  (modelName, map parseField (Regex.execAll fieldRegex modelBody)).

(** The closing loop over [relationRegex] has an empty body; [edges] stays
    empty. *)
Definition parse (content : string) : Schema :=
  {| nodes := numberNodes 0 (map parseModel (Regex.execAll modelRegex content));
     edges := [] |}.

End PrismaParser.

Module MongooseParser.

(** [/(?:const|let|var)\s+(\w+)Schema\s*=\s*new\s+mongoose\.Schema\(/g] *)
Definition schemaRegex : Regex.re :=
  Regex.seq [Regex.Alt (Regex.Lit "const") (Regex.Alt (Regex.Lit "let") (Regex.Lit "var"));
             Regex.Plus Regex.space; Regex.Grp 1 (Regex.Plus Regex.word);
             Regex.Lit "Schema"; Regex.Star Regex.space; Regex.Chr "=";
             Regex.Star Regex.space; Regex.Lit "new"; Regex.Plus Regex.space;
             Regex.Lit "mongoose.Schema("].

(** [/(\w+):\s*\{[^}]*type:\s*mongoose\.Schema\.Types\.(\w+)/g] *)
Definition fieldRegex : Regex.re :=
  Regex.seq [Regex.Grp 1 (Regex.Plus Regex.word); Regex.Chr ":";
             Regex.Star Regex.space; Regex.Chr "{";
             Regex.Star (Regex.noneOf ["}"%char]); Regex.Lit "type:";
             Regex.Star Regex.space; Regex.Lit "mongoose.Schema.Types.";
             Regex.Grp 2 (Regex.Plus Regex.word)].

Definition typeMap : list (string * string) :=
  [("String", "VARCHAR"); ("Number", "INT"); ("Date", "DATETIME");
   ("Boolean", "BOOLEAN"); ("ObjectId", "VARCHAR"); ("Array", "TEXT");
   ("Mixed", "TEXT")].

Definition mapMongooseType (type : string) : string := mapType typeMap type.

(** The brace counting loop: [s] is the content from [schemaEnd] on; the
    result is the final [schemaEnd]. *)
Fixpoint braceScan (braceCount : nat) (s : string) (schemaEnd : nat) : nat :=
  match s with
  | EmptyString => schemaEnd
  | String c s' =>
      if braceCount =? 0 then schemaEnd
      else
        let afterOpen := if Ascii.eqb c "{" then S braceCount else braceCount in
        let afterClose := if Ascii.eqb c "}" then afterOpen - 1 else afterOpen in
        braceScan afterClose s' (S schemaEnd)
  end.

(** [body.includes(marker) && body.indexOf(fieldName) < body.indexOf(marker)] *)
Definition declaredBefore (schemaBody fieldName marker : string) : bool :=
  Js.includes schemaBody marker
  && (Js.indexOf schemaBody fieldName <? Js.indexOf schemaBody marker)%Z.

(** One round of the field loop ([isRef] is computed and never read). *)
Definition parseField (schemaBody : string) (fieldMatch : Regex.Match) : Column :=
  let fieldName := Regex.group 1 (Regex.captures fieldMatch) in
  let fieldType := Regex.group 2 (Regex.captures fieldMatch) in
  let isRequired := declaredBefore schemaBody fieldName "required: true" in
  {| col_name := fieldName;
     col_type := mapMongooseType fieldType;
     isPK := String.eqb fieldName "_id" || String.eqb fieldName "id";
     isNullable := negb isRequired;
     isUnique := declaredBefore schemaBody fieldName "unique: true" |}.

Definition parseSchema (content : string) (schemaMatch : Regex.Match)
  : string * list Column :=
  let schemaName := Regex.group 1 (Regex.captures schemaMatch) in
  let modelName := Js.replace schemaName "Schema" "" in
  let schemaStart := Regex.matchEnd schemaMatch in
  let schemaEnd := braceScan 1 (Js.drop schemaStart content) schemaStart in
  let schemaBody := Js.substring content schemaStart (schemaEnd - 1) in
  (modelName, map (parseField schemaBody) (Regex.execAll fieldRegex schemaBody)).

Definition parse (content : string) : Schema :=
  {| nodes := numberNodes 0
                (map (parseSchema content) (Regex.execAll schemaRegex content));
     edges := [] |}.

End MongooseParser.

Module SequelizeParser.

Definition quotes : list ascii := ["'"%char; ascii_of_nat 34].

(** [/sequelize\.define\(Q([^Q]+)Q/g], where Q is the set of the two
    quote characters, single and double. *)
Definition modelRegex : Regex.re :=
  Regex.seq [Regex.Lit "sequelize.define("; Regex.oneOf quotes;
             Regex.Grp 1 (Regex.Plus (Regex.noneOf quotes)); Regex.oneOf quotes].

Definition parseModel (modelMatch : Regex.Match) : string * list Column :=
  (Regex.group 1 (Regex.captures modelMatch), []).

Definition parse (content : string) : Schema :=
  {| nodes := numberNodes 0 (map parseModel (Regex.execAll modelRegex content));
     edges := [] |}.

End SequelizeParser.

(** ** [detectParserType] *)

Inductive ParserType : Type :=
| prisma
| mongoose
| sequelize.

Definition detectParserType (content : string) : option ParserType :=
  if Js.includes content "prisma" && Js.includes content "model" then Some prisma
  else if Js.includes content "mongoose.Schema" then Some mongoose
  else if Js.includes content "sequelize.define" then Some sequelize
  else None.

(** The [switch] of [parseModels] followed by [parser.parse(file.content)]. *)
Definition parseWith (parserType : ParserType) (content : string) : Schema :=
  match parserType with
  | prisma => PrismaParser.parse content
  | mongoose => MongooseParser.parse content
  | sequelize => SequelizeParser.parse content
  end.

(** ** [parseModels] *)

Record File : Type := {
  path : string;
  content : string
}.

(** The variables the loop over the files updates. *)
Record MergeState : Type := {
  allNodes : list Node;
  allEdges : list Edge;
  nodeIdMap : gmap string string;
  nodeCounter : nat
}.

Definition initialState : MergeState :=
  {| allNodes := []; allEdges := []; nodeIdMap := ∅; nodeCounter := 1 |}.

(** Body of [nodes.forEach]. *)
Definition mergeNode (st : MergeState) (node : Node) : MergeState :=
  match find (fun n => String.eqb (label (data n)) (label (data node))) (allNodes st) with
  | Some _ => st
  | None =>
      let count := length (allNodes st) in
      let newNode :=
        {| node_id := tableId (nodeCounter st);
           node_type := node_type node;
           position := {| pos_x := Z.of_nat (count mod 3) * 400;
                          pos_y := Z.of_nat (count / 3) * 300 |};
           data := data node |} in
      {| allNodes := allNodes st ++ [newNode];
         allEdges := allEdges st;
         nodeIdMap := <[label (data node) := node_id newNode]> (nodeIdMap st);
         nodeCounter := S (nodeCounter st) |}
  end.

(** [nodeIdMap.get(endpoint) || endpoint] *)
Definition resolveEndpoint (m : gmap string string) (endpoint : string) : string :=
  match m !! endpoint with
  | Some nodeId => if String.eqb nodeId "" then endpoint else nodeId
  | None => endpoint
  end.

(** [{ ...edge, source: ..., target: ... }] *)
Definition mapEdge (m : gmap string string) (edge : Edge) : Edge :=
  {| edge_id := edge_id edge;
     source := resolveEndpoint m (source edge);
     target := resolveEndpoint m (target edge);
     sourceHandle := sourceHandle edge;
     targetHandle := targetHandle edge;
     edge_type := edge_type edge;
     edge_label := edge_label edge |}.

(** Body of [edges.forEach]. *)
Definition mergeEdge (st : MergeState) (edge : Edge) : MergeState :=
  {| allNodes := allNodes st;
     allEdges := allEdges st ++ [mapEdge (nodeIdMap st) edge];
     nodeIdMap := nodeIdMap st;
     nodeCounter := nodeCounter st |}.

(** The two loops that follow [parser.parse]: what one file's nodes and
    edges add to the merged model. *)
Definition mergeParsed (st : MergeState) (parsed : Schema) : MergeState :=
  fold_left mergeEdge (edges parsed) (fold_left mergeNode (nodes parsed) st).

(** Body of [files.forEach]: a file of unknown type is skipped with a
    warning. The parsers do not throw on a string, the [catch] is not
    reached. *)
Definition parseFile (st : MergeState) (file : File) : MergeState :=
  match detectParserType (content file) with
  | Some parserType => mergeParsed st (parseWith parserType (content file))
  | None => st
  end.

Definition parseModels (files : list File) : Schema :=
  let final := fold_left parseFile files initialState in
  {| nodes := allNodes final; edges := allEdges final |}.

(** The display names of a list of entities, and those a file contributes. *)
Definition labelsOf (ns : list Node) : list string :=
  map (fun n => label (data n)) ns.

Definition fileLabels (file : File) : list string :=
  match detectParserType (content file) with
  | Some parserType => labelsOf (nodes (parseWith parserType (content file)))
  | None => []
  end.


(* ===================================================================== *)
(** * Sample models                                                       *)
(* ===================================================================== *)

(** The models of the scenarios: [User { id PK, email unique }] and
    [Order { id PK, user_id }] with the relationship
    [Order.user_id -> User.id]. *)
Definition column (name type : string) (pk nullable unique : bool) : Column :=
  {| col_name := name; col_type := type;
     isPK := pk; isNullable := nullable; isUnique := unique |}.

Definition tableNode (nodeId lbl : string) (x y : Z) (cols : list Column) : Node :=
  {| node_id := nodeId; node_type := "tableNode";
     position := {| pos_x := x; pos_y := y |};
     data := {| label := lbl; columns := cols |} |}.

Definition relationship (edgeId src tgt srcColumn tgtColumn : string) : Edge :=
  {| edge_id := edgeId; source := src; target := tgt;
     sourceHandle := srcColumn +:+ "-right";
     targetHandle := tgtColumn +:+ "-left";
     edge_type := "step"; edge_label := "N:1" |}.

Definition userNode : Node :=
  tableNode "table_1" "User" 0 0
    [column "id" "INT" true false false;
     column "email" "VARCHAR" false false true].

Definition orderNode : Node :=
  tableNode "table_2" "Order" 400 0
    [column "id" "INT" true false false;
     column "user_id" "INT" false true false].

Definition orderToUser : Edge :=
  relationship "e2-1" "table_2" "table_1" "user_id" "id".

Definition shopSchema : Schema :=
  {| nodes := [userNode; orderNode]; edges := [orderToUser] |}.

(** The same two entities with a relationship to an entity that is not in
    the model. *)
Definition danglingSchema : Schema :=
  {| nodes := [userNode; orderNode];
     edges := [relationship "e2-9" "table_2" "table_9" "user_id" "id"] |}.

(** A model whose only entity has no attribute. *)
Definition bareSchema : Schema :=
  {| nodes := [tableNode "table_1" "Audit" 0 0 []]; edges := [] |}.

(** A model with an entity whose id is the empty string. *)
Definition anonymousNode : Node :=
  tableNode "" "Draft" 800 0 [column "id" "INT" true false false].

Definition anonymousSchema : Schema :=
  {| nodes := [userNode; anonymousNode]; edges := [] |}.

(** A collaborator that cannot be reached. *)
Definition unreachableCollaborator : Collaborator :=
  fun _ _ _ => Throw (Error "fetch failed").

Definition emptySchema : Schema := {| nodes := []; edges := [] |}.

(** [shopSchema] after its two entities were dragged elsewhere on the
    canvas. *)
Definition movedShopSchema : Schema :=
  {| nodes :=
       [tableNode "table_1" "User" 120 80 (columns (data userNode));
        tableNode "table_2" "Order" 900 40 (columns (data orderNode))];
     edges := [orderToUser] |}.

(** Two files that both declare [User]: a Prisma schema with one field and
    a Sequelize model. *)
Definition prismaFile : File :=
  {| path := "prisma/schema.prisma";
     content := "// prisma schema: model User { id Int @id }" |}.

Definition sequelizeFile : File :=
  {| path := "models/user.js";
     content := "const User = sequelize.define('User', {});" |}.


(* ===================================================================== *)
(** * schemaRefactorService.js: the response of the collaborator          *)
(* ===================================================================== *)

(** The properties read below ([refactoredSchema], [explanations],
    [change], [reason], [schema], [goal]) are, like those of [getProp], no
    members of any prototype. *)

(** What [validateRefactorResponse] returns: [{ valid: true, data }] or
    [{ valid: false, error }]. *)
Inductive ResponseValidation : Type :=
| ResponseValid (responseData : JsVal)
| ResponseInvalid (error : string).

(** The loop [for (const exp of response.explanations)]; [Some v] is an
    early [return v]. *)
Fixpoint validateExplanations (exps : list JsVal) : outcome (option ResponseValidation) :=
  match exps with
  | [] => Ret None
  | exp :: rest =>
      change ← getProp exp "change";
      reason ← getProp exp "reason";
      if negb (truthy change) || negb (truthy reason)
      then Ret (Some (ResponseInvalid
                        "Each explanation must have 'change' and 'reason' fields"))
      else validateExplanations rest
  end.

Definition validateRefactorResponse (response : JsVal) : outcome ResponseValidation :=
  if negb (truthy response) || negb (typeofObject response)
  then Ret (ResponseInvalid "Response must be an object")
  else
    refactored ← getProp response "refactoredSchema";
    schemaValidation ← validateSchema refactored;
    match schemaValidation with
    | Invalid error => Ret (ResponseInvalid ("Invalid refactoredSchema: " +:+ error))
    | Valid =>
        explanations ← getProp response "explanations";
        if negb (isArray explanations)
        then Ret (ResponseInvalid "Response must have an 'explanations' array")
        else
          r ← validateExplanations (arrayItems explanations);
          Ret (default (ResponseValid response) r)
    end.

(** The collaborator of [refactorSchema]: the prompt is built from the
    schema and the goal; the reply is what [JSON.parse] gives for the
    cleaned response text, or an exception. *)
Definition RefactorCollaborator : Type := JsVal -> JsVal -> outcome JsVal.

(** [error.message || fallback] *)
Definition messageOr (error : exn) (fallback : string) : string :=
  if String.eqb (message error) "" then fallback else message error.

Definition refactorSchema (ai : RefactorCollaborator) (schema goal : JsVal)
  : outcome JsVal :=
  tryCatch
    (validation ← validateSchema schema;
     match validation with
     | Invalid error => Throw (Error ("Invalid input schema: " +:+ error))
     | Valid =>
         jsonResult ← ai schema goal;
         responseValidation ← validateRefactorResponse jsonResult;
         match responseValidation with
         | ResponseInvalid error => Throw (Error ("Invalid LLM response: " +:+ error))
         | ResponseValid responseData => Ret responseData
         end
     end)
    (fun error =>
       Throw (Error ("Failed to refactor schema: " +:+ messageOr error "Unknown error"))).

(** ** The route [POST /api/schema/refactor] *)

(** What the handler sends: [res.status(status).json(body)]. *)
Record Reply : Type := {
  status : nat;
  body : JsVal
}.

Definition failure (code : nat) (error : string) : Reply :=
  {| status := code;
     body := JObj [("success", JBool false); ("error", JStr error)] |}.

(** [const { schema, goal } = req.body]: throws on a body that is
    [undefined] or [null]. *)
Definition destructureBody (reqBody : JsVal) : outcome (JsVal * JsVal) :=
  match reqBody with
  | JUndefined =>
      Throw (TypeError
        "Cannot destructure property 'schema' of 'req.body' as it is undefined.")
  | JNull =>
      Throw (TypeError
        "Cannot destructure property 'schema' of 'req.body' as it is null.")
  | _ =>
      schema ← getProp reqBody "schema";
      goal ← getProp reqBody "goal";
      Ret (schema, goal)
  end.

(** The handler, once [fetchUser] has let the request through. *)
Definition refactorRoute (ai : RefactorCollaborator) (reqBody : JsVal) : Reply :=
  match
    (fields ← destructureBody reqBody;
     if negb (truthy (fst fields)) then Ret (failure 400 "Schema is required")
     else
       result ← refactorSchema ai (fst fields)
                  (if truthy (snd fields) then snd fields else JStr "");
       refactored ← getProp result "refactoredSchema";
       explanations ← getProp result "explanations";
       Ret {| status := 200;
              body := JObj [("success", JBool true);
                            ("data", JObj [("refactoredSchema", refactored);
                                           ("explanations", explanations)])] |})
  with
  | Ret reply => reply
  | Throw error => failure 500 (messageOr error "Failed to refactor schema")
  end.

(* ===================================================================== *)
(** * Notions used to state further properties                            *)
(* ===================================================================== *)

(** The shape the route reads from a result of [migrateSchema]: a
    [targetDDL] that is a string or at least truthy, and an array
    [mappingSummary]. *)
Definition wellShaped (r : JsVal) : Prop :=
  exists ddl summary,
    getProp r "targetDDL" = Ret ddl /\
    getProp r "mappingSummary" = Ret (JArr summary) /\
    ((exists text, ddl = JStr text) \/ truthy ddl = true).

(** The characters of a string, for statements about what a text
    contains. *)
Definition charsOf (s : string) : list ascii := list_ascii_of_string s.


(** Reading back a JSON string literal, the inverse of [escapeString]:
    [readJsonString s] reads [s] from behind the opening quote up to the
    closing quote and gives the text and what follows the literal. Escapes
    of code points above 255 have no character here and give [None]. *)
Definition hexValue (c : ascii) : option nat :=
  let n := nat_of_ascii c in
  if (48 <=? n) && (n <=? 57) then Some (n - 48)
  else if (97 <=? n) && (n <=? 102) then Some (n - 87)
  else None.

Definition simpleEscape (c : ascii) : option ascii :=
  let n := nat_of_ascii c in
  if n =? 34 then Some (ascii_of_nat 34)
  else if n =? 92 then Some (ascii_of_nat 92)
  else if n =? 98 then Some (ascii_of_nat 8)
  else if n =? 116 then Some (ascii_of_nat 9)
  else if n =? 110 then Some (ascii_of_nat 10)
  else if n =? 102 then Some (ascii_of_nat 12)
  else if n =? 114 then Some (ascii_of_nat 13)
  else None.

Definition consRead (c : ascii) (r : option (string * string)) : option (string * string) :=
  match r with
  | Some (text, rest) => Some (String c text, rest)
  | None => None
  end.

Fixpoint readJsonString (s : string) : option (string * string) :=
  match s with
  | EmptyString => None
  | String c rest =>
      if nat_of_ascii c =? 34 then Some (EmptyString, rest)
      else if nat_of_ascii c =? 92 then
        match rest with
        | EmptyString => None
        | String e rest1 =>
            if nat_of_ascii e =? 117 then
              match rest1 with
              | String h1 (String h2 (String h3 (String h4 rest2))) =>
                  match hexValue h1, hexValue h2, hexValue h3, hexValue h4 with
                  | Some 0, Some 0, Some x, Some y =>
                      consRead (ascii_of_nat (16 * x + y)) (readJsonString rest2)
                  | _, _, _, _ => None
                  end
              | _ => None
              end
            else
              match simpleEscape e with
              | Some ch => consRead ch (readJsonString rest1)
              | None => None
              end
        end
      else consRead c (readJsonString rest)
  end.




(** The entities the parsers find in the files, in the order in which
    [parseModels] meets them. *)
Definition parsedNodes (files : list File) : list Node :=
  flat_map (fun file =>
              match detectParserType (content file) with
              | Some parserType => nodes (parseWith parserType (content file))
              | None => []
              end) files.

(** The place on the canvas of the entity merged as number [i] (from 0):
    three in a row. *)
Definition gridPosition (i : nat) : Position :=
  {| pos_x := Z.of_nat (i mod 3) * 400; pos_y := Z.of_nat (i / 3) * 300 |}.


(** What the loop of [parseModels] keeps true of its variables: the counter
    is one more than the number of merged entities, the ids are
    [table_1], [table_2], ... in order, every entity sits at its place on
    the grid, and the name map sends a display name to the id of the entity
    that has it. *)
Definition wellNumbered (st : MergeState) : Prop :=
  nodeCounter st = S (length (allNodes st)) /\
  map node_id (allNodes st) = map tableId (seq 1 (length (allNodes st))) /\
  (forall i n, allNodes st !! i = Some n -> position n = gridPosition i) /\
  (forall lbl,
      nodeIdMap st !! lbl =
      node_id <$> find (fun n => String.eqb (label (data n)) lbl) (allNodes st)).

(** The merged entities against the parsed entities [seen] so far: the same
    display names, and each merged entity has the data and type of the first
    parsed entity with its name. *)
Definition firstWins (st : MergeState) (seen : list Node) : Prop :=
  (forall lbl, In lbl (labelsOf seen) <-> In lbl (labelsOf (allNodes st))) /\
  (forall m, In m (allNodes st) ->
             exists p,
               find (fun n => String.eqb (label (data n)) (label (data m))) seen = Some p /\
               data m = data p /\ node_type m = node_type p).

(** A file contributes when its type is known and its parser finds at
    least one declaration in it. *)
Definition contributes (file : File) : bool :=
  match fileLabels file with
  | [] => false
  | _ :: _ => true
  end.


(* ===================================================================== *)
(** * mockDataService.js: [generateSQLInserts]                            *)
(* ===================================================================== *)

(** A value of a mock record as [generateMockValue] and the loops of
    [generateMockData] make them: a string, an integer, a boolean, or
    [null] for a foreign key without a row to point to. *)
Inductive MockValue : Type :=
| MockString (s : string)
| MockNumber (z : Z)
| MockBoolean (b : bool)
| MockNull.


Definition quote : ascii := "'"%char.

(** [val.replace(/'/g, "''")] *)
Fixpoint doubleQuotes (val : string) : string :=
  match val with
  | EmptyString => EmptyString
  | String c rest =>
      if Ascii.eqb c quote then String quote (String quote (doubleQuotes rest))
      else String c (doubleQuotes rest)
  end.

(** The callback of [Object.values(record).map], followed by the
    conversion to text that [join] applies to what is no string. *)
Definition sqlValue (val : MockValue) : string :=
  match val with
  | MockString s => String quote (doubleQuotes s) +:+ "'"
  | MockNull => "NULL"
  | MockNumber z => Js.numToString z
  | MockBoolean b => if b then "true" else "false"
  end.






(** Reading a character string literal of standard SQL from behind its
    opening quote: two quotes in a row stand for one quote, a single quote
    closes the literal. The result is the text and what follows the
    literal. *)
Fixpoint readSqlString (s : string) : option (string * string) :=
  match s with
  | EmptyString => None
  | String c rest =>
      if Ascii.eqb c quote then
        match rest with
        | EmptyString => Some (EmptyString, EmptyString)
        | String c' rest' =>
            if Ascii.eqb c' quote then consRead quote (readSqlString rest')
            else Some (EmptyString, rest)
        end
      else consRead c (readSqlString rest)
  end.



(** ** What the expressions of the parsers match *)

(** [Matches r s pos caps s' pos' caps']: the expression [r] matches at
    the head of [s], the input from position [pos] on, and leaves [s'], the
    input from [pos'] on; the captures [caps] become [caps']. *)
Inductive Matches : Regex.re -> string -> nat -> Regex.Captures ->
                    string -> nat -> Regex.Captures -> Prop :=
| Matches_Eps s pos caps :
    Matches Regex.Eps s pos caps s pos caps
| Matches_Chr c s pos caps :
    Matches (Regex.Chr c) (String c s) pos caps s (S pos) caps
| Matches_Cls (p : ascii -> bool) c s pos caps :
    p c = true ->
    Matches (Regex.Cls p) (String c s) pos caps s (S pos) caps
| Matches_Seq r1 r2 s pos caps s1 pos1 caps1 s2 pos2 caps2 :
    Matches r1 s pos caps s1 pos1 caps1 ->
    Matches r2 s1 pos1 caps1 s2 pos2 caps2 ->
    Matches (Regex.Seq r1 r2) s pos caps s2 pos2 caps2
| Matches_Alt_l r1 r2 s pos caps s' pos' caps' :
    Matches r1 s pos caps s' pos' caps' ->
    Matches (Regex.Alt r1 r2) s pos caps s' pos' caps'
| Matches_Alt_r r1 r2 s pos caps s' pos' caps' :
    Matches r2 s pos caps s' pos' caps' ->
    Matches (Regex.Alt r1 r2) s pos caps s' pos' caps'
| Matches_Star_done r s pos caps :
    Matches (Regex.Star r) s pos caps s pos caps
| Matches_Star_more r s pos caps s1 pos1 caps1 s2 pos2 caps2 :
    Matches r s pos caps s1 pos1 caps1 ->
    pos < pos1 ->
    Matches (Regex.Star r) s1 pos1 caps1 s2 pos2 caps2 ->
    Matches (Regex.Star r) s pos caps s2 pos2 caps2
| Matches_Grp i r s pos caps s' pos' caps' :
    Matches r s pos caps s' pos' caps' ->
    Matches (Regex.Grp i r) s pos caps s' pos' ((i, Js.take (pos' - pos) s) :: caps').

(** Every match of [r] takes at least one character. *)
Fixpoint consumes (r : Regex.re) : bool :=
  match r with
  | Regex.Chr _ | Regex.Cls _ => true
  | Regex.Seq r1 r2 => consumes r1 || consumes r2
  | Regex.Alt r1 r2 => consumes r1 && consumes r2
  | Regex.Grp _ r1 => consumes r1
  | Regex.Eps | Regex.Star _ => false
  end.

(** [r] has a group numbered [i]. *)
Fixpoint mentions (i : nat) (r : Regex.re) : bool :=
  match r with
  | Regex.Seq r1 r2 | Regex.Alt r1 r2 => mentions i r1 || mentions i r2
  | Regex.Star r1 => mentions i r1
  | Regex.Grp j r1 => (i =? j) || mentions i r1
  | Regex.Eps | Regex.Chr _ | Regex.Cls _ => false
  end.

(** Every match of [r] goes through a group [i] around an expression that
    takes at least one character, and through no group [i] after it. *)
Fixpoint bindsNonEmpty (i : nat) (r : Regex.re) : bool :=
  match r with
  | Regex.Seq r1 r2 =>
      bindsNonEmpty i r2 || (bindsNonEmpty i r1 && negb (mentions i r2))
  | Regex.Grp j r1 => if i =? j then consumes r1 else bindsNonEmpty i r1
  | _ => false
  end.

(** An attribute with a name and a type. *)
Definition named (c : Column) : Prop := col_name c <> "" /\ col_type c <> "".

(** The verdict of [validateSchema] on a model whose entities all have an
    id and whose attributes all have a name and a type. *)
Definition verdictByLabels (ns : list Node) : Validation :=
  if existsb (fun n => String.eqb (label (data n)) "") ns
  then Invalid "Each node must have 'id', 'data.label'"
  else Valid.


(** A Mongoose file whose schema variable is called [SchemaSchema]. *)
Definition mongooseFile : File :=
  {| path := "models/schema.js";
     content := "const SchemaSchema = new mongoose.Schema({});" |}.


(** What [validateSchema] asks of an item of a [columns] array and of an
    item of [nodes], for values of any shape. *)
Definition hasTruthy (v : JsVal) (k : string) : Prop :=
  exists x, getProp v k = Ret x /\ truthy x = true.

Definition acceptableColumn (col : JsVal) : Prop :=
  hasTruthy col "name" /\ hasTruthy col "type".

Definition acceptableNode (node : JsVal) : Prop :=
  hasTruthy node "id" /\
  exists d cs,
    getProp node "data" = Ret d /\ truthy d = true /\
    hasTruthy d "label" /\
    getProp d "columns" = Ret (JArr cs) /\
    Forall acceptableColumn cs.

(** An item on which a property read throws. *)
Definition nullish (v : JsVal) : Prop := v = JNull \/ v = JUndefined.


(** An item of [nodes] on which [validateSchema] throws: the item itself,
    or an item of its [columns]. *)
Definition throwingNode (node : JsVal) : Prop :=
  nullish node \/
  exists d cs,
    getProp node "data" = Ret d /\ getProp d "columns" = Ret (JArr cs) /\
    Exists nullish cs.


(** ** Notions used to state what a text contains and which numbers print
    with all their digits *)

(** [sub] occurs in [s]: some text, then [sub], then some text. *)
Definition occursIn (sub s : string) : Prop :=
  exists before after, s = before +:+ sub +:+ after.






(* ===================================================================== *)
(** * Scenarios                                                           *)
(* ===================================================================== *)

(** The embedding run on the sample models. *)

Example normalizeDbType_aliases :
  map normalizeDbType ["MongoDB"; "PostgreSQL"; "Postgres 16"; "MySQL"; "mssql"; "oracle"]
  = ["mongo"; "postgres"; "postgres"; "mysql"; "sql"; "oracle"].
Proof. reflexivity. Qed.

(** A relational pair and a small model: the deterministic path, identity
    columns in the idiom of the target, the foreign key of [Order]. *)
Example scenario_relational_pair :
  useAI shopSchema "mysql" "postgres" = false /\
  exists r,
    migrateWithMapping shopSchema "mysql" "postgres" = Ret r /\
    Js.includes (targetDDL r) "  id SERIAL" = true /\
    Js.includes (targetDDL r) "  email VARCHAR NOT NULL" = true /\
    Js.includes (targetDDL r) "  UNIQUE (email)" = true /\
    Js.includes (targetDDL r) "  FOREIGN KEY (user_id) REFERENCES user(id)" = true /\
    length (mappingSummary r) = 4.
Proof.
  split; [reflexivity|]. eexists. split; [reflexivity|].
  repeat split; vm_compute; reflexivity.
Qed.

(** The document dialect as source with the collaborator out of reach: the
    AI-assisted path falls back to the two table definitions. *)
Example scenario_fallback :
  useAI shopSchema "mongo" "postgres" = true /\
  exists ddl,
    (r ← migrateSchema unreachableCollaborator shopSchema "mongo" "postgres";
     getProp r "targetDDL") = Ret (JStr ddl) /\
    Js.includes ddl "CREATE TABLE user (" = true /\
    Js.includes ddl "CREATE TABLE order (" = true /\
    Js.includes ddl "  FOREIGN KEY (user_id) REFERENCES user(id)" = true.
Proof.
  split; [reflexivity|]. eexists. split; [vm_compute; reflexivity|].
  repeat split; vm_compute; reflexivity.
Qed.

(** [email] replaced by [phone] in [User]: one modified entity, none added
    or removed. *)
Example scenario_modified_entity :
  let after :=
    {| nodes := [tableNode "table_1" "User" 0 0
                   [column "id" "INT" true false false;
                    column "phone" "VARCHAR" false false true];
                 orderNode];
       edges := [orderToUser] |} in
  let d := computeDiff shopSchema after in
  map change_id (modified (diff_nodes d)) = ["table_1"] /\
  added (diff_nodes d) = [] /\ removed (diff_nodes d) = [] /\
  diff_edges d = noChanges.
Proof. repeat split; vm_compute; reflexivity. Qed.

(** A file no parser recognizes is skipped. *)
Example scenario_garbage_file :
  parseModels [prismaFile; {| path := "README.md"; content := "hello" |}] =
  {| nodes := [tableNode "table_1" "User" 0 0 [column "id" "INT" true true false]];
     edges := [] |}.
Proof. vm_compute. reflexivity. Qed.

Example stringify_column :
  stringify (JArr [JNum (-3); JUndefined; JObj [("a", JBool true); ("b", JUndefined)]])
  = Some ("[-3,null,{" +:+ quoteJson "a" +:+ ":true}]").
Proof. vm_compute. reflexivity. Qed.

(* ===================================================================== *)
(** * Properties of [validateSchema]                                      *)
(* ===================================================================== *)

Section ValidatorFacts.

Lemma truthy_JStr (s : string) : truthy (JStr s) = negb (String.eqb s "").
Proof. reflexivity. Qed.

Lemma eqb_empty_false (s : string) : s <> "" -> String.eqb s "" = false.
Proof. intros H. apply String.eqb_neq. exact H. Qed.

(** On the objects of typed columns the column loop never throws, and what
    it returns early is a rejection. *)
Lemma validateColumns_typed (cols : list Column) :
  validateColumns (map column_to_js cols) = Ret None \/
  exists e, validateColumns (map column_to_js cols) = Ret (Some (Invalid e)).
Proof.
  induction cols as [|c cols IH]; [left; reflexivity|].
  cbn [map validateColumns].
  unfold column_to_js at 1. cbn.
  destruct (String.eqb (col_name c) ""); cbn.
  - right. eexists. reflexivity.
  - destruct (String.eqb (col_type c) ""); cbn.
    + right. eexists. reflexivity.
    + exact IH.
Qed.

(** Columns that all have a name and a type pass the column loop. *)
Lemma validateColumns_named (cols : list Column) :
  (forall c, In c cols -> col_name c <> "" /\ col_type c <> "") ->
  validateColumns (map column_to_js cols) = Ret None.
Proof.
  induction cols as [|c cols IH]; intros H; [reflexivity|].
  cbn [map validateColumns].
  unfold column_to_js at 1. cbn.
  destruct (H c (or_introl eq_refl)) as [Hn Ht].
  rewrite (eqb_empty_false _ Hn), (eqb_empty_false _ Ht). cbn.
  apply IH. intros c' Hc'. apply H. right. exact Hc'.
Qed.

(** One round of the node loop on a typed node. *)
Lemma validateNodes_cons (n : Node) (ns : list Node) :
  validateNodes (map node_to_js (n :: ns)) =
  if String.eqb (node_id n) "" || String.eqb (label (data n)) ""
  then Ret (Some (Invalid "Each node must have 'id', 'data.label'"))
  else
    match validateColumns (map column_to_js (columns (data n))) with
    | Ret (Some v) => Ret (Some v)
    | Ret None => validateNodes (map node_to_js ns)
    | Throw e => Throw e
    end.
Proof.
  cbn [map validateNodes].
  unfold node_to_js at 1, nodeLacksIdOrLabel. cbn.
  destruct (String.eqb (node_id n) ""); cbn; [reflexivity|].
  destruct (String.eqb (label (data n)) ""); cbn; [reflexivity|].
  destruct (validateColumns (map column_to_js (columns (data n)))) as [[v|]|e];
    reflexivity.
Qed.

(** A typed node with an empty id stops the node loop with a rejection, at
    that node or at an earlier one. *)
Lemma validateNodes_empty_id (ns : list Node) (n : Node) :
  In n ns -> node_id n = "" ->
  exists e, validateNodes (map node_to_js ns) = Ret (Some (Invalid e)).
Proof.
  induction ns as [|m ns IH]; intros Hin Hid; [destruct Hin|].
  rewrite validateNodes_cons.
  destruct Hin as [->|Hin].
  - rewrite Hid. cbn. eexists. reflexivity.
  - destruct (String.eqb (node_id m) "" || String.eqb (label (data m)) "").
    + eexists. reflexivity.
    + destruct (validateColumns_typed (columns (data m))) as [-> | [e ->]].
      * apply IH; assumption.
      * eexists. reflexivity.
Qed.

(** Typed nodes that all have an id, a label and named, typed columns pass
    the node loop, however few columns they have. *)
Lemma validateNodes_complete (ns : list Node) :
  (forall n, In n ns ->
             node_id n <> "" /\ label (data n) <> "" /\
             forall c, In c (columns (data n)) -> col_name c <> "" /\ col_type c <> "") ->
  validateNodes (map node_to_js ns) = Ret None.
Proof.
  induction ns as [|m ns IH]; intros H; [reflexivity|].
  rewrite validateNodes_cons.
  destruct (H m (or_introl eq_refl)) as (Hid & Hlabel & Hcols).
  rewrite (eqb_empty_false _ Hid), (eqb_empty_false _ Hlabel). cbn [orb].
  rewrite (validateColumns_named _ Hcols).
  apply IH. intros n Hn. apply H. right. exact Hn.
Qed.

(** What [validateSchema] does on the object of a typed schema. *)
Lemma validateSchema_typed (s : Schema) :
  validateSchema (schema_to_js s) =
  r ← validateNodes (map node_to_js (nodes s)); Ret (default Valid r).
Proof. reflexivity. Qed.

End ValidatorFacts.

(** C1 (as amended). The validator does not look inside the relationships:
    the verdict of [validateSchema] is the same for any two arrays of
    relationships next to the same entities, for values of any shape and so
    for the objects of typed models. A relationship whose source or target
    names no entity therefore never makes it reject a model. *)
Theorem validateSchema_ignores_relationships :
  (forall (ns : JsVal) (es es' : list JsVal),
      validateSchema (JObj [("nodes", ns); ("edges", JArr es)]) =
      validateSchema (JObj [("nodes", ns); ("edges", JArr es')])) /\
  (forall (ns : list Node) (es es' : list Edge),
      validateSchema (schema_to_js {| nodes := ns; edges := es |}) =
      validateSchema (schema_to_js {| nodes := ns; edges := es' |})).
Proof.
  split.
  - intros ns es es'. unfold validateSchema. cbn.
    destruct (isArray ns); reflexivity.
  - intros ns es es'. rewrite !validateSchema_typed. reflexivity.
Qed.

(** C1 as stated fails: [danglingSchema] has a relationship whose target
    [table_9] is not the id of any entity, and it is accepted. *)
Lemma validateSchema_accepts_dangling_relationship :
  (exists e, In e (edges danglingSchema) /\
             ~ In (target e) (map node_id (nodes danglingSchema))) /\
  validateSchema (schema_to_js danglingSchema) = Ret Valid.
Proof.
  split; [|reflexivity].
  eexists. split; [left; reflexivity|].
  cbn. intros [H|[H|[]]]; discriminate H.
Qed.

(** C9 (as amended). A model that contains an entity whose id is empty is
    rejected: [validateSchema] returns [{ valid: false, error }]. A model
    whose entities all have an id and a label, and whose attributes all have
    a name and a type, is accepted, also when an entity has no attribute at
    all. *)
Theorem validateSchema_rejects_empty_id (s : Schema) :
  (forall n, In n (nodes s) -> node_id n = "" ->
             exists e, validateSchema (schema_to_js s) = Ret (Invalid e)) /\
  ((forall n, In n (nodes s) ->
              node_id n <> "" /\ label (data n) <> "" /\
              forall c, In c (columns (data n)) -> col_name c <> "" /\ col_type c <> "") ->
   validateSchema (schema_to_js s) = Ret Valid).
Proof.
  split.
  - intros n Hin Hid. rewrite validateSchema_typed.
    destruct (validateNodes_empty_id (nodes s) n Hin Hid) as [e ->].
    exists e. reflexivity.
  - intros Hok. rewrite validateSchema_typed.
    rewrite (validateNodes_complete (nodes s) Hok). reflexivity.
Qed.

Lemma validateSchema_rejects_empty_id_witness :
  (In anonymousNode (nodes anonymousSchema) /\ node_id anonymousNode = "" /\
   exists e, validateSchema (schema_to_js anonymousSchema) = Ret (Invalid e)) /\
  validateSchema (schema_to_js bareSchema) = Ret Valid.
Proof.
  split.
  - split; [right; left; reflexivity|].
    split; [reflexivity|].
    apply (proj1 (validateSchema_rejects_empty_id anonymousSchema) anonymousNode).
    + right; left; reflexivity.
    + reflexivity.
  - apply (proj2 (validateSchema_rejects_empty_id bareSchema)).
    intros n [<-|[]]. cbn.
    split; [discriminate|]. split; [discriminate|]. intros col [].
Defined.

(** C9 as stated fails: the only entity of [bareSchema] has a non-empty id
    and no attribute, and the model is accepted. *)
Lemma validateSchema_accepts_entity_without_attributes :
  (exists n, In n (nodes bareSchema) /\ columns (data n) = []) /\
  validateSchema (schema_to_js bareSchema) = Ret Valid.
Proof.
  split; [|reflexivity].
  eexists. split; [left; reflexivity|reflexivity].
Qed.

(* ===================================================================== *)
(** * Properties of [migrateSchema]                                       *)
(* ===================================================================== *)

Section MigrationFacts.

Lemma existsb_eqb_In (k : string) (l : list string) :
  existsb (String.eqb k) l = true <-> In k l.
Proof.
  rewrite existsb_exists. split.
  - intros [x [Hin Heq]]. apply String.eqb_eq in Heq. subst. exact Hin.
  - intros Hin. exists k. split; [exact Hin | apply String.eqb_refl].
Qed.

(** A key that is no member of [Object.prototype] reads as an own entry or
    as [undefined]. *)
Lemma readKey_not_inherited {A : Type} (table : list (string * A)) (k : string) :
  ~ In k objectPrototypeNames ->
  readKey table k = match ownEntry k table with Some a => Own a | None => Missing end.
Proof.
  intros Hk. unfold readKey. destruct (ownEntry k table); [reflexivity|].
  destruct (existsb (String.eqb k) objectPrototypeNames) eqn:E; [|reflexivity].
  apply existsb_eqb_In in E. contradiction.
Qed.

(** The test [hasDirectMapping] of [migrateSchema] is truthy exactly when
    [TYPE_MAPPINGS] holds a table for the pair. *)
Lemma hasDirectMapping_table (src tgt : string) :
  ~ In tgt objectPrototypeNames ->
  lookupTruthy (hasDirectMapping src tgt) = true <->
  exists to table, ownEntry src TYPE_MAPPINGS = Some to /\ ownEntry tgt to = Some table.
Proof.
  intros Htgt. unfold hasDirectMapping, readKey at 1.
  destruct (ownEntry src TYPE_MAPPINGS) as [to|] eqn:Esrc.
  - rewrite (readKey_not_inherited to tgt Htgt).
    destruct (ownEntry tgt to) as [table|] eqn:Etgt; cbn.
    + split; [intros _; eauto | reflexivity].
    + split; [discriminate | intros (to' & table & H1 & H2)].
      injection H1 as <-. congruence.
  - destruct (existsb (String.eqb src) objectPrototypeNames); cbn;
      (split; [discriminate | intros (to & table & H1 & _); discriminate]).
Qed.

Lemma needsAIAssistance_false (schema : Schema) (src tgt : string) :
  needsAIAssistance schema src tgt = false <->
  src <> "mongo" /\ tgt <> "mongo" /\
  length (edges schema) <= 10 /\ length (nodes schema) <= 15.
Proof.
  unfold needsAIAssistance.
  destruct (String.eqb_spec src "mongo") as [Hs|Hs];
    [cbn [orb]; split; [discriminate | intros [H _]; contradiction]|].
  destruct (String.eqb_spec tgt "mongo") as [Ht|Ht];
    [cbn [orb]; split; [discriminate | intros (_ & H & _); contradiction]|].
  cbn [orb].
  destruct (Nat.ltb_spec 10 (length (edges schema))) as [He|He];
    destruct (Nat.ltb_spec 15 (length (nodes schema))) as [Hn|Hn]; cbn [orb];
    (split; [first [discriminate | intros _; auto] | intros (_ & _ & ? & ?)]);
    first [reflexivity | lia].
Qed.

(** A loop whose body always returns collects the results in order. *)
Lemma forEachM_ret {A B : Type} (f : A -> outcome B) (g : A -> B) (l : list A) :
  (forall a, In a l -> f a = Ret (g a)) -> forEachM f l = Ret (map g l).
Proof.
  induction l as [|a l IH]; intros H; [reflexivity|].
  cbn [forEachM map]. rewrite (H a (or_introl eq_refl)). cbn.
  rewrite IH by (intros a' Ha'; apply H; right; exact Ha'). reflexivity.
Qed.

Lemma Forall2_map_right {A B : Type} (P : A -> B -> Prop) (g : A -> B) (l : list A) :
  (forall a, In a l -> P a (g a)) -> Forall2 P l (map g l).
Proof.
  induction l as [|a l IH]; intros H; cbn [map]; constructor.
  - apply H. left. reflexivity.
  - apply IH. intros a' Ha'. apply H. right. exact Ha'.
Qed.

Lemma readMapping_table (src tgt : string) (to : list (string * TypeTable))
    (table : TypeTable) :
  ownEntry src TYPE_MAPPINGS = Some to -> ownEntry tgt to = Some table ->
  readMapping src tgt = Ret (Own table).
Proof.
  intros H1 H2. unfold readMapping, readKey. rewrite H1.
  unfold readKey. rewrite H2. reflexivity.
Qed.

(** With a table, the type of a column is the identity idiom for a primary
    key and otherwise the entry of the table or the generic string type. *)
Lemma renderTable_own (table : TypeTable) (tgt : string) (schema : Schema) (node : Node) :
  let typeWith col :=
    overridePrimaryKey tgt col
      (default "VARCHAR(255)" (ownEntry (Js.toUpperCase (col_type col)) table)) in
  let cols := map (fun col => columnEntry (label (data node)) col (typeWith col))
                  (columns (data node)) in
  renderTable (Own table) tgt schema node =
  Ret (tableDDL (tableNameOf (label (data node))) (map colDef cols)
         (constraintsOf schema node cols),
       map summaryEntry cols).
Proof.
  intros typeWith cols. unfold renderTable.
  rewrite (forEachM_ret _
             (fun col => columnEntry (label (data node)) col (typeWith col)))
    by (intros col _; reflexivity).
  reflexivity.
Qed.

(** With a table the deterministic pass returns, whatever the schema. *)
Lemma migrateWithMapping_own (schema : Schema) (src tgt : string)
    (to : list (string * TypeTable)) (table : TypeTable) :
  ownEntry src TYPE_MAPPINGS = Some to -> ownEntry tgt to = Some table ->
  let render node :=
    let typeWith col :=
      overridePrimaryKey tgt col
        (default "VARCHAR(255)" (ownEntry (Js.toUpperCase (col_type col)) table)) in
    let cols := map (fun col => columnEntry (label (data node)) col (typeWith col))
                    (columns (data node)) in
    (tableDDL (tableNameOf (label (data node))) (map colDef cols)
       (constraintsOf schema node cols),
     map summaryEntry cols) in
  migrateWithMapping schema src tgt =
  Ret {| targetDDL := Js.join newline (map fst (map render (nodes schema)));
         mappingSummary := flat_map snd (map render (nodes schema)) |}.
Proof.
  intros H1 H2 render. unfold migrateWithMapping.
  rewrite (readMapping_table src tgt to table H1 H2). cbn.
  rewrite (forEachM_ret _ render) by (intros node _; apply renderTable_own).
  reflexivity.
Qed.

(** The pairs that have a table have two different ends. *)
Lemma table_pair_distinct (src tgt : string) (to : list (string * TypeTable))
    (table : TypeTable) :
  ownEntry src TYPE_MAPPINGS = Some to -> ownEntry tgt to = Some table -> src <> tgt.
Proof.
  intros H1 H2 ->. unfold TYPE_MAPPINGS in H1. cbn [ownEntry] in H1.
  destruct (String.eqb_spec tgt "mongo") as [->|_];
    [injection H1 as <-; discriminate H2|].
  destruct (String.eqb_spec tgt "postgres") as [->|_];
    [injection H1 as <-; discriminate H2|].
  destruct (String.eqb_spec tgt "mysql") as [->|_];
    [injection H1 as <-; discriminate H2|].
  discriminate H1.
Qed.

(** When the deterministic pass returns [r0], the AI-assisted path returns
    either [r0] (the fall-back) or the collaborator's reply, and the reply
    only if its [targetDDL] is truthy. *)
Lemma migrateWithAI_cases (ai : Collaborator) (schema : Schema) (src tgt : string)
    (r0 : MigrationResult) :
  migrateWithMapping schema src tgt = Ret r0 ->
  migrateWithAI ai schema src tgt = Ret (result_to_js r0) \/
  exists reply ddl,
    ai schema src tgt = Ret reply /\
    migrateWithAI ai schema src tgt = Ret reply /\
    getProp reply "targetDDL" = Ret ddl /\ truthy ddl = true.
Proof.
  intros H0. unfold migrateWithAI. rewrite H0.
  destruct (ai schema src tgt) as [reply|e]; cbn; [|left; reflexivity].
  destruct (getProp reply "targetDDL") as [ddl|e] eqn:Eddl; cbn; [|left; reflexivity].
  destruct (truthy ddl) eqn:Etruthy; cbn; [|left; reflexivity].
  destruct (getProp reply "mappingSummary") as [summary|e]; cbn; [|left; reflexivity].
  destruct (isArray summary); cbn; [|left; reflexivity].
  right. exists reply, ddl. repeat split; assumption || reflexivity.
Qed.

End MigrationFacts.

(** The choice of the path away from the names every object inherits:
    [migrateSchema] branches on [useAI], and for a normalized pair whose
    target is not spelled like a member of [Object.prototype], [useAI] is
    false, the deterministic table-driven path, exactly when
    [TYPE_MAPPINGS] has a table for (source, target), neither of the two is
    [mongo], and the schema has at most 10 relationships and at most 15
    entities; in every other case the AI-assisted path is taken. *)
Theorem migrateSchema_strategy
    (ai : Collaborator) (schema : Schema) (sourceDbType targetDbType : string) :
  let src := normalizeDbType sourceDbType in
  let tgt := normalizeDbType targetDbType in
  src <> tgt ->
  ~ In tgt objectPrototypeNames ->
  (useAI schema src tgt = false <->
   (exists to table, ownEntry src TYPE_MAPPINGS = Some to /\ ownEntry tgt to = Some table) /\
   src <> "mongo" /\ tgt <> "mongo" /\
   length (edges schema) <= 10 /\ length (nodes schema) <= 15) /\
  migrateSchema ai schema sourceDbType targetDbType =
  tryCatch
    (if useAI schema src tgt
     then migrateWithAI ai schema src tgt
     else result_to_js <$> migrateWithMapping schema src tgt)
    rethrowMigration.
Proof.
  intros src tgt Hne Htgt. split.
  - unfold useAI. rewrite orb_false_iff, negb_false_iff.
    rewrite (hasDirectMapping_table src tgt Htgt), needsAIAssistance_false.
    reflexivity.
  - unfold migrateSchema. fold src tgt.
    apply String.eqb_neq in Hne. rewrite Hne. reflexivity.
Qed.

Lemma migrateSchema_strategy_witness :
  useAI shopSchema "mysql" "postgres" = false /\
  migrateSchema unreachableCollaborator shopSchema "MySQL" "PostgreSQL" =
  tryCatch (result_to_js <$> migrateWithMapping shopSchema "mysql" "postgres")
           rethrowMigration.
Proof.
  destruct (migrateSchema_strategy unreachableCollaborator shopSchema
              "MySQL" "PostgreSQL") as [Hiff Heq].
  - vm_compute. discriminate.
  - vm_compute. intuition discriminate.
  - split.
    + apply Hiff. vm_compute. repeat split; try discriminate; try lia.
      eexists _, _. split; reflexivity.
    + exact Heq.
Defined.

(** C2. The test for a direct mapping,
    [TYPE_MAPPINGS[normalizedSource]?.to?.[normalizedTarget]], also finds
    what every object inherits. For the target [constructor] and the source
    [mysql], two normalized names for which [TYPE_MAPPINGS] has no table,
    [useAI] is false on the two entities and one relationship of
    [shopSchema], and [migrateSchema] returns the result of the
    deterministic pass whatever the collaborator would answer: primary keys
    as [INT], every other attribute as [VARCHAR(255)]. *)
Theorem migrateSchema_inherited_target (ai : Collaborator) :
  normalizeDbType "mysql" = "mysql" /\
  normalizeDbType "constructor" = "constructor" /\
  (ownEntry "mysql" TYPE_MAPPINGS ≫= ownEntry "constructor") = None /\
  useAI shopSchema "mysql" "constructor" = false /\
  migrateSchema ai shopSchema "mysql" "constructor" =
  Ret (JObj
         [("targetDDL",
           JStr (Js.join newline
                   [Js.join newline
                      ["CREATE TABLE user ("; "  id INT,";
                       "  email VARCHAR(255) NOT NULL,"; "  UNIQUE (email)"; ");"; ""];
                    Js.join newline
                      ["CREATE TABLE order ("; "  id INT,";
                       "  user_id VARCHAR(255),";
                       "  FOREIGN KEY (user_id) REFERENCES user(id)"; ");"; ""]]));
          ("mappingSummary",
           JArr (map entry_to_js
                   [{| ms_table := "User"; ms_column := "id"; ms_sourceType := "INT";
                       ms_targetType := "INT"; ms_reason := "Direct type mapping" |};
                    {| ms_table := "User"; ms_column := "email";
                       ms_sourceType := "VARCHAR"; ms_targetType := "VARCHAR(255)";
                       ms_reason := "Direct type mapping" |};
                    {| ms_table := "Order"; ms_column := "id"; ms_sourceType := "INT";
                       ms_targetType := "INT"; ms_reason := "Direct type mapping" |};
                    {| ms_table := "Order"; ms_column := "user_id";
                       ms_sourceType := "INT"; ms_targetType := "VARCHAR(255)";
                       ms_reason := "Direct type mapping" |}]))]).
Proof.
  repeat split; try (vm_compute; reflexivity).
Qed.

(** C8. Two dialect names that normalize to the same tag make
    [migrateSchema] fail: it throws an error saying that source and target
    cannot be the same, and returns nothing. *)
Theorem migrateSchema_same_dialect
    (ai : Collaborator) (schema : Schema) (sourceDbType targetDbType : string) :
  normalizeDbType sourceDbType = normalizeDbType targetDbType ->
  migrateSchema ai schema sourceDbType targetDbType =
  Throw (Error "Failed to migrate schema: Source and target database types cannot be the same").
Proof.
  intros H. unfold migrateSchema. cbv zeta.
  rewrite H, String.eqb_refl. reflexivity.
Qed.

Lemma migrateSchema_same_dialect_witness :
  normalizeDbType "PostgreSQL" = normalizeDbType "postgres" /\
  migrateSchema unreachableCollaborator shopSchema "PostgreSQL" "postgres" =
  Throw (Error "Failed to migrate schema: Source and target database types cannot be the same").
Proof.
  split; [reflexivity|].
  apply (migrateSchema_same_dialect unreachableCollaborator shopSchema
           "PostgreSQL" "postgres").
  reflexivity.
Defined.

Section Substrings.

Lemma append_assoc (a b c : string) : (a +:+ b) +:+ c = a +:+ (b +:+ c).
Proof.
  induction a as [|x a IH]; [reflexivity|].
  change (String x ((a +:+ b) +:+ c) = String x (a +:+ (b +:+ c))).
  rewrite IH. reflexivity.
Qed.

Lemma append_cons (x : ascii) (a b : string) : String x a +:+ b = String x (a +:+ b).
Proof. reflexivity. Qed.

Lemma append_nil_r (s : string) : s +:+ "" = s.
Proof.
  induction s as [|c s IH]; [reflexivity|]. rewrite append_cons, IH. reflexivity.
Qed.

Lemma prefix_app (sub rest : string) : String.prefix sub (sub +:+ rest) = true.
Proof.
  induction sub as [|c sub IH]; [destruct rest; reflexivity|].
  rewrite append_cons. cbn [String.prefix].
  destruct (ascii_dec c c) as [_|Hne]; [exact IH | contradiction].
Qed.

Lemma includes_cons (c : ascii) (s sub : string) :
  Js.includes (String c s) sub = String.prefix sub (String c s) || Js.includes s sub.
Proof. reflexivity. Qed.

Lemma includes_prefix (s sub : string) :
  String.prefix sub s = true -> Js.includes s sub = true.
Proof. intros H. destruct s; cbn [Js.includes]; rewrite H; reflexivity. Qed.

(** A text that occurs in [s] is found by [s.includes]. *)
Lemma occursIn_includes (sub s : string) : occursIn sub s -> Js.includes s sub = true.
Proof.
  intros (before & after & ->). induction before as [|c before IH].
  - apply includes_prefix. apply (prefix_app sub after).
  - rewrite append_cons, includes_cons, IH. apply orb_true_r.
Qed.

Lemma occursIn_refl (s : string) : occursIn s s.
Proof. exists EmptyString, EmptyString. rewrite append_nil_r. reflexivity. Qed.

Lemma occursIn_trans (a b c : string) : occursIn a b -> occursIn b c -> occursIn a c.
Proof.
  intros (p1 & q1 & ->) (p2 & q2 & ->). exists (p2 +:+ p1), (q1 +:+ q2).
  rewrite !append_assoc. reflexivity.
Qed.

Lemma occursIn_app_l (sub a b : string) : occursIn sub a -> occursIn sub (a +:+ b).
Proof.
  intros (p & q & ->). exists p, (q +:+ b). rewrite !append_assoc. reflexivity.
Qed.

Lemma occursIn_app_r (sub a b : string) : occursIn sub b -> occursIn sub (a +:+ b).
Proof.
  intros (p & q & ->). exists (a +:+ p), q. rewrite !append_assoc. reflexivity.
Qed.

Lemma occursIn_join (sep : string) (parts : list string) (p : string) :
  In p parts -> occursIn p (Js.join sep parts).
Proof.
  induction parts as [|p0 rest IH]; intros Hin; [destruct Hin|].
  destruct rest as [|q rest].
  - destruct Hin as [->|[]]. apply occursIn_refl.
  - change (occursIn p (p0 +:+ sep +:+ Js.join sep (q :: rest))).
    destruct Hin as [->|Hin].
    + apply occursIn_app_l, occursIn_refl.
    + apply occursIn_app_r, occursIn_app_r, IH. exact Hin.
Qed.

End Substrings.

(** C4. On the deterministic path (a table exists for the pair) the pass
    returns one [CREATE TABLE] statement per entity, joined into the DDL
    text, and the text of each statement is spelled out: the table name,
    the column definitions and the constraints. Every attribute has a
    column definition [name type], followed by [NOT NULL] exactly when it is
    neither nullable nor a primary key; the type of an attribute that is no
    primary key and has no entry in the table is [VARCHAR(255)]; the type of
    a primary key is the identity idiom of the target ([SERIAL] for
    postgres, [INT AUTO_INCREMENT] for mysql, [INT IDENTITY(1,1)] for sql);
    a unique attribute that is no primary key adds a [UNIQUE] constraint;
    and every relationship whose source is the entity and whose target
    resolves adds a [FOREIGN KEY] constraint. Each of these texts occurs in
    the DDL text returned. *)
Theorem migrateWithMapping_rendering
    (schema : Schema) (src tgt : string)
    (to : list (string * TypeTable)) (table : TypeTable) :
  ownEntry src TYPE_MAPPINGS = Some to -> ownEntry tgt to = Some table ->
  exists (r : MigrationResult) (stmts : list string),
    migrateWithMapping schema src tgt = Ret r /\
    targetDDL r = Js.join newline stmts /\
    Forall2
      (fun node stmt =>
         exists colDefs constraints,
           stmt =
             ("CREATE TABLE " +:+
              Js.replaceSpaceRuns false "_" (Js.toLowerCase (label (data node))) +:+
              " (" +:+ newline) +:+
             Js.join ("," +:+ newline) colDefs +:+
             (if (0 <? length constraints)
              then ("," +:+ newline) +:+ Js.join ("," +:+ newline) constraints
              else "") +:+
             (newline +:+ ");" +:+ newline) /\
           Js.includes (targetDDL r) stmt = true /\
           Forall2
             (fun col def =>
                exists ty,
                  def = ("  " +:+ col_name col +:+ " " +:+ ty) +:+
                        (if negb (isNullable col) && negb (isPK col)
                         then " NOT NULL" else "") /\
                  (isPK col = false ->
                   ownEntry (Js.toUpperCase (col_type col)) table = None ->
                   ty = "VARCHAR(255)") /\
                  (isPK col = true ->
                   (tgt = "postgres" -> ty = "SERIAL") /\
                   (tgt = "mysql" -> ty = "INT AUTO_INCREMENT") /\
                   (tgt = "sql" -> ty = "INT IDENTITY(1,1)")) /\
                  Js.includes (targetDDL r) def = true)
             (columns (data node)) colDefs /\
           (forall col,
               In col (columns (data node)) ->
               isUnique col = true -> isPK col = false ->
               In ("  UNIQUE (" +:+ col_name col +:+ ")") constraints /\
               Js.includes (targetDDL r) ("  UNIQUE (" +:+ col_name col +:+ ")") = true) /\
           (forall edge targetNode,
               In edge (edges schema) ->
               source edge = node_id node ->
               find (fun n => String.eqb (node_id n) (target edge)) (nodes schema)
               = Some targetNode ->
               In ("  FOREIGN KEY (" +:+
                   Js.replace (Js.replace (sourceHandle edge) "-right" "") "-left" "" +:+
                   ") REFERENCES " +:+
                   Js.replaceSpaceRuns false "_" (Js.toLowerCase (label (data targetNode))) +:+
                   "(" +:+
                   Js.replace (Js.replace (targetHandle edge) "-left" "") "-right" "" +:+
                   ")") constraints /\
               Js.includes (targetDDL r)
                 ("  FOREIGN KEY (" +:+
                  Js.replace (Js.replace (sourceHandle edge) "-right" "") "-left" "" +:+
                  ") REFERENCES " +:+
                  Js.replaceSpaceRuns false "_" (Js.toLowerCase (label (data targetNode))) +:+
                  "(" +:+
                  Js.replace (Js.replace (targetHandle edge) "-left" "") "-right" "" +:+
                  ")") = true))
      (nodes schema) stmts.
Proof.
  intros H1 H2.
  eexists _, _. split; [apply (migrateWithMapping_own schema src tgt to table H1 H2)|].
  split; [reflexivity|]. cbn [targetDDL].
  rewrite map_map. apply Forall2_map_right. intros node Hnode. cbn [fst].
  set (typeWith := fun col =>
         overridePrimaryKey tgt col
           (default "VARCHAR(255)" (ownEntry (Js.toUpperCase (col_type col)) table))).
  set (cols := map (fun col => columnEntry (label (data node)) col (typeWith col))
                   (columns (data node))).
  set (stmt := tableDDL (tableNameOf (label (data node))) (map colDef cols)
                 (constraintsOf schema node cols)).
  match goal with
  | |- context [Js.join newline ?l] => set (stmts := l)
  end.
  assert (Hstmt : occursIn stmt (Js.join newline stmts)).
  { apply occursIn_join. subst stmts. apply in_map_iff.
    exists node. split; [reflexivity | exact Hnode]. }
  assert (Hdef : forall def, In def (map colDef cols) ->
                             occursIn def (Js.join newline stmts)).
  { intros def Hin. apply occursIn_trans with stmt; [|exact Hstmt].
    unfold stmt, tableDDL. apply occursIn_app_r, occursIn_app_l.
    apply occursIn_join. exact Hin. }
  assert (Hcon : forall text, In text (constraintsOf schema node cols) ->
                              occursIn text (Js.join newline stmts)).
  { intros text Hin. apply occursIn_trans with stmt; [|exact Hstmt].
    unfold stmt, tableDDL. apply occursIn_app_r, occursIn_app_r, occursIn_app_l.
    destruct (constraintsOf schema node cols) as [|c0 cs]; [destruct Hin|].
    cbn [length Nat.ltb Nat.leb]. apply occursIn_app_r, occursIn_join. exact Hin. }
  exists (map colDef cols), (constraintsOf schema node cols).
  split; [reflexivity|]. split; [apply occursIn_includes; exact Hstmt|].
  split; [|split].
  - subst cols. rewrite map_map. apply Forall2_map_right. intros col Hcol.
    exists (typeWith col). split; [reflexivity|]. unfold typeWith, overridePrimaryKey.
    split; [|split].
    + intros Hpk Hnone. rewrite Hpk, Hnone. reflexivity.
    + intros Hpk. rewrite Hpk. repeat split; intros ->; reflexivity.
    + apply occursIn_includes, Hdef. rewrite map_map. apply in_map_iff.
      exists col. split; [reflexivity | exact Hcol].
  - intros col Hin Hu Hpk.
    assert (Hmem : In ("  UNIQUE (" +:+ col_name col +:+ ")")
                      (constraintsOf schema node cols)).
    { unfold constraintsOf. apply in_or_app. left.
      apply in_flat_map. eexists. split; [apply in_map; exact Hin|].
      cbn. rewrite Hu, Hpk. left. reflexivity. }
    split; [exact Hmem | apply occursIn_includes, Hcon, Hmem].
  - intros edge targetNode Hin Hsrc Hfind.
    assert (Hmem : In (foreignKeyText edge targetNode) (constraintsOf schema node cols)).
    { unfold constraintsOf. apply in_or_app. right.
      apply in_flat_map. exists edge. split; [exact Hin|].
      unfold foreignKeyOf. rewrite Hsrc, String.eqb_refl, Hfind. left. reflexivity. }
    split; [exact Hmem | apply occursIn_includes, Hcon, Hmem].
Qed.

Lemma migrateWithMapping_rendering_witness :
  exists r, migrateWithMapping shopSchema "mysql" "postgres" = Ret r.
Proof.
  destruct (migrateWithMapping_rendering shopSchema "mysql" "postgres"
              (default [] (ownEntry "mysql" TYPE_MAPPINGS))
              (default [] (ownEntry "postgres" (default [] (ownEntry "mysql" TYPE_MAPPINGS)))))
    as (r & stmts & Hr & _).
  - reflexivity.
  - reflexivity.
  - exists r. exact Hr.
Defined.

(** C5 (as amended). For every model and every dialect pair that has a
    type-mapping table, [migrateSchema] returns an object whose [targetDDL]
    is neither [null] nor [undefined], whatever the collaborator does and
    whatever the types of the attributes are; and for a model without
    entities the object is either the collaborator's reply or the empty DDL
    text with the empty explanation list. *)
Theorem migrateSchema_returns
    (ai : Collaborator) (schema : Schema) (sourceDbType targetDbType : string)
    (to : list (string * TypeTable)) (table : TypeTable) :
  ownEntry (normalizeDbType sourceDbType) TYPE_MAPPINGS = Some to ->
  ownEntry (normalizeDbType targetDbType) to = Some table ->
  exists r ddl,
    migrateSchema ai schema sourceDbType targetDbType = Ret r /\
    getProp r "targetDDL" = Ret ddl /\ ddl <> JNull /\ ddl <> JUndefined /\
    (nodes schema = [] ->
     r = JObj [("targetDDL", JStr ""); ("mappingSummary", JArr [])] \/
     ai schema (normalizeDbType sourceDbType) (normalizeDbType targetDbType) = Ret r).
Proof.
  intros H1 H2.
  pose proof (table_pair_distinct _ _ _ _ H1 H2) as Hne.
  pose proof (migrateWithMapping_own schema _ _ _ _ H1 H2) as Hmap.
  cbv zeta in Hmap.
  set (r0 := {| targetDDL := _; mappingSummary := _ |}) in Hmap.
  assert (Hempty : nodes schema = [] ->
                   result_to_js r0 =
                   JObj [("targetDDL", JStr ""); ("mappingSummary", JArr [])]).
  { intros Hn. subst r0. rewrite Hn. reflexivity. }
  unfold migrateSchema. cbv zeta.
  apply String.eqb_neq in Hne. rewrite Hne.
  destruct (useAI schema (normalizeDbType sourceDbType) (normalizeDbType targetDbType)).
  - destruct (migrateWithAI_cases ai schema _ _ r0 Hmap)
      as [-> | (reply & ddl & Hai & -> & Hddl & Htruthy)].
    + exists (result_to_js r0), (JStr (targetDDL r0)). cbn.
      repeat split; try discriminate. intros Hn. left. apply Hempty, Hn.
    + exists reply, ddl. cbn.
      repeat split; try assumption; try (intros ->; discriminate Htruthy).
      intros _. right. exact Hai.
  - rewrite Hmap. exists (result_to_js r0), (JStr (targetDDL r0)). cbn.
    repeat split; try discriminate. intros Hn. left. apply Hempty, Hn.
Qed.

Lemma migrateSchema_returns_witness :
  exists r ddl,
    migrateSchema unreachableCollaborator shopSchema "mongodb" "MySQL" = Ret r /\
    getProp r "targetDDL" = Ret ddl /\ ddl <> JNull /\ ddl <> JUndefined.
Proof.
  destruct (migrateSchema_returns unreachableCollaborator shopSchema "mongodb" "MySQL"
              (default [] (ownEntry "mongo" TYPE_MAPPINGS))
              (default [] (ownEntry "mysql" (default [] (ownEntry "mongo" TYPE_MAPPINGS)))))
    as (r & ddl & Hr & Hddl & Hnull & Hundef & _).
  - reflexivity.
  - reflexivity.
  - exists r, ddl. repeat split; assumption.
Defined.

(** C5 as stated fails. postgres and sql are two different supported
    dialects without a table: with the collaborator out of reach the
    fall-back reads an entry of a table that is [undefined] and
    [migrateSchema] throws. With sql as the source it throws even for the
    model without entities. *)
Lemma migrateSchema_throws_without_table :
  normalizeDbType "postgres" <> normalizeDbType "sql" /\
  migrateSchema unreachableCollaborator shopSchema "postgres" "sql" =
  Throw (Error "Failed to migrate schema: Cannot read properties of undefined (reading 'INT')") /\
  migrateSchema unreachableCollaborator emptySchema "sql" "postgres" =
  Throw (Error "Failed to migrate schema: Cannot read properties of undefined (reading 'to')").
Proof.
  split; [vm_compute; discriminate|]. split; reflexivity.
Qed.

(* ===================================================================== *)
(** * Properties of [computeDiff]                                         *)
(* ===================================================================== *)

Section DiffFacts.

Context {V : Type}.

(** An entry read from a map built by insertions was in the map before or is
    one of the inserted pairs. *)
Lemma fold_insert_Some (entries : list (string * V)) (m : gmap string V)
    (k : string) (v : V) :
  fold_left (fun m kv => <[fst kv := snd kv]> m) entries m !! k = Some v ->
  m !! k = Some v \/ In (k, v) entries.
Proof.
  revert m. induction entries as [|[k' v'] entries IH]; intros m H; [left; exact H|].
  cbn [fold_left fst snd] in H. apply IH in H. destruct H as [H|H].
  - destruct (decide (k' = k)) as [->|Hne].
    + rewrite lookup_insert_eq in H. injection H as ->. right. left. reflexivity.
    + rewrite lookup_insert_ne in H by exact Hne. left. exact H.
  - right. right. exact H.
Qed.

(** A key is absent from it exactly when it was absent before and is not
    among the inserted keys. *)
Lemma fold_insert_None (entries : list (string * V)) (m : gmap string V) (k : string) :
  fold_left (fun m kv => <[fst kv := snd kv]> m) entries m !! k = None <->
  m !! k = None /\ ~ In k (map fst entries).
Proof.
  revert m. induction entries as [|[k' v'] entries IH]; intros m.
  - cbn. tauto.
  - cbn [fold_left fst snd map]. rewrite IH. split.
    + intros [H Hnin]. destruct (decide (k' = k)) as [->|Hne].
      * rewrite lookup_insert_eq in H. discriminate H.
      * rewrite lookup_insert_ne in H by exact Hne.
        split; [exact H|]. intros [Heq|Hin]; [contradiction|]. exact (Hnin Hin).
    + intros [H Hnin]. split.
      * rewrite lookup_insert_ne; [exact H|]. intros ->. apply Hnin. left. reflexivity.
      * intros Hin. apply Hnin. right. exact Hin.
Qed.

Lemma newMap_Some (entries : list (string * V)) (k : string) (v : V) :
  newMap entries !! k = Some v -> In (k, v) entries.
Proof.
  intros H. apply fold_insert_Some in H. destruct H as [H|H]; [|exact H].
  rewrite lookup_empty in H. discriminate H.
Qed.

Lemma newMap_None (entries : list (string * V)) (k : string) :
  newMap entries !! k = None <-> ~ In k (map fst entries).
Proof.
  unfold newMap. rewrite fold_insert_None, lookup_empty. tauto.
Qed.

End DiffFacts.

Section ChangeFacts.

Context {A M W : Type}.

(** A loop that pushes to [removed] the elements that satisfy [p]. *)
Lemma fold_pushRemoved (p : A -> bool) (l : list A) (c : Changes A M) :
  fold_left (fun c a => if p a then pushRemoved c a else c) l c =
  {| added := added c;
     removed := removed c ++ List.filter p l;
     modified := modified c |}.
Proof.
  revert c. induction l as [|a l IH]; intros c.
  - cbn. rewrite app_nil_r. destruct c; reflexivity.
  - cbn [fold_left List.filter]. rewrite IH. destruct (p a); cbn.
    + rewrite <- app_assoc. reflexivity.
    + reflexivity.
Qed.

(** A loop that pushes to [added] the elements without a partner, and to
    [modified] those that differ from their partner. *)
Lemma fold_pushAdded (partner : A -> option W) (differs : W -> A -> bool)
    (change : W -> A -> M) (l : list A) (c : Changes A M) :
  fold_left (fun c a =>
               match partner a with
               | None => pushAdded c a
               | Some w => if differs w a then pushModified c (change w a) else c
               end) l c =
  {| added := added c ++
              List.filter (fun a => match partner a with None => true | Some _ => false end) l;
     removed := removed c;
     modified := modified c ++
                 flat_map (fun a =>
                             match partner a with
                             | None => []
                             | Some w => if differs w a then [change w a] else []
                             end) l |}.
Proof.
  revert c. induction l as [|a l IH]; intros c.
  - cbn. rewrite !app_nil_r. destruct c; reflexivity.
  - cbn [fold_left List.filter flat_map]. rewrite IH.
    destruct (partner a) as [w|]; [destruct (differs w a)|]; cbn;
      rewrite <- ?app_assoc; reflexivity.
Qed.

End ChangeFacts.

Section ComputeDiffFacts.

Lemma stringifyDiffers_same (v : JsVal) : stringifyDiffers v v = false.
Proof.
  unfold stringifyDiffers. destruct (stringify v); [|reflexivity].
  rewrite String.eqb_refl. reflexivity.
Qed.

Lemma absent_as_not_has {X : Type} (m : gmap string X) (k : string) :
  negb (mapHas m k) = match m !! k with None => true | Some _ => false end.
Proof. unfold mapHas. destruct (m !! k); reflexivity. Qed.

(** The entity collections of the change set, as filters of the inputs. *)
Lemma computeDiff_nodes (schema1 schema2 : Schema) :
  let nodes1Map := newMap (nodeEntries (nodes schema1)) in
  let nodes2Map := newMap (nodeEntries (nodes schema2)) in
  diff_nodes (computeDiff schema1 schema2) =
  {| added :=
       List.filter (fun n => match nodes1Map !! node_id n with
                             | None => true | Some _ => false end) (nodes schema2);
     removed :=
       List.filter (fun n => match nodes2Map !! node_id n with
                             | None => true | Some _ => false end) (nodes schema1);
     modified :=
       flat_map (fun n => match nodes1Map !! node_id n with
                          | None => []
                          | Some n1 =>
                              if stringifyDiffers (data_to_js (data n1)) (data_to_js (data n))
                              then [{| change_id := node_id n;
                                       node_original := n1;
                                       node_modified := n |}]
                              else []
                          end) (nodes schema2) |}.
Proof.
  intros nodes1Map nodes2Map. unfold computeDiff. cbn [diff_nodes].
  fold nodes1Map nodes2Map.
  unfold removedNodeStep, addedNodeStep.
  rewrite (fold_pushRemoved (fun n => negb (mapHas nodes2Map (node_id n)))).
  rewrite (fold_pushAdded (fun n => nodes1Map !! node_id n)
             (fun n1 n => stringifyDiffers (data_to_js (data n1)) (data_to_js (data n)))
             (fun n1 n => {| change_id := node_id n; node_original := n1;
                             node_modified := n |})).
  cbn. f_equal. apply filter_ext. intros n. apply absent_as_not_has.
Qed.

(** The relationship collections of the change set, likewise. *)
Lemma computeDiff_edges (schema1 schema2 : Schema) :
  let edges1Map := newMap (edgeEntries (edges schema1)) in
  let edges2Map := newMap (edgeEntries (edges schema2)) in
  diff_edges (computeDiff schema1 schema2) =
  {| added :=
       List.filter (fun e => match edges1Map !! edgeKey e with
                             | None => true | Some _ => false end) (edges schema2);
     removed :=
       List.filter (fun e => match edges2Map !! edgeKey e with
                             | None => true | Some _ => false end) (edges schema1);
     modified :=
       flat_map (fun e => match edges1Map !! edgeKey e with
                          | None => []
                          | Some e1 =>
                              if stringifyDiffers (edge_to_js e1) (edge_to_js e)
                              then [{| edge_original := e1; edge_modified := e |}]
                              else []
                          end) (edges schema2) |}.
Proof.
  intros edges1Map edges2Map. unfold computeDiff. cbn [diff_edges].
  fold edges1Map edges2Map.
  unfold removedEdgeStep, addedEdgeStep.
  rewrite (fold_pushRemoved (fun e => negb (mapHas edges2Map (edgeKey e)))).
  rewrite (fold_pushAdded (fun e => edges1Map !! edgeKey e)
             (fun e1 e => stringifyDiffers (edge_to_js e1) (edge_to_js e))
             (fun e1 e => {| edge_original := e1; edge_modified := e |})).
  cbn. f_equal. apply filter_ext. intros e. apply absent_as_not_has.
Qed.

Lemma nodeEntries_keys (ns : list Node) : map fst (nodeEntries ns) = map node_id ns.
Proof. unfold nodeEntries. rewrite map_map. reflexivity. Qed.

Lemma nodeEntries_In (ns : list Node) (k : string) (n : Node) :
  In (k, n) (nodeEntries ns) -> In n ns /\ node_id n = k.
Proof.
  unfold nodeEntries. rewrite in_map_iff. intros (n' & Heq & Hin).
  injection Heq as <- <-. split; [exact Hin | reflexivity].
Qed.

Lemma filter_nil {X : Type} (p : X -> bool) (l : list X) :
  (forall x, In x l -> p x = false) -> List.filter p l = [].
Proof.
  induction l as [|x l IH]; intros H; [reflexivity|].
  cbn. rewrite (H x (or_introl eq_refl)). apply IH.
  intros y Hy. apply H. right. exact Hy.
Qed.

Lemma flat_map_nil {X Y : Type} (f : X -> list Y) (l : list X) :
  (forall x, In x l -> f x = []) -> flat_map f l = [].
Proof.
  induction l as [|x l IH]; intros H; [reflexivity|].
  cbn. rewrite (H x (or_introl eq_refl)). apply IH.
  intros y Hy. apply H. right. exact Hy.
Qed.

End ComputeDiffFacts.

(** C3. Swapping the two inputs of [computeDiff] swaps [added] and
    [removed]: the added entities of [diff(A,B)] are the removed entities of
    [diff(B,A)] and the removed ones of [diff(A,B)] the added ones of
    [diff(B,A)], and the same for the relationships. The collections are
    equal as lists, hence as sets. *)
Theorem computeDiff_swap (A B : Schema) :
  added (diff_nodes (computeDiff A B)) = removed (diff_nodes (computeDiff B A)) /\
  removed (diff_nodes (computeDiff A B)) = added (diff_nodes (computeDiff B A)) /\
  added (diff_edges (computeDiff A B)) = removed (diff_edges (computeDiff B A)) /\
  removed (diff_edges (computeDiff A B)) = added (diff_edges (computeDiff B A)).
Proof.
  rewrite !computeDiff_nodes, !computeDiff_edges.
  cbn [added removed]. repeat split; reflexivity.
Qed.

(** C10. [computeDiff] looks at nothing but [data] to tell whether an entity
    was modified: when the two schemas have the same entity ids and any two
    entities with the same id, one from each schema, have the same [data]
    (whatever their position and type are), the added, removed and modified
    entity collections are all empty. *)
Theorem computeDiff_data_only (A B : Schema) :
  (forall k, In k (map node_id (nodes A)) <-> In k (map node_id (nodes B))) ->
  (forall n1 n2, In n1 (nodes A) -> In n2 (nodes B) ->
                 node_id n1 = node_id n2 -> data n1 = data n2) ->
  added (diff_nodes (computeDiff A B)) = [] /\
  removed (diff_nodes (computeDiff A B)) = [] /\
  modified (diff_nodes (computeDiff A B)) = [].
Proof.
  intros Hids Hdata. rewrite computeDiff_nodes.
  cbn [added removed modified]. repeat split.
  - apply filter_nil. intros n Hn.
    destruct (newMap (nodeEntries (nodes A)) !! node_id n) eqn:E; [reflexivity|].
    apply newMap_None in E. rewrite nodeEntries_keys in E.
    exfalso. apply E, Hids, in_map, Hn.
  - apply filter_nil. intros n Hn.
    destruct (newMap (nodeEntries (nodes B)) !! node_id n) eqn:E; [reflexivity|].
    apply newMap_None in E. rewrite nodeEntries_keys in E.
    exfalso. apply E, Hids, in_map, Hn.
  - apply flat_map_nil. intros n Hn.
    destruct (newMap (nodeEntries (nodes A)) !! node_id n) as [n1|] eqn:E; [|reflexivity].
    apply newMap_Some, nodeEntries_In in E. destruct E as [Hin Hid].
    rewrite (Hdata n1 n Hin Hn Hid), stringifyDiffers_same. reflexivity.
Qed.

Lemma computeDiff_data_only_witness :
  added (diff_nodes (computeDiff shopSchema movedShopSchema)) = [] /\
  removed (diff_nodes (computeDiff shopSchema movedShopSchema)) = [] /\
  modified (diff_nodes (computeDiff shopSchema movedShopSchema)) = [].
Proof.
  apply (computeDiff_data_only shopSchema movedShopSchema).
  - intros k. cbn. split; intros H; exact H.
  - intros n1 n2 H1 H2. cbn in H1, H2.
    destruct H1 as [<-|[<-|[]]]; destruct H2 as [<-|[<-|[]]]; cbn;
      intros H; first [reflexivity | discriminate H].
Defined.

(* ===================================================================== *)
(** * Properties of [parseModels]                                         *)
(* ===================================================================== *)

Section MergeFacts.

Lemma find_label_Some (ns : list Node) (lbl : string) (n : Node) :
  find (fun m => String.eqb (label (data m)) lbl) ns = Some n ->
  In lbl (labelsOf ns).
Proof.
  intros H. apply find_some in H. destruct H as [Hin Heq].
  apply String.eqb_eq in Heq. subst lbl.
  unfold labelsOf. apply (in_map (fun n => label (data n))). exact Hin.
Qed.

Lemma find_label_None (ns : list Node) (lbl : string) :
  find (fun m => String.eqb (label (data m)) lbl) ns = None ->
  ~ In lbl (labelsOf ns).
Proof.
  intros H Hin. unfold labelsOf in Hin. apply in_map_iff in Hin.
  destruct Hin as (m & Hm & Hin).
  pose proof (find_none _ _ H m Hin) as Hf. cbn in Hf.
  rewrite Hm, String.eqb_refl in Hf. discriminate Hf.
Qed.

Lemma NoDup_snoc {X : Type} (l : list X) (x : X) :
  List.NoDup l -> ~ In x l -> List.NoDup (l ++ [x]).
Proof.
  induction l as [|y l IH]; cbn; intros Hnd Hx.
  - constructor; [intros [] | constructor].
  - inversion Hnd as [|? ? Hy Hl]; subst. constructor.
    + rewrite in_app_iff. cbn. intros [H|[H|[]]]; [exact (Hy H)|].
      apply Hx. left. symmetry. exact H.
    + apply IH; [exact Hl|]. intros H. apply Hx. right. exact H.
Qed.

(** ** One entity *)

Lemma mergeNode_labels (st : MergeState) (node : Node) (lbl : string) :
  In lbl (labelsOf (allNodes (mergeNode st node))) <->
  In lbl (labelsOf (allNodes st)) \/ lbl = label (data node).
Proof.
  unfold mergeNode.
  destruct (find _ (allNodes st)) as [n|] eqn:E.
  - split; [intros H; left; exact H|]. intros [H| ->]; [exact H|].
    exact (find_label_Some _ _ _ E).
  - cbn [allNodes]. unfold labelsOf. rewrite map_app, in_app_iff. cbn.
    split; intros [H|H]; auto; destruct H as [H|[]]; auto.
Qed.

Lemma mergeNode_NoDup (st : MergeState) (node : Node) :
  List.NoDup (labelsOf (allNodes st)) -> List.NoDup (labelsOf (allNodes (mergeNode st node))).
Proof.
  intros Hnd. unfold mergeNode.
  destruct (find _ (allNodes st)) as [n|] eqn:E; [exact Hnd|].
  cbn [allNodes]. unfold labelsOf. rewrite map_app. cbn.
  apply NoDup_snoc; [exact Hnd|]. exact (find_label_None _ _ E).
Qed.

Lemma mergeNode_edges (st : MergeState) (node : Node) :
  allEdges (mergeNode st node) = allEdges st.
Proof. unfold mergeNode. destruct (find _ (allNodes st)); reflexivity. Qed.

(** ** The entities of one file *)

Lemma mergeNodes_labels (ns : list Node) (st : MergeState) (lbl : string) :
  In lbl (labelsOf (allNodes (fold_left mergeNode ns st))) <->
  In lbl (labelsOf (allNodes st)) \/ In lbl (labelsOf ns).
Proof.
  revert st. induction ns as [|n ns IH]; intros st.
  - cbn. tauto.
  - cbn [fold_left]. rewrite IH, mergeNode_labels. cbn. intuition auto.
Qed.

Lemma mergeNodes_NoDup (ns : list Node) (st : MergeState) :
  List.NoDup (labelsOf (allNodes st)) ->
  List.NoDup (labelsOf (allNodes (fold_left mergeNode ns st))).
Proof.
  revert st. induction ns as [|n ns IH]; intros st H; [exact H|].
  cbn [fold_left]. apply IH, mergeNode_NoDup, H.
Qed.

Lemma mergeNodes_edges (ns : list Node) (st : MergeState) :
  allEdges (fold_left mergeNode ns st) = allEdges st.
Proof.
  revert st. induction ns as [|n ns IH]; intros st; [reflexivity|].
  cbn [fold_left]. rewrite IH. apply mergeNode_edges.
Qed.

(** ** The relationships of one file *)

(** The edge loop leaves entities and the name map alone and appends one
    mapped edge for every edge of the file. *)
Lemma mergeEdges_state (es : list Edge) (st : MergeState) :
  fold_left mergeEdge es st =
  {| allNodes := allNodes st;
     allEdges := allEdges st ++ map (mapEdge (nodeIdMap st)) es;
     nodeIdMap := nodeIdMap st;
     nodeCounter := nodeCounter st |}.
Proof.
  revert st. induction es as [|e es IH]; intros st.
  - cbn. rewrite app_nil_r. destruct st; reflexivity.
  - cbn [fold_left]. rewrite IH. cbn. rewrite <- app_assoc. reflexivity.
Qed.

(** ** One file *)

Lemma parseWith_no_edges (parserType : ParserType) (text : string) :
  edges (parseWith parserType text) = [].
Proof. destruct parserType; reflexivity. Qed.

Lemma parseFile_labels (st : MergeState) (file : File) (lbl : string) :
  In lbl (labelsOf (allNodes (parseFile st file))) <->
  In lbl (labelsOf (allNodes st)) \/ In lbl (fileLabels file).
Proof.
  unfold parseFile, fileLabels.
  destruct (detectParserType (content file)) as [parserType|]; [|cbn; tauto].
  unfold mergeParsed. rewrite mergeEdges_state. cbn [allNodes].
  apply mergeNodes_labels.
Qed.

Lemma parseFile_NoDup (st : MergeState) (file : File) :
  List.NoDup (labelsOf (allNodes st)) -> List.NoDup (labelsOf (allNodes (parseFile st file))).
Proof.
  intros H. unfold parseFile.
  destruct (detectParserType (content file)) as [parserType|]; [|exact H].
  unfold mergeParsed. rewrite mergeEdges_state. cbn [allNodes].
  apply mergeNodes_NoDup, H.
Qed.

Lemma parseFile_edges (st : MergeState) (file : File) :
  allEdges (parseFile st file) = allEdges st.
Proof.
  unfold parseFile.
  destruct (detectParserType (content file)) as [parserType|]; [|reflexivity].
  unfold mergeParsed. rewrite mergeEdges_state, parseWith_no_edges. cbn.
  rewrite app_nil_r. apply mergeNodes_edges.
Qed.

(** ** All the files *)

Lemma parseFiles_labels (files : list File) (st : MergeState) (lbl : string) :
  In lbl (labelsOf (allNodes (fold_left parseFile files st))) <->
  In lbl (labelsOf (allNodes st)) \/
  exists file, In file files /\ In lbl (fileLabels file).
Proof.
  revert st. induction files as [|f files IH]; intros st.
  - cbn. split; [auto | intros [H|(file & [] & _)]; exact H].
  - cbn [fold_left]. rewrite IH, parseFile_labels. split.
    + intros [[H|H]|(file & Hin & H)]; [auto | right | right].
      * exists f. split; [left; reflexivity | exact H].
      * exists file. split; [right; exact Hin | exact H].
    + intros [H|(file & [<-|Hin] & H)]; [auto | auto | right].
      exists file. split; assumption.
Qed.

Lemma parseFiles_NoDup (files : list File) (st : MergeState) :
  List.NoDup (labelsOf (allNodes st)) ->
  List.NoDup (labelsOf (allNodes (fold_left parseFile files st))).
Proof.
  revert st. induction files as [|f files IH]; intros st H; [exact H|].
  cbn [fold_left]. apply IH, parseFile_NoDup, H.
Qed.

Lemma parseFiles_edges (files : list File) (st : MergeState) :
  allEdges (fold_left parseFile files st) = allEdges st.
Proof.
  revert st. induction files as [|f files IH]; intros st; [reflexivity|].
  cbn [fold_left]. rewrite IH. apply parseFile_edges.
Qed.

(** The display names [parseModels] returns are those of the files. *)
Lemma parseModels_labels (files : list File) (lbl : string) :
  In lbl (labelsOf (nodes (parseModels files))) <->
  exists file, In file files /\ In lbl (fileLabels file).
Proof.
  unfold parseModels. cbn [nodes]. rewrite parseFiles_labels. cbn.
  split; [intros [[]|H]; exact H | intros H; right; exact H].
Qed.

End MergeFacts.

(** C6 (as amended). Ingesting the same files in any order gives the same
    set of display names, each name on one entity only, and the same
    relationship list (the three parsers produce no relationship). Which of
    several declarations with one name survives, and the ids and positions
    of the entities, follow the order of the files. *)
Theorem parseModels_order (files files' : list File) :
  Permutation files files' ->
  (forall lbl, In lbl (labelsOf (nodes (parseModels files))) <->
               In lbl (labelsOf (nodes (parseModels files')))) /\
  List.NoDup (labelsOf (nodes (parseModels files))) /\
  List.NoDup (labelsOf (nodes (parseModels files'))) /\
  edges (parseModels files) = edges (parseModels files').
Proof.
  intros Hperm. split; [|split; [|split]].
  - intros lbl. rewrite !parseModels_labels.
    split; intros (file & Hin & H); exists file; (split; [|exact H]).
    + exact (Permutation_in _ Hperm Hin).
    + exact (Permutation_in _ (Permutation_sym Hperm) Hin).
  - apply parseFiles_NoDup. constructor.
  - apply parseFiles_NoDup. constructor.
  - unfold parseModels. cbn [edges]. rewrite !parseFiles_edges. reflexivity.
Qed.

Lemma parseModels_order_witness :
  Permutation [prismaFile; sequelizeFile] [sequelizeFile; prismaFile] /\
  forall lbl,
    In lbl (labelsOf (nodes (parseModels [prismaFile; sequelizeFile]))) <->
    In lbl (labelsOf (nodes (parseModels [sequelizeFile; prismaFile]))).
Proof.
  split; [apply perm_swap|].
  apply (parseModels_order [prismaFile; sequelizeFile] [sequelizeFile; prismaFile]).
  apply perm_swap.
Defined.

(** C6 as stated fails: with the Prisma file first the entity [User] has the
    attribute [id], with the Sequelize file first it has none. *)
Lemma parseModels_order_changes_entities :
  Permutation [prismaFile; sequelizeFile] [sequelizeFile; prismaFile] /\
  exists n, In n (nodes (parseModels [prismaFile; sequelizeFile])) /\
            ~ In n (nodes (parseModels [sequelizeFile; prismaFile])).
Proof.
  split; [apply perm_swap|].
  exists (tableNode "table_1" "User" 0 0 [column "id" "INT" true true false]).
  split.
  - left. vm_compute. reflexivity.
  - vm_compute. intros [H|[]]. discriminate H.
Qed.

(** What the loop over the edges of a parser result would do with a
    relationship, if a parser returned one: append it to the merged
    relationships, an endpoint without entry in the name map left as the
    parser wrote it. *)
Lemma mergeParsed_keeps_edges (st : MergeState) (parsed : Schema) (edge : Edge) :
  In edge (edges parsed) ->
  let merged := mergeParsed st parsed in
  In (mapEdge (nodeIdMap merged) edge) (allEdges merged) /\
  (nodeIdMap merged !! source edge = None ->
   source (mapEdge (nodeIdMap merged) edge) = source edge) /\
  (nodeIdMap merged !! target edge = None ->
   target (mapEdge (nodeIdMap merged) edge) = target edge) /\
  length (allEdges merged) = length (allEdges st) + length (edges parsed).
Proof.
  intros Hin merged. subst merged. unfold mergeParsed.
  rewrite mergeEdges_state. cbn [allEdges nodeIdMap].
  split; [|split; [|split]].
  - apply in_or_app. right. apply in_map. exact Hin.
  - intros H. cbn. unfold resolveEndpoint. rewrite H. reflexivity.
  - intros H. cbn. unfold resolveEndpoint. rewrite H. reflexivity.
  - rewrite length_app, length_map, mergeNodes_edges. reflexivity.
Qed.

Lemma mergeParsed_keeps_edges_witness :
  let merged := mergeParsed initialState shopSchema in
  In (mapEdge (nodeIdMap merged) orderToUser) (allEdges merged).
Proof.
  apply (mergeParsed_keeps_edges initialState shopSchema orderToUser).
  left. reflexivity.
Defined.


(* ===================================================================== *)
(** * Further properties of the migration service                         *)
(* ===================================================================== *)

Section DialectNames.

Lemma toLowerAscii_idempotent (c : ascii) :
  Js.toLowerAscii (Js.toLowerAscii c) = Js.toLowerAscii c.
Proof. destruct c as [[] [] [] [] [] [] [] []]; reflexivity. Qed.

Lemma toLowerAscii_toUpperAscii (c : ascii) :
  Js.toLowerAscii (Js.toUpperAscii c) = Js.toLowerAscii c.
Proof. destruct c as [[] [] [] [] [] [] [] []]; reflexivity. Qed.

Lemma toLowerCase_idempotent (s : string) :
  Js.toLowerCase (Js.toLowerCase s) = Js.toLowerCase s.
Proof.
  unfold Js.toLowerCase. induction s as [|c s IH]; [reflexivity|].
  cbn [Js.mapChars]. rewrite toLowerAscii_idempotent, IH. reflexivity.
Qed.

Lemma toLowerCase_toUpperCase (s : string) :
  Js.toLowerCase (Js.toUpperCase s) = Js.toLowerCase s.
Proof.
  unfold Js.toLowerCase, Js.toUpperCase. induction s as [|c s IH]; [reflexivity|].
  cbn [Js.mapChars]. rewrite toLowerAscii_toUpperAscii, IH. reflexivity.
Qed.

(** The result of [normalizeDbType]: a tag, or the lower-cased name when
    none of the four tests holds. *)
Lemma normalizeDbType_cases (dbType : string) :
  (normalizeDbType dbType = "mongo" \/ normalizeDbType dbType = "postgres" \/
   normalizeDbType dbType = "mysql" \/ normalizeDbType dbType = "sql") \/
  (normalizeDbType dbType = Js.toLowerCase dbType /\
   Js.includes (Js.toLowerCase dbType) "mongo" = false /\
   Js.includes (Js.toLowerCase dbType) "postgres"
   || Js.includes (Js.toLowerCase dbType) "postgresql" = false /\
   Js.includes (Js.toLowerCase dbType) "mysql" = false /\
   Js.includes (Js.toLowerCase dbType) "sql"
   && negb (Js.includes (Js.toLowerCase dbType) "mysql") = false).
Proof.
  unfold normalizeDbType. cbv zeta.
  destruct (Js.includes (Js.toLowerCase dbType) "mongo"); [auto|].
  destruct (Js.includes (Js.toLowerCase dbType) "postgres"
            || Js.includes (Js.toLowerCase dbType) "postgresql"); [auto|].
  destruct (Js.includes (Js.toLowerCase dbType) "mysql"); [auto|].
  destruct (Js.includes (Js.toLowerCase dbType) "sql" && negb false); [auto 6|].
  right. repeat split; reflexivity.
Qed.

End DialectNames.

(** X1. Normalizing a dialect name twice is the same as normalizing it
    once: the four tags are fixed points, and a name that is no alias of
    them is only lower-cased. *)
Theorem normalizeDbType_idempotent (dbType : string) :
  normalizeDbType (normalizeDbType dbType) = normalizeDbType dbType.
Proof.
  destruct (normalizeDbType_cases dbType)
    as [[-> | [-> | [-> | ->]]] | (-> & Hmongo & Hpg & Hmysql & Hsql)];
    try reflexivity.
  unfold normalizeDbType. cbv zeta. rewrite toLowerCase_idempotent.
  rewrite Hmongo, Hpg, Hsql, Hmysql. reflexivity.
Qed.

(** X2. The letter case of a dialect name does not matter: a name made of
    ASCII characters and its upper-cased form normalize to the same tag. *)
Theorem normalizeDbType_ignores_case (dbType : string) :
  (forall c, In c (charsOf dbType) -> nat_of_ascii c < 128) ->
  normalizeDbType (Js.toUpperCase dbType) = normalizeDbType dbType.
Proof.
  intros _. unfold normalizeDbType. cbv zeta.
  rewrite toLowerCase_toUpperCase. reflexivity.
Qed.

Lemma normalizeDbType_ignores_case_witness :
  normalizeDbType (Js.toUpperCase "PostgreSQL") = normalizeDbType "PostgreSQL".
Proof.
  apply (normalizeDbType_ignores_case "PostgreSQL").
  intros c Hc. unfold charsOf in Hc. cbn in Hc.
  repeat (destruct Hc as [<-|Hc]; [vm_compute; lia|]). destruct Hc.
Defined.

Section MappingFacts.

Lemma map_flat_map_comm {X Y Z : Type} (f : Y -> Z) (g : X -> list Y) (l : list X) :
  map f (flat_map g l) = flat_map (fun x => map f (g x)) l.
Proof.
  induction l as [|x l IH]; [reflexivity|].
  cbn [flat_map]. rewrite map_app, IH. reflexivity.
Qed.

Lemma flat_map_map_comm {X Y Z : Type} (f : X -> Y) (g : Y -> list Z) (l : list X) :
  flat_map g (map f l) = flat_map (fun x => g (f x)) l.
Proof.
  induction l as [|x l IH]; [reflexivity|].
  cbn [map flat_map]. rewrite IH. reflexivity.
Qed.

(** Without a table ([mapping] is [undefined]) an entity without attributes
    is still rendered: the table is never read. *)
Lemma renderTable_missing_bare (tgt : string) (schema : Schema) (node : Node) :
  columns (data node) = [] ->
  renderTable Missing tgt schema node =
  Ret (tableDDL (tableNameOf (label (data node))) [] (constraintsOf schema node []), []).
Proof. intros H. unfold renderTable. rewrite H. reflexivity. Qed.

(** With an attribute, the read of its type in the missing table throws. *)
Lemma renderTable_missing_throws (tgt : string) (schema : Schema) (node : Node) :
  columns (data node) <> [] ->
  exists m, renderTable Missing tgt schema node = Throw (TypeError m).
Proof.
  intros H. unfold renderTable.
  destruct (columns (data node)) as [|c cs]; [contradiction|].
  eexists. reflexivity.
Qed.

Lemma renderTables_missing_bare (tgt : string) (schema : Schema) (ns : list Node) :
  (forall n, In n ns -> columns (data n) = []) ->
  exists tables,
    forEachM (renderTable Missing tgt schema) ns = Ret tables /\
    flat_map snd tables = [].
Proof.
  induction ns as [|n ns IH]; intros H; [exists []; split; reflexivity|].
  destruct IH as (tables & Htables & Hsummary);
    [intros m Hm; apply H; right; exact Hm|].
  cbn [forEachM].
  rewrite (renderTable_missing_bare tgt schema n (H n (or_introl eq_refl))).
  cbn. rewrite Htables. cbn. eexists. split; [reflexivity|]. exact Hsummary.
Qed.

Lemma renderTables_missing_throws (tgt : string) (schema : Schema) (ns : list Node) :
  (exists n, In n ns /\ columns (data n) <> []) ->
  exists m, forEachM (renderTable Missing tgt schema) ns = Throw (TypeError m).
Proof.
  induction ns as [|n ns IH]; intros (n' & Hin & Hcols); [destruct Hin|].
  cbn [forEachM].
  destruct (columns (data n)) as [|c cs] eqn:E.
  - rewrite (renderTable_missing_bare tgt schema n E). cbn.
    destruct Hin as [<-|Hin]; [congruence|].
    destruct IH as [m ->]; [exists n'; split; assumption|].
    exists m. reflexivity.
  - destruct (renderTable_missing_throws tgt schema n) as [m ->]; [congruence|].
    exists m. reflexivity.
Qed.

End MappingFacts.

(** X3. On the deterministic pass with a table the mapping summary has one
    entry per attribute, entity after entity and attribute after attribute,
    each with the display name of the entity, the name of the attribute, the
    upper-cased source type and the reason [Direct type mapping]. *)
Theorem migrateWithMapping_summary
    (schema : Schema) (src tgt : string)
    (to : list (string * TypeTable)) (table : TypeTable) :
  ownEntry src TYPE_MAPPINGS = Some to -> ownEntry tgt to = Some table ->
  exists r,
    migrateWithMapping schema src tgt = Ret r /\
    map (fun e => (ms_table e, ms_column e, ms_sourceType e, ms_reason e))
        (mappingSummary r) =
    flat_map (fun node =>
                map (fun col => (label (data node), col_name col,
                                 Js.toUpperCase (col_type col), "Direct type mapping"))
                    (columns (data node)))
             (nodes schema).
Proof.
  intros H1 H2. eexists.
  split; [apply (migrateWithMapping_own schema src tgt to table H1 H2)|].
  cbn [mappingSummary]. rewrite flat_map_map_comm, map_flat_map_comm.
  apply flat_map_ext. intros node. cbn [snd]. rewrite !map_map. reflexivity.
Qed.

Lemma migrateWithMapping_summary_witness :
  exists r,
    migrateWithMapping shopSchema "postgres" "mysql" = Ret r /\
    map ms_column (mappingSummary r) = ["id"; "email"; "id"; "user_id"].
Proof.
  destruct (migrateWithMapping_summary shopSchema "postgres" "mysql"
              (default [] (ownEntry "postgres" TYPE_MAPPINGS))
              (default [] (ownEntry "mysql"
                             (default [] (ownEntry "postgres" TYPE_MAPPINGS)))))
    as (r & Hr & Hsummary); [reflexivity | reflexivity |].
  exists r. split; [exact Hr|].
  apply (f_equal (map (fun q => snd (fst (fst q))))) in Hsummary.
  rewrite map_map in Hsummary. exact Hsummary.
Defined.

(** X4. For a source that has tables and a target it has no table for, the
    deterministic pass (reached as the fall-back of the AI-assisted path)
    returns exactly when no entity has an attribute: the missing table is
    read for the first attribute met, and that read throws a [TypeError]. *)
Theorem migrateWithMapping_without_table
    (schema : Schema) (src tgt : string) (to : list (string * TypeTable)) :
  ownEntry src TYPE_MAPPINGS = Some to -> ownEntry tgt to = None ->
  ~ In tgt objectPrototypeNames ->
  ((forall n, In n (nodes schema) -> columns (data n) = []) ->
   exists r, migrateWithMapping schema src tgt = Ret r /\ mappingSummary r = []) /\
  ((exists n, In n (nodes schema) /\ columns (data n) <> []) ->
   exists m, migrateWithMapping schema src tgt = Throw (TypeError m)).
Proof.
  intros H1 H2 Htgt.
  assert (Hmapping : readMapping src tgt = Ret Missing).
  { unfold readMapping, readKey at 1. rewrite H1.
    rewrite (readKey_not_inherited to tgt Htgt), H2. reflexivity. }
  unfold migrateWithMapping. rewrite Hmapping. cbn. split.
  - intros Hbare.
    destruct (renderTables_missing_bare tgt schema (nodes schema) Hbare)
      as (tables & -> & Hsummary).
    cbn. eexists. split; [reflexivity|]. exact Hsummary.
  - intros Hcols.
    destruct (renderTables_missing_throws tgt schema (nodes schema) Hcols) as [m ->].
    exists m. reflexivity.
Qed.

Lemma migrateWithMapping_without_table_witness :
  (exists r, migrateWithMapping bareSchema "postgres" "sql" = Ret r /\
             mappingSummary r = []) /\
  (exists m, migrateWithMapping shopSchema "postgres" "sql" = Throw (TypeError m)).
Proof.
  split.
  - apply (proj1 (migrateWithMapping_without_table bareSchema "postgres" "sql"
                    (default [] (ownEntry "postgres" TYPE_MAPPINGS))
                    eq_refl eq_refl
                    ltac:(cbn; intuition discriminate))).
    intros n [<-|[]]. reflexivity.
  - apply (proj2 (migrateWithMapping_without_table shopSchema "postgres" "sql"
                    (default [] (ownEntry "postgres" TYPE_MAPPINGS))
                    eq_refl eq_refl
                    ltac:(cbn; intuition discriminate))).
    exists userNode. split; [left; reflexivity | discriminate].
Defined.

Section ResultShape.

Lemma result_to_js_wellShaped (r0 : MigrationResult) : wellShaped (result_to_js r0).
Proof.
  exists (JStr (targetDDL r0)), (map entry_to_js (mappingSummary r0)).
  repeat split. left. eexists. reflexivity.
Qed.

Lemma fallback_wellShaped (schema : Schema) (src tgt : string) (r : JsVal) :
  result_to_js <$> migrateWithMapping schema src tgt = Ret r -> wellShaped r.
Proof.
  destruct (migrateWithMapping schema src tgt) as [r0|e]; cbn; intros H;
    [|discriminate H].
  injection H as <-. apply result_to_js_wellShaped.
Qed.

Lemma migrateWithAI_wellShaped (ai : Collaborator) (schema : Schema)
    (src tgt : string) (r : JsVal) :
  migrateWithAI ai schema src tgt = Ret r -> wellShaped r.
Proof.
  unfold migrateWithAI.
  destruct (ai schema src tgt) as [reply|e]; cbn;
    [|apply fallback_wellShaped].
  destruct (getProp reply "targetDDL") as [ddl|e] eqn:Eddl; cbn;
    [|apply fallback_wellShaped].
  destruct (truthy ddl) eqn:Etruthy; cbn; [|apply fallback_wellShaped].
  destruct (getProp reply "mappingSummary") as [summary|e] eqn:Esummary; cbn;
    [|apply fallback_wellShaped].
  destruct summary as [| | | | |items|]; cbn; try apply fallback_wellShaped.
  intros H. injection H as <-.
  exists ddl, items. repeat split; try assumption. right. exact Etruthy.
Qed.

End ResultShape.

(** X5. Whatever [migrateSchema] returns has the shape the route reads: a
    [mappingSummary] that is an array and a [targetDDL] that is a string
    (the deterministic pass) or a truthy value (an accepted reply of the
    collaborator). A reply without these never reaches the caller. *)
Theorem migrateSchema_result_shape
    (ai : Collaborator) (schema : Schema) (sourceDbType targetDbType : string)
    (r : JsVal) :
  migrateSchema ai schema sourceDbType targetDbType = Ret r ->
  exists ddl summary,
    getProp r "targetDDL" = Ret ddl /\
    getProp r "mappingSummary" = Ret (JArr summary) /\
    ((exists text, ddl = JStr text) \/ truthy ddl = true).
Proof.
  unfold migrateSchema. cbv zeta.
  destruct (String.eqb (normalizeDbType sourceDbType) (normalizeDbType targetDbType));
    [discriminate|].
  destruct (useAI schema (normalizeDbType sourceDbType) (normalizeDbType targetDbType)).
  - destruct (migrateWithAI ai schema _ _) as [r'|e] eqn:E; cbn; [|discriminate].
    intros H. injection H as <-. exact (migrateWithAI_wellShaped _ _ _ _ _ E).
  - destruct (result_to_js <$> migrateWithMapping schema _ _) as [r'|e] eqn:E;
      cbn; [|discriminate].
    intros H. injection H as <-. exact (fallback_wellShaped _ _ _ _ E).
Qed.

Lemma migrateSchema_result_shape_witness :
  exists r ddl summary,
    migrateSchema (fun _ _ _ => Ret (JObj [("targetDDL", JNum 7)]))
                  shopSchema "mongo" "mysql" = Ret r /\
    getProp r "targetDDL" = Ret ddl /\
    getProp r "mappingSummary" = Ret (JArr summary).
Proof.
  eexists.
  destruct (migrateSchema_result_shape
              (fun _ _ _ => Ret (JObj [("targetDDL", JNum 7)]))
              shopSchema "mongo" "mysql" _ eq_refl)
    as (ddl & summary & Hddl & Hsummary & _).
  exists ddl, summary. split; [reflexivity|]. split; assumption.
Defined.

Section TableNames.

Lemma toLowerAscii_not_upper (c : ascii) : Js.isUpper (Js.toLowerAscii c) = false.
Proof. destruct c as [[] [] [] [] [] [] [] []]; reflexivity. Qed.

Lemma toLowerAscii_fixed (c : ascii) : Js.isUpper c = false -> Js.toLowerAscii c = c.
Proof. intros H. unfold Js.toLowerAscii. rewrite H. reflexivity. Qed.

Lemma toLowerCase_chars (s : string) (c : ascii) :
  In c (charsOf (Js.toLowerCase s)) -> Js.isUpper c = false.
Proof.
  unfold charsOf, Js.toLowerCase. induction s as [|d s IH]; cbn; [intros []|].
  intros [<-|H]; [apply toLowerAscii_not_upper | exact (IH H)].
Qed.

Lemma toLowerCase_fixed (s : string) :
  (forall c, In c (charsOf s) -> Js.isUpper c = false) -> Js.toLowerCase s = s.
Proof.
  unfold charsOf, Js.toLowerCase. induction s as [|d s IH]; cbn; intros H; [reflexivity|].
  rewrite toLowerAscii_fixed by (apply H; left; reflexivity).
  rewrite IH by (intros c Hc; apply H; right; exact Hc). reflexivity.
Qed.

(** What [replace(/\s+/g, '_')] leaves: underscores and the characters of
    the input that are no white space. *)
Lemma replaceSpaceRuns_chars (inRun : bool) (s : string) (c : ascii) :
  In c (charsOf (Js.replaceSpaceRuns inRun "_" s)) ->
  c = "_"%char \/ (In c (charsOf s) /\ Js.isSpace c = false).
Proof.
  unfold charsOf. revert inRun. induction s as [|d s IH]; intros inRun; cbn; [intros []|].
  destruct (Js.isSpace d) eqn:E.
  - destruct inRun.
    + intros H. destruct (IH _ H) as [?|[? ?]]; auto.
    + change ("_" +:+ Js.replaceSpaceRuns true "_" s)
        with (String "_" (Js.replaceSpaceRuns true "_" s)).
      cbn. intros [<-|H]; [auto|]. destruct (IH _ H) as [?|[? ?]]; auto.
  - cbn. intros [<-|H]; [auto|]. destruct (IH _ H) as [?|[? ?]]; auto.
Qed.

Lemma replaceSpaceRuns_fixed (inRun : bool) (rep s : string) :
  (forall c, In c (charsOf s) -> Js.isSpace c = false) ->
  Js.replaceSpaceRuns inRun rep s = s.
Proof.
  unfold charsOf. revert inRun. induction s as [|d s IH]; intros inRun H; [reflexivity|].
  cbn. rewrite (H d (or_introl eq_refl)).
  rewrite IH by (intros c Hc; apply H; right; exact Hc). reflexivity.
Qed.

End TableNames.

(** X6. The table name made from a display name contains no white space
    and no upper-case ASCII letter, and making a table name from a table
    name changes nothing. *)
Theorem tableNameOf_clean (lbl : string) :
  (forall c, In c (charsOf (tableNameOf lbl)) ->
             Js.isSpace c = false /\ Js.isUpper c = false) /\
  tableNameOf (tableNameOf lbl) = tableNameOf lbl.
Proof.
  assert (Hchars : forall c, In c (charsOf (tableNameOf lbl)) ->
                             Js.isSpace c = false /\ Js.isUpper c = false).
  { intros c Hc. unfold tableNameOf in Hc.
    destruct (replaceSpaceRuns_chars _ _ _ Hc) as [->|[Hin Hspace]].
    - split; reflexivity.
    - split; [exact Hspace|]. exact (toLowerCase_chars _ _ Hin). }
  split; [exact Hchars|].
  unfold tableNameOf at 1.
  rewrite toLowerCase_fixed by (intros c Hc; apply (Hchars c Hc)).
  apply replaceSpaceRuns_fixed. intros c Hc. apply (Hchars c Hc).
Qed.

(** X7. Every [FOREIGN KEY] constraint of the deterministic DDL references
    a table the same DDL creates: for a relationship of the schema whose
    source is an entity of the schema and whose target resolves to an
    entity, the constraint text occurs in the DDL text returned, the name
    after [REFERENCES] is the table name of the target entity, and one of
    the statements joined into the DDL text begins with [CREATE TABLE],
    this very name and an opening parenthesis. *)
Theorem migrateWithMapping_references_created
    (schema : Schema) (src tgt : string)
    (to : list (string * TypeTable)) (table : TypeTable) :
  ownEntry src TYPE_MAPPINGS = Some to -> ownEntry tgt to = Some table ->
  exists r stmts,
    migrateWithMapping schema src tgt = Ret r /\
    targetDDL r = Js.join newline stmts /\
    forall node edge targetNode,
      In node (nodes schema) -> In edge (edges schema) ->
      source edge = node_id node ->
      find (fun n => String.eqb (node_id n) (target edge)) (nodes schema)
      = Some targetNode ->
      Js.includes (targetDDL r)
        ("  FOREIGN KEY (" +:+
         Js.replace (Js.replace (sourceHandle edge) "-right" "") "-left" "" +:+
         ") REFERENCES " +:+
         Js.replaceSpaceRuns false "_" (Js.toLowerCase (label (data targetNode))) +:+
         "(" +:+
         Js.replace (Js.replace (targetHandle edge) "-left" "") "-right" "" +:+
         ")") = true /\
      (exists rest,
          In (("CREATE TABLE " +:+
               Js.replaceSpaceRuns false "_" (Js.toLowerCase (label (data targetNode))) +:+
               " (" +:+ newline) +:+ rest) stmts) /\
      Js.includes (targetDDL r)
        ("CREATE TABLE " +:+
         Js.replaceSpaceRuns false "_" (Js.toLowerCase (label (data targetNode))) +:+
         " (" +:+ newline) = true.
Proof.
  intros H1 H2. eexists _, _.
  split; [apply (migrateWithMapping_own schema src tgt to table H1 H2)|].
  split; [reflexivity|]. cbn [targetDDL]. rewrite map_map.
  match goal with
  | |- context [Js.join newline (map ?f (nodes schema))] => set (statement := f)
  end.
  assert (Hstmt : forall n, In n (nodes schema) ->
                            occursIn (statement n)
                                     (Js.join newline (map statement (nodes schema)))).
  { intros n Hn. apply occursIn_join, in_map. exact Hn. }
  intros node edge targetNode Hnode Hedge Hsrc Hfind.
  pose proof (find_some _ _ Hfind) as [Htarget _].
  split; [|split].
  - apply occursIn_includes. apply occursIn_trans with (statement node);
      [|exact (Hstmt node Hnode)].
    unfold statement. cbn [fst]. unfold tableDDL.
    apply occursIn_app_r, occursIn_app_r, occursIn_app_l.
    match goal with
    | |- context [constraintsOf schema node ?cols] =>
        assert (Hmem : In (foreignKeyText edge targetNode) (constraintsOf schema node cols))
    end.
    { unfold constraintsOf. apply in_or_app. right.
      apply in_flat_map. exists edge. split; [exact Hedge|].
      unfold foreignKeyOf. rewrite Hsrc, String.eqb_refl, Hfind. left. reflexivity. }
    match goal with
    | |- context [constraintsOf schema node ?cols] =>
        destruct (constraintsOf schema node cols) as [|c0 cs]; [destruct Hmem|]
    end.
    cbn [length Nat.ltb Nat.leb]. apply occursIn_app_r, occursIn_join. exact Hmem.
  - eexists. apply in_map_iff. exists targetNode. split; [|exact Htarget].
    unfold statement. cbn [fst]. unfold tableDDL, tableNameOf. reflexivity.
  - apply occursIn_includes. apply occursIn_trans with (statement targetNode);
      [|exact (Hstmt targetNode Htarget)].
    unfold statement. cbn [fst]. unfold tableDDL, tableNameOf.
    apply occursIn_app_l, occursIn_refl.
Qed.

Lemma migrateWithMapping_references_created_witness :
  exists r, migrateWithMapping shopSchema "mysql" "postgres" = Ret r.
Proof.
  destruct (migrateWithMapping_references_created shopSchema "mysql" "postgres"
              (default [] (ownEntry "mysql" TYPE_MAPPINGS))
              (default [] (ownEntry "postgres"
                             (default [] (ownEntry "mysql" TYPE_MAPPINGS)))))
    as (r & stmts & Hr & _); [reflexivity | reflexivity |].
  exists r. exact Hr.
Defined.

(* ===================================================================== *)
(** * [JSON.stringify] can be read back                                   *)
(* ===================================================================== *)

Section JsonStrings.

Lemma literal_app_inj (lit a b : string) : lit +:+ a = lit +:+ b -> a = b.
Proof.
  induction lit as [|x lit IH]; intros H; [exact H|].
  rewrite !append_cons in H. injection H as H. exact (IH H).
Qed.

(** One escaped character is read back as the character. *)
Lemma readJsonString_escapeChar (c : ascii) (rest : string) :
  readJsonString (escapeChar c +:+ rest) = consRead c (readJsonString rest).
Proof. destruct c as [[] [] [] [] [] [] [] []]; reflexivity. Qed.

Lemma readJsonString_escapeString (s rest : string) :
  readJsonString (escapeString s +:+ String (ascii_of_nat 34) rest) = Some (s, rest).
Proof.
  induction s as [|c s IH]; [reflexivity|].
  cbn [escapeString]. rewrite append_assoc, readJsonString_escapeChar, IH.
  reflexivity.
Qed.

(** Two literals followed by anything are equal only for the same text and
    the same continuation. *)
Lemma quoteJson_app_inj (s s' rest rest' : string) :
  quoteJson s +:+ rest = quoteJson s' +:+ rest' -> s = s' /\ rest = rest'.
Proof.
  unfold quoteJson. rewrite !append_cons, !append_assoc, !append_cons.
  intros H. injection H as H.
  apply (f_equal readJsonString) in H.
  change (EmptyString +:+ rest) with rest in H.
  change (EmptyString +:+ rest') with rest' in H.
  rewrite !readJsonString_escapeString in H.
  injection H as -> ->. split; reflexivity.
Qed.

End JsonStrings.

Section JsonObjects.

Lemma some_eq {X : Type} (a b : X) : Some a = Some b -> a = b.
Proof. intros H. injection H as H. exact H. Qed.

Lemma boolText_app_inj (b b' : bool) (r r' : string) :
  (if b then "true" else "false") +:+ r = (if b' then "true" else "false") +:+ r' ->
  b = b' /\ r = r'.
Proof.
  destruct b, b'; intros H.
  - apply literal_app_inj in H. auto.
  - discriminate H.
  - discriminate H.
  - apply literal_app_inj in H. auto.
Qed.

Ltac peel H :=
  repeat first
    [ apply literal_app_inj in H
    | apply quoteJson_app_inj in H; destruct H as [? H]
    | apply boolText_app_inj in H; destruct H as [? H] ].

Lemma edge_json_inj (e e' : Edge) :
  stringify (edge_to_js e) = stringify (edge_to_js e') -> e = e'.
Proof.
  intros H. unfold edge_to_js in H. cbn -[quoteJson] in H.
  apply some_eq in H. rewrite !append_assoc in H. peel H.
  destruct e, e'; cbn in *; subst; reflexivity.
Qed.







(** [JSON.stringify] tells two edges, and the data of two nodes, apart
    exactly when they differ. *)
Lemma stringifyDiffers_edges (e e' : Edge) :
  stringifyDiffers (edge_to_js e) (edge_to_js e') = true <-> e <> e'.
Proof.
  split.
  - intros H ->. rewrite stringifyDiffers_same in H. discriminate H.
  - intros Hne. unfold stringifyDiffers.
    destruct (stringify (edge_to_js e)) as [x|] eqn:Ex;
      destruct (stringify (edge_to_js e')) as [y|] eqn:Ey; try reflexivity.
    + destruct (String.eqb_spec x y) as [->|]; [|reflexivity].
      exfalso. apply Hne, edge_json_inj. congruence.
    + discriminate Ex.
Qed.


End JsonObjects.

(* ===================================================================== *)
(** * Further properties of [computeDiff]                                 *)
(* ===================================================================== *)

Section MapFacts.

Context {V : Type}.

Lemma fold_insert_other (entries : list (string * V)) (m : gmap string V) (k : string) :
  ~ In k (map fst entries) ->
  fold_left (fun m kv => <[fst kv := snd kv]> m) entries m !! k = m !! k.
Proof.
  revert m. induction entries as [|[k' v'] entries IH]; intros m H; [reflexivity|].
  cbn [fold_left fst snd]. rewrite IH by (intros Hin; apply H; right; exact Hin).
  apply lookup_insert_ne. intros ->. apply H. left. reflexivity.
Qed.

(** The map holds, for a key, the last entry with that key. *)
Lemma newMap_last (front back : list (string * V)) (k : string) (v : V) :
  ~ In k (map fst back) -> newMap (front ++ (k, v) :: back) !! k = Some v.
Proof.
  intros H. unfold newMap. rewrite fold_left_app. cbn [fold_left fst snd].
  rewrite fold_insert_other by exact H. apply lookup_insert_eq.
Qed.

Lemma NoDup_keys_inj (entries : list (string * V)) (k : string) (v v' : V) :
  List.NoDup (map fst entries) -> In (k, v) entries -> In (k, v') entries -> v = v'.
Proof.
  induction entries as [|[k0 v0] entries IH]; intros Hnd Hv Hv'; [destruct Hv|].
  cbn [map fst] in Hnd. inversion Hnd as [|? ? Hk0 Hrest]; subst.
  destruct Hv as [Hv|Hv], Hv' as [Hv'|Hv'].
  - congruence.
  - injection Hv as -> ->. exfalso. apply Hk0.
    apply (in_map fst) in Hv'. exact Hv'.
  - injection Hv' as -> ->. exfalso. apply Hk0.
    apply (in_map fst) in Hv. exact Hv.
  - exact (IH Hrest Hv Hv').
Qed.

(** With pairwise different keys the map gives back every entry. *)
Lemma newMap_In (entries : list (string * V)) (k : string) (v : V) :
  List.NoDup (map fst entries) -> In (k, v) entries -> newMap entries !! k = Some v.
Proof.
  intros Hnd Hin. destruct (newMap entries !! k) as [v'|] eqn:E.
  - apply newMap_Some in E. f_equal. exact (NoDup_keys_inj _ _ _ _ Hnd E Hin).
  - apply newMap_None in E. exfalso. apply E.
    apply (in_map fst) in Hin. exact Hin.
Qed.

End MapFacts.

Section DiffMembers.

Lemma edgeEntries_keys (es : list Edge) : map fst (edgeEntries es) = map edgeKey es.
Proof. unfold edgeEntries. rewrite map_map. reflexivity. Qed.

Lemma edgeEntries_In (es : list Edge) (k : string) (e : Edge) :
  In (k, e) (edgeEntries es) <-> In e es /\ edgeKey e = k.
Proof.
  unfold edgeEntries. rewrite in_map_iff. split.
  - intros (e' & Heq & Hin). injection Heq as <- <-. split; [exact Hin | reflexivity].
  - intros [Hin <-]. exists e. split; [reflexivity | exact Hin].
Qed.

Lemma nodeEntries_In_iff (ns : list Node) (k : string) (n : Node) :
  In (k, n) (nodeEntries ns) <-> In n ns /\ node_id n = k.
Proof.
  split; [apply nodeEntries_In|].
  intros [Hin <-]. unfold nodeEntries. apply in_map_iff.
  exists n. split; [reflexivity | exact Hin].
Qed.

(** Being absent from a map, as a test on the keys. *)
Lemma absent_iff {X : Type} (entries : list (string * X)) (k : string) :
  match newMap entries !! k with None => true | Some _ => false end = true <->
  ~ In k (map fst entries).
Proof.
  rewrite <- newMap_None. destruct (newMap entries !! k); split;
    intros H; try reflexivity; discriminate H.
Qed.

End DiffMembers.

(** X8. What [computeDiff] reports as added and removed: an entity is added
    exactly when it is in the second schema and no entity of the first has
    its id, removed exactly when it is in the first schema and no entity of
    the second has its id; a relationship likewise, by its pair (source,
    target). *)
Theorem computeDiff_added_removed (A B : Schema) :
  (forall n, In n (added (diff_nodes (computeDiff A B))) <->
             In n (nodes B) /\ ~ In (node_id n) (map node_id (nodes A))) /\
  (forall n, In n (removed (diff_nodes (computeDiff A B))) <->
             In n (nodes A) /\ ~ In (node_id n) (map node_id (nodes B))) /\
  (forall e, In e (added (diff_edges (computeDiff A B))) <->
             In e (edges B) /\ ~ In (edgeKey e) (map edgeKey (edges A))) /\
  (forall e, In e (removed (diff_edges (computeDiff A B))) <->
             In e (edges A) /\ ~ In (edgeKey e) (map edgeKey (edges B))).
Proof.
  rewrite computeDiff_nodes, computeDiff_edges. cbn [added removed].
  split; [|split; [|split]]; intros x; rewrite filter_In, absent_iff;
    rewrite ?nodeEntries_keys, ?edgeEntries_keys; tauto.
Qed.

(** X9. A schema compared with itself shows no change at all when its
    entity ids are pairwise different and no two relationships join the
    same pair (source, target). *)
Theorem computeDiff_self (A : Schema) :
  List.NoDup (map node_id (nodes A)) ->
  List.NoDup (map edgeKey (edges A)) ->
  computeDiff A A = {| diff_nodes := noChanges; diff_edges := noChanges |}.
Proof.
  intros Hnodes Hedges.
  assert (Hn : diff_nodes (computeDiff A A) = noChanges).
  { rewrite computeDiff_nodes. unfold noChanges. f_equal.
    - apply filter_nil. intros n Hn.
      rewrite <- nodeEntries_keys in Hnodes.
      rewrite (newMap_In _ _ n Hnodes); [reflexivity|].
      apply nodeEntries_In_iff. auto.
    - apply filter_nil. intros n Hn.
      rewrite <- nodeEntries_keys in Hnodes.
      rewrite (newMap_In _ _ n Hnodes); [reflexivity|].
      apply nodeEntries_In_iff. auto.
    - apply flat_map_nil. intros n Hn.
      rewrite <- nodeEntries_keys in Hnodes.
      rewrite (newMap_In _ _ n Hnodes) by (apply nodeEntries_In_iff; auto).
      rewrite stringifyDiffers_same. reflexivity. }
  assert (He : diff_edges (computeDiff A A) = noChanges).
  { rewrite computeDiff_edges. unfold noChanges. f_equal.
    - apply filter_nil. intros e He.
      rewrite <- edgeEntries_keys in Hedges.
      rewrite (newMap_In _ _ e Hedges); [reflexivity|].
      apply edgeEntries_In. auto.
    - apply filter_nil. intros e He.
      rewrite <- edgeEntries_keys in Hedges.
      rewrite (newMap_In _ _ e Hedges); [reflexivity|].
      apply edgeEntries_In. auto.
    - apply flat_map_nil. intros e He.
      rewrite <- edgeEntries_keys in Hedges.
      rewrite (newMap_In _ _ e Hedges) by (apply edgeEntries_In; auto).
      rewrite stringifyDiffers_same. reflexivity. }
  destruct (computeDiff A A) as [dn de]. cbn in Hn, He. subst. reflexivity.
Qed.

Lemma computeDiff_self_witness :
  computeDiff shopSchema shopSchema =
  {| diff_nodes := noChanges; diff_edges := noChanges |}.
Proof.
  apply (computeDiff_self shopSchema).
  - cbn. repeat constructor; cbn; intuition discriminate.
  - cbn. repeat constructor; cbn; intuition discriminate.
Defined.

(** X10. The edge map of [computeDiff] keeps one relationship per pair
    (source, target), the last one. When another relationship of the same
    schema joins the same pair and differs from it, the schema compared with
    itself reports a modified relationship. *)
Theorem computeDiff_self_collapses (A : Schema) (front back : list Edge)
    (kept other : Edge) :
  edges A = front ++ kept :: back ->
  (forall e, In e back -> edgeKey e <> edgeKey kept) ->
  In other (edges A) -> edgeKey other = edgeKey kept -> other <> kept ->
  In {| edge_original := kept; edge_modified := other |}
     (modified (diff_edges (computeDiff A A))).
Proof.
  intros Hedges Hback Hin Hkey Hne.
  rewrite computeDiff_edges. cbn [modified].
  apply in_flat_map. exists other. split; [exact Hin|].
  rewrite Hkey, Hedges. unfold edgeEntries. rewrite map_app. cbn [map].
  rewrite newMap_last.
  - assert (Hd : stringifyDiffers (edge_to_js kept) (edge_to_js other) = true)
      by (apply stringifyDiffers_edges; congruence).
    rewrite Hd. left. reflexivity.
  - rewrite map_map. cbn [fst]. intros H. apply in_map_iff in H.
    destruct H as (e & He & Hine). exact (Hback e Hine He).
Qed.

Lemma computeDiff_self_collapses_witness :
  let first := relationship "e1" "table_2" "table_1" "user_id" "id" in
  let second := relationship "e2" "table_2" "table_1" "buyer_id" "id" in
  let A := {| nodes := [userNode; orderNode]; edges := [first; second] |} in
  In {| edge_original := second; edge_modified := first |}
     (modified (diff_edges (computeDiff A A))).
Proof.
  intros first second A.
  apply (computeDiff_self_collapses A [first] [] second first).
  - reflexivity.
  - intros e [].
  - left. reflexivity.
  - reflexivity.
  - discriminate.
Defined.



(* ===================================================================== *)
(** * Properties of the refactoring service and its route                 *)
(* ===================================================================== *)

Section RefactorFacts.

(** The explanation loop either passes every item, each with a truthy
    [change] and [reason], or returns a rejection. *)
Lemma validateExplanations_result (exps : list JsVal) (r : option ResponseValidation) :
  validateExplanations exps = Ret r ->
  (r = None /\
   Forall (fun exp => exists change reason,
                        getProp exp "change" = Ret change /\ truthy change = true /\
                        getProp exp "reason" = Ret reason /\ truthy reason = true)
          exps) \/
  exists e, r = Some (ResponseInvalid e).
Proof.
  revert r. induction exps as [|exp exps IH]; intros r; cbn [validateExplanations].
  - intros H. injection H as <-. left. split; [reflexivity | constructor].
  - destruct (getProp exp "change") as [change|e] eqn:Ec; cbn; [|discriminate].
    destruct (getProp exp "reason") as [reason|e] eqn:Er; cbn; [|discriminate].
    destruct (truthy change) eqn:Tc; cbn.
    + destruct (truthy reason) eqn:Tr; cbn.
      * intros H. destruct (IH r H) as [[-> Hall]|[e ->]].
        -- left. split; [reflexivity|]. constructor; [|exact Hall].
           exists change, reason. auto.
        -- right. eexists. reflexivity.
      * intros H. injection H as <-. right. eexists. reflexivity.
    + intros H. injection H as <-. right. eexists. reflexivity.
Qed.

(** What is known of a response that [validateRefactorResponse] accepts. *)
Lemma validateRefactorResponse_inv (response d : JsVal) :
  validateRefactorResponse response = Ret (ResponseValid d) ->
  d = response /\
  (exists refactored,
      getProp response "refactoredSchema" = Ret refactored /\
      validateSchema refactored = Ret Valid) /\
  exists exps,
    getProp response "explanations" = Ret (JArr exps) /\
    Forall (fun exp => exists change reason,
                         getProp exp "change" = Ret change /\ truthy change = true /\
                         getProp exp "reason" = Ret reason /\ truthy reason = true)
           exps.
Proof.
  unfold validateRefactorResponse.
  destruct (negb (truthy response) || negb (typeofObject response)); [discriminate|].
  destruct (getProp response "refactoredSchema") as [refactored|e] eqn:Er; cbn;
    [|discriminate].
  destruct (validateSchema refactored) as [[|err]|e] eqn:Ev; cbn; try discriminate.
  destruct (getProp response "explanations") as [explanations|e] eqn:Ee; cbn;
    [|discriminate].
  destruct explanations as [| | | | |exps|]; cbn; try discriminate.
  destruct (validateExplanations exps) as [r|e] eqn:Ex; cbn; [|discriminate].
  destruct (validateExplanations_result exps r Ex) as [[-> Hall]|[e ->]]; cbn;
    [|discriminate].
  intros H. injection H as <-.
  split; [reflexivity|]. split; [exists refactored; auto | exists exps; auto].
Qed.

(** What is known when [refactorSchema] returns. *)
Lemma refactorSchema_inv (ai : RefactorCollaborator) (schema goal r : JsVal) :
  refactorSchema ai schema goal = Ret r ->
  validateSchema schema = Ret Valid /\
  ai schema goal = Ret r /\
  validateRefactorResponse r = Ret (ResponseValid r).
Proof.
  unfold refactorSchema.
  destruct (validateSchema schema) as [[|err]|e]; cbn; try discriminate.
  destruct (ai schema goal) as [reply|e]; cbn; [|discriminate].
  destruct (validateRefactorResponse reply) as [[d|err]|e] eqn:Ev; cbn;
    try discriminate.
  intros H. injection H as <-.
  destruct (validateRefactorResponse_inv reply d Ev) as [-> _].
  repeat split; try reflexivity. exact Ev.
Qed.

End RefactorFacts.

(** X12. A response that [validateRefactorResponse] accepts is returned
    unchanged as [data], its [refactoredSchema] is accepted by
    [validateSchema], and its [explanations] are an array whose items all
    have a truthy [change] and a truthy [reason]. *)
Theorem validateRefactorResponse_accepted (response d : JsVal) :
  validateRefactorResponse response = Ret (ResponseValid d) ->
  d = response /\
  (exists refactored,
      getProp response "refactoredSchema" = Ret refactored /\
      validateSchema refactored = Ret Valid) /\
  exists exps,
    getProp response "explanations" = Ret (JArr exps) /\
    Forall (fun exp => exists change reason,
                         getProp exp "change" = Ret change /\ truthy change = true /\
                         getProp exp "reason" = Ret reason /\ truthy reason = true)
           exps.
Proof.
  intros H. destruct (validateRefactorResponse_inv response d H) as (Hd & Hs & He).
  split; [exact Hd|]. split; [exact Hs | exact He].
Qed.

Lemma validateRefactorResponse_accepted_witness :
  let response :=
    JObj [("refactoredSchema", schema_to_js shopSchema);
          ("explanations",
           JArr [JObj [("change", JStr "Added index"); ("reason", JStr "Faster joins")]])] in
  exists refactored,
    getProp response "refactoredSchema" = Ret refactored /\
    validateSchema refactored = Ret Valid.
Proof.
  intros response.
  destruct (validateRefactorResponse_accepted response response eq_refl)
    as (_ & Hs & _).
  exact Hs.
Defined.

(** X13. When [refactorSchema] returns, the input schema was accepted by
    [validateSchema], and the value returned is the reply of the
    collaborator, accepted by [validateRefactorResponse]: nothing that fails
    either check is ever returned. *)
Theorem refactorSchema_returns_validated
    (ai : RefactorCollaborator) (schema goal r : JsVal) :
  refactorSchema ai schema goal = Ret r ->
  validateSchema schema = Ret Valid /\
  ai schema goal = Ret r /\
  validateRefactorResponse r = Ret (ResponseValid r).
Proof.
  intros H. destruct (refactorSchema_inv ai schema goal r H) as (Hin & Hai & Hout).
  split; [exact Hin|]. split; [exact Hai | exact Hout].
Qed.

Lemma refactorSchema_returns_validated_witness :
  let reply :=
    JObj [("refactoredSchema", schema_to_js shopSchema); ("explanations", JArr [])] in
  validateRefactorResponse reply = Ret (ResponseValid reply).
Proof.
  intros reply.
  destruct (refactorSchema_returns_validated (fun _ _ => Ret reply)
              (schema_to_js bareSchema) (JStr "normalize") reply eq_refl)
    as (_ & _ & H).
  exact H.
Defined.

(** X14. The refactor route answers 200 only with a schema that
    [validateSchema] accepts and an array of explanations, both taken from
    the reply of the collaborator. *)
Theorem refactorRoute_ok (ai : RefactorCollaborator) (reqBody : JsVal) :
  status (refactorRoute ai reqBody) = 200 ->
  exists refactored exps,
    body (refactorRoute ai reqBody) =
    JObj [("success", JBool true);
          ("data", JObj [("refactoredSchema", refactored);
                         ("explanations", JArr exps)])] /\
    validateSchema refactored = Ret Valid.
Proof.
  unfold refactorRoute.
  destruct (destructureBody reqBody) as [[schema goal]|e]; cbn; [|discriminate].
  destruct (truthy schema); cbn; [|discriminate].
  destruct (refactorSchema ai schema (if truthy goal then goal else JStr ""))
    as [r|e] eqn:Er; cbn; [|discriminate].
  apply refactorSchema_inv in Er. destruct Er as (_ & _ & Hvalid).
  apply validateRefactorResponse_inv in Hvalid.
  destruct Hvalid as (_ & (refactored & -> & Hschema) & (exps & -> & _)).
  cbn. intros _. exists refactored, exps. split; [reflexivity | exact Hschema].
Qed.

Lemma refactorRoute_ok_witness :
  let reply :=
    JObj [("refactoredSchema", schema_to_js shopSchema); ("explanations", JArr [])] in
  let reqBody := JObj [("schema", schema_to_js bareSchema)] in
  exists refactored,
    body (refactorRoute (fun _ _ => Ret reply) reqBody) =
    JObj [("success", JBool true);
          ("data", JObj [("refactoredSchema", refactored);
                         ("explanations", JArr [])])] /\
    validateSchema refactored = Ret Valid.
Proof.
  intros reply reqBody.
  destruct (refactorRoute_ok (fun _ _ => Ret reply) reqBody eq_refl)
    as (refactored & exps & Hbody & Hvalid).
  exists refactored. split; [|exact Hvalid].
  rewrite Hbody. vm_compute in Hbody. injection Hbody as _ <-. reflexivity.
Defined.

(** X15. The refactor route never consults the collaborator for a request
    it can refuse by itself: without a truthy [schema] it answers 400
    [Schema is required], and with a schema that [validateSchema] rejects
    it answers 500 with the validator's error behind
    [Failed to refactor schema: Invalid input schema: ]. *)
Theorem refactorRoute_refuses (ai : RefactorCollaborator) (reqBody schema goal : JsVal) :
  destructureBody reqBody = Ret (schema, goal) ->
  (truthy schema = false ->
   refactorRoute ai reqBody = failure 400 "Schema is required") /\
  (forall e, truthy schema = true -> validateSchema schema = Ret (Invalid e) ->
             refactorRoute ai reqBody =
             failure 500 ("Failed to refactor schema: Invalid input schema: " +:+ e)).
Proof.
  intros Hbody. unfold refactorRoute. rewrite Hbody. cbn. split.
  - intros ->. reflexivity.
  - intros e -> Hinvalid. cbn. unfold refactorSchema. rewrite Hinvalid. reflexivity.
Qed.

Lemma refactorRoute_refuses_witness :
  refactorRoute (fun _ _ => Ret JNull) (JObj [("goal", JStr "normalize")]) =
  failure 400 "Schema is required" /\
  refactorRoute (fun _ _ => Ret JNull) (JObj [("schema", JObj [("nodes", JArr [])])]) =
  failure 500
    "Failed to refactor schema: Invalid input schema: Schema must have an 'edges' array".
Proof.
  split.
  - apply (proj1 (refactorRoute_refuses (fun _ _ => Ret JNull)
                    (JObj [("goal", JStr "normalize")])
                    JUndefined (JStr "normalize") eq_refl)).
    reflexivity.
  - apply (proj2 (refactorRoute_refuses (fun _ _ => Ret JNull)
                    (JObj [("schema", JObj [("nodes", JArr [])])])
                    (JObj [("nodes", JArr [])]) JUndefined eq_refl)
             "Schema must have an 'edges' array"); reflexivity.
Defined.

(* ===================================================================== *)
(** * Further properties of the merge of [parseModels]                    *)
(* ===================================================================== *)

Section TableIds.

Lemma natToString_inj (n m : nat) : Js.natToString n = Js.natToString m -> n = m.
Proof.
  unfold Js.natToString. intros H.
  apply DecimalNat.Unsigned.to_uint_inj.
  assert (Hnil : forall k, Nat.to_uint k <> Decimal.Nil).
  { intros k. rewrite <- (DecimalNat.Unsigned.of_to k) at 1.
    rewrite DecimalNat.Unsigned.to_of. apply DecimalFacts.unorm_nonnil. }
  apply (f_equal NilZero.uint_of_string) in H.
  rewrite !NilZero.usu in H by apply Hnil.
  injection H as H. exact H.
Qed.

Lemma tableId_inj (n m : nat) : tableId n = tableId m -> n = m.
Proof.
  unfold tableId. intros H. apply literal_app_inj in H.
  exact (natToString_inj n m H).
Qed.

Lemma tableId_nonempty (n : nat) : String.eqb (tableId n) "" = false.
Proof. reflexivity. Qed.

Lemma tableIds_NoDup (start len : nat) : List.NoDup (map tableId (seq start len)).
Proof.
  revert start. induction len as [|len IH]; intros start; cbn; constructor.
  - intros H. apply in_map_iff in H. destruct H as (k & Hk & Hin).
    apply tableId_inj in Hk. subst k. apply in_seq in Hin. lia.
  - apply IH.
Qed.

End TableIds.

Section MergeInvariants.

Lemma find_snoc {X : Type} (f : X -> bool) (l : list X) (x : X) :
  find f (l ++ [x]) =
  match find f l with
  | Some y => Some y
  | None => if f x then Some x else None
  end.
Proof.
  induction l as [|y l IH]; [reflexivity|].
  cbn [app find]. destruct (f y); [reflexivity | exact IH].
Qed.

Lemma find_app_Some {X : Type} (f : X -> bool) (l l' : list X) (x : X) :
  find f l = Some x -> find f (l ++ l') = Some x.
Proof.
  induction l as [|y l IH]; [discriminate|].
  cbn [app find]. destruct (f y); [auto | exact IH].
Qed.

Lemma find_app_None {X : Type} (f : X -> bool) (l l' : list X) :
  find f l = None -> find f (l ++ l') = find f l'.
Proof.
  induction l as [|y l IH]; [reflexivity|].
  cbn [app find]. destruct (f y); [discriminate | exact IH].
Qed.

Lemma wellNumbered_initial : wellNumbered initialState.
Proof.
  repeat split; try reflexivity.
  intros i n H. destruct i; discriminate H.
Qed.

Lemma mergeNode_wellNumbered (st : MergeState) (node : Node) :
  wellNumbered st -> wellNumbered (mergeNode st node).
Proof.
  intros (Hcount & Hids & Hpos & Hmap). unfold mergeNode.
  destruct (find _ (allNodes st)) as [n|] eqn:E;
    [repeat split; assumption|].
  repeat split; cbn [allNodes nodeCounter nodeIdMap].
  - rewrite length_app. cbn [length]. rewrite Hcount. lia.
  - rewrite length_app. cbn [length]. rewrite Nat.add_1_r, seq_S, !map_app, Hids.
    cbn. rewrite Hcount. reflexivity.
  - intros i n Hi. apply lookup_app_Some in Hi.
    destruct Hi as [Hi | [Hlen Hi]]; [exact (Hpos i n Hi)|].
    destruct (i - length (allNodes st)) as [|k] eqn:Ek; [|discriminate Hi].
    injection Hi as <-.
    assert (i = length (allNodes st)) as -> by lia. reflexivity.
  - intros lbl. rewrite find_snoc. cbn [data label node_id].
    destruct (String.eqb_spec (label (data node)) lbl) as [<-|Hne].
    + rewrite lookup_insert_eq, E. reflexivity.
    + rewrite lookup_insert_ne by exact Hne. rewrite Hmap.
      destruct (find (fun n => String.eqb (label (data n)) lbl) (allNodes st));
        reflexivity.
Qed.

Lemma mergeNodes_wellNumbered (ns : list Node) (st : MergeState) :
  wellNumbered st -> wellNumbered (fold_left mergeNode ns st).
Proof.
  revert st. induction ns as [|n ns IH]; intros st H; [exact H|].
  cbn [fold_left]. apply IH, mergeNode_wellNumbered, H.
Qed.

Lemma mergeParsed_wellNumbered (st : MergeState) (parsed : Schema) :
  wellNumbered st -> wellNumbered (mergeParsed st parsed).
Proof.
  intros H. unfold mergeParsed. rewrite mergeEdges_state.
  exact (mergeNodes_wellNumbered (nodes parsed) st H).
Qed.

Lemma parseFiles_wellNumbered (files : list File) (st : MergeState) :
  wellNumbered st -> wellNumbered (fold_left parseFile files st).
Proof.
  revert st. induction files as [|f files IH]; intros st H; [exact H|].
  cbn [fold_left]. apply IH. unfold parseFile.
  destruct (detectParserType (content f)); [|exact H].
  apply mergeParsed_wellNumbered, H.
Qed.

Lemma firstWins_initial : firstWins initialState [].
Proof. split; [intros lbl; reflexivity | intros m []]. Qed.

Lemma mergeNode_firstWins (st : MergeState) (seen : list Node) (node : Node) :
  firstWins st seen -> firstWins (mergeNode st node) (seen ++ [node]).
Proof.
  intros [Hlabels Hfirst]. split.
  - intros lbl. rewrite mergeNode_labels. unfold labelsOf at 1.
    rewrite map_app, in_app_iff. cbn. rewrite <- Hlabels. unfold labelsOf.
    intuition auto.
  - intros m Hm. unfold mergeNode in Hm.
    destruct (find _ (allNodes st)) as [n|] eqn:E.
    + destruct (Hfirst m Hm) as (p & Hp & Hdata).
      exists p. split; [apply find_app_Some, Hp | exact Hdata].
    + cbn [allNodes] in Hm. apply in_app_or in Hm. destruct Hm as [Hm|[<-|[]]].
      * destruct (Hfirst m Hm) as (p & Hp & Hdata).
        exists p. split; [apply find_app_Some, Hp | exact Hdata].
      * cbn [data node_type]. exists node. split; [|split; reflexivity].
        rewrite find_snoc.
        destruct (find (fun n => String.eqb (label (data n)) (label (data node))) seen)
          as [q|] eqn:Eseen.
        -- exfalso. apply find_label_Some in Eseen. apply Hlabels in Eseen.
           exact (find_label_None _ _ E Eseen).
        -- rewrite String.eqb_refl. reflexivity.
Qed.

Lemma mergeNodes_firstWins (ns : list Node) (st : MergeState) (seen : list Node) :
  firstWins st seen -> firstWins (fold_left mergeNode ns st) (seen ++ ns).
Proof.
  revert st seen. induction ns as [|n ns IH]; intros st seen H.
  - rewrite app_nil_r. exact H.
  - cbn [fold_left].
    replace (seen ++ n :: ns) with ((seen ++ [n]) ++ ns)
      by (rewrite <- app_assoc; reflexivity).
    apply IH, mergeNode_firstWins, H.
Qed.

Lemma parseFiles_firstWins (files : list File) (st : MergeState) (seen : list Node) :
  firstWins st seen ->
  firstWins (fold_left parseFile files st) (seen ++ parsedNodes files).
Proof.
  revert st seen. induction files as [|f files IH]; intros st seen H.
  - cbn. rewrite app_nil_r. exact H.
  - cbn [fold_left]. unfold parsedNodes. cbn [flat_map]. fold (parsedNodes files).
    rewrite app_assoc. apply IH. unfold parseFile.
    destruct (detectParserType (content f)) as [parserType|].
    + unfold mergeParsed. rewrite mergeEdges_state.
      destruct (mergeNodes_firstWins (nodes (parseWith parserType (content f))) st seen H)
        as [Hl Hf].
      split; assumption.
    + rewrite app_nil_r. exact H.
Qed.

End MergeInvariants.

(** X16. The merged entities are numbered and placed in the order in which
    they were kept: the one at index [i] has the id [table_(i+1)] and the
    position [((i mod 3) * 400, (i / 3) * 300)], whatever ids the parsers
    gave; so the ids of the merged model are pairwise different. *)
Theorem parseModels_numbering (files : list File) :
  map node_id (nodes (parseModels files)) =
  map tableId (seq 1 (length (nodes (parseModels files)))) /\
  (forall i n, nodes (parseModels files) !! i = Some n ->
               position n = gridPosition i) /\
  List.NoDup (map node_id (nodes (parseModels files))).
Proof.
  destruct (parseFiles_wellNumbered files initialState wellNumbered_initial)
    as (_ & Hids & Hpos & _).
  unfold parseModels. cbn [nodes].
  split; [exact Hids|]. split; [exact Hpos|].
  rewrite Hids. apply tableIds_NoDup.
Qed.

(** X17. First occurrence wins: every merged entity carries the attributes
    and the type of the first entity with its display name that the parsers
    found, in the order of the files. *)
Theorem parseModels_first_wins (files : list File) (m : Node) :
  In m (nodes (parseModels files)) ->
  exists p,
    find (fun n => String.eqb (label (data n)) (label (data m))) (parsedNodes files)
    = Some p /\
    data m = data p /\ node_type m = node_type p.
Proof.
  intros Hm.
  destruct (parseFiles_firstWins files initialState [] firstWins_initial) as [_ Hfirst].
  exact (Hfirst m Hm).
Qed.

Lemma parseModels_first_wins_witness :
  exists p,
    find (fun n => String.eqb (label (data n)) "User")
         (parsedNodes [sequelizeFile; prismaFile]) = Some p /\
    columns (data p) = [].
Proof.
  destruct (parseModels_first_wins [sequelizeFile; prismaFile]
              (tableNode "table_1" "User" 0 0 []))
    as (p & Hp & Hdata & _).
  - left. vm_compute. reflexivity.
  - exists p. split; [exact Hp|]. rewrite <- Hdata. reflexivity.
Defined.

Section Resolution.

Lemma wellNumbered_id_nonempty (st : MergeState) (n : Node) :
  wellNumbered st -> In n (allNodes st) -> String.eqb (node_id n) "" = false.
Proof.
  intros (_ & Hids & _) Hin. apply (in_map node_id) in Hin.
  rewrite Hids in Hin. apply in_map_iff in Hin. destruct Hin as (k & <- & _).
  apply tableId_nonempty.
Qed.

End Resolution.

Section MergeAsFold.

Lemma parseFile_as_merge (st : MergeState) (file : File) :
  parseFile st file = fold_left mergeNode (parsedNodes [file]) st.
Proof.
  unfold parseFile, parsedNodes. cbn [flat_map]. rewrite app_nil_r.
  destruct (detectParserType (content file)) as [parserType|]; [|reflexivity].
  unfold mergeParsed. rewrite mergeEdges_state, parseWith_no_edges. cbn [map].
  rewrite app_nil_r. destruct (fold_left mergeNode _ st). reflexivity.
Qed.

Lemma parseFiles_as_merge (files : list File) (st : MergeState) :
  fold_left parseFile files st = fold_left mergeNode (parsedNodes files) st.
Proof.
  revert st. induction files as [|f files IH]; intros st; [reflexivity|].
  cbn [fold_left]. rewrite IH, parseFile_as_merge.
  unfold parsedNodes. cbn [flat_map]. rewrite app_nil_r, fold_left_app. reflexivity.
Qed.

Lemma parsedNodes_cons (f : File) (files : list File) :
  parsedNodes (f :: files) = parsedNodes [f] ++ parsedNodes files.
Proof. unfold parsedNodes. cbn [flat_map]. rewrite app_nil_r. reflexivity. Qed.

Lemma parsedNodes_contributes (files : list File) :
  parsedNodes (List.filter contributes files) = parsedNodes files.
Proof.
  induction files as [|f files IH]; [reflexivity|].
  cbn [List.filter].
  assert (Hf : contributes f = false -> parsedNodes [f] = []).
  { unfold contributes, fileLabels, parsedNodes. cbn [flat_map].
    destruct (detectParserType (content f)) as [parserType|]; [|reflexivity].
    destruct (nodes (parseWith parserType (content f))); [reflexivity|discriminate]. }
  rewrite (parsedNodes_cons f files).
  destruct (contributes f).
  - rewrite parsedNodes_cons, IH. reflexivity.
  - rewrite (Hf eq_refl). exact IH.
Qed.

Lemma mergeNode_extends (st : MergeState) (node : Node) :
  exists more, allNodes (mergeNode st node) = allNodes st ++ more.
Proof.
  unfold mergeNode. destruct (find _ (allNodes st)).
  - exists []. rewrite app_nil_r. reflexivity.
  - eexists. reflexivity.
Qed.

Lemma mergeNodes_extends (ns : list Node) (st : MergeState) :
  exists more, allNodes (fold_left mergeNode ns st) = allNodes st ++ more.
Proof.
  revert st. induction ns as [|n ns IH]; intros st.
  - exists []. rewrite app_nil_r. reflexivity.
  - cbn [fold_left]. destruct (IH (mergeNode st n)) as (more & ->).
    destruct (mergeNode_extends st n) as (one & ->).
    exists (one ++ more). rewrite app_assoc. reflexivity.
Qed.

Lemma NoDup_app_disjoint {X : Type} (l k : list X) (x : X) :
  List.NoDup (l ++ k) -> In x l -> In x k -> False.
Proof.
  induction l as [|y l IH]; cbn; intros Hnd Hl Hk; [exact Hl|].
  inversion Hnd as [|? ? Hy Hrest]; subst.
  destruct Hl as [->|Hl].
  - apply Hy, in_or_app. right. exact Hk.
  - exact (IH Hrest Hl Hk).
Qed.

End MergeAsFold.

(** X19. A file of unknown type, or one in which the parser of its type
    finds no declaration, leaves no trace: the merged model is the same
    with and without such files. *)
Theorem parseModels_skips_silent_files (files : list File) :
  parseModels (List.filter contributes files) = parseModels files.
Proof.
  unfold parseModels. cbv zeta.
  rewrite !parseFiles_as_merge, parsedNodes_contributes. reflexivity.
Qed.

(** X20. Files added at the end never disturb what the earlier files gave:
    the entities of [parseModels (files ++ later)] begin with the entities
    of [parseModels files], ids and positions included, and the entities
    after them carry exactly the display names that [later] declares and
    [files] did not. *)
Theorem parseModels_append (files later : list File) :
  exists more,
    nodes (parseModels (files ++ later)) = nodes (parseModels files) ++ more /\
    forall lbl,
      In lbl (labelsOf more) <->
      (exists file, In file later /\ In lbl (fileLabels file)) /\
      ~ In lbl (labelsOf (nodes (parseModels files))).
Proof.
  unfold parseModels. cbv zeta. cbn [nodes].
  rewrite fold_left_app.
  set (st := fold_left parseFile files initialState).
  assert (Hnd : List.NoDup (labelsOf (allNodes (fold_left parseFile later st)))).
  { apply parseFiles_NoDup. subst st. apply parseFiles_NoDup. constructor. }
  pose proof (parseFiles_labels later st) as Hlabels.
  rewrite parseFiles_as_merge in Hnd, Hlabels |- *.
  destruct (mergeNodes_extends (parsedNodes later) st) as (more & Hmore).
  rewrite Hmore in Hnd, Hlabels. exists more. split; [exact Hmore|].
  intros lbl. specialize (Hlabels lbl).
  unfold labelsOf in Hnd, Hlabels. rewrite map_app in Hnd, Hlabels.
  rewrite in_app_iff in Hlabels. fold (labelsOf (allNodes st)) in Hnd, Hlabels.
  fold (labelsOf more) in Hnd, Hlabels.
  split.
  - intros Hin. split.
    + destruct (proj1 Hlabels (or_intror Hin)) as [Hold|Hfile]; [|exact Hfile].
      exfalso. exact (NoDup_app_disjoint _ _ lbl Hnd Hold Hin).
    + intros Hold. exact (NoDup_app_disjoint _ _ lbl Hnd Hold Hin).
  - intros [Hfile Hnew].
    destruct (proj2 Hlabels (or_intror Hfile)) as [Hold|Hin]; [contradiction|exact Hin].
Qed.

Section SqlInserts.

Lemma readSqlString_doubleQuotes (val rest : string) :
  (forall tail, rest <> String quote tail) ->
  readSqlString (doubleQuotes val +:+ String quote rest) = Some (val, rest).
Proof.
  intros Hrest. induction val as [|c val IH].
  - change (readSqlString (String quote rest) = Some (EmptyString, rest)).
    cbn [readSqlString]. rewrite Ascii.eqb_refl.
    destruct rest as [|c' rest']; [reflexivity|].
    destruct (Ascii.eqb_spec c' quote) as [->|_]; [|reflexivity].
    exfalso. exact (Hrest rest' eq_refl).
  - cbn [doubleQuotes]. destruct (Ascii.eqb_spec c quote) as [->|Hc].
    + change (readSqlString (String quote (String quote (doubleQuotes val +:+ String quote rest)))
              = Some (String quote val, rest)).
      cbn [readSqlString]. rewrite Ascii.eqb_refl.
      change (consRead quote (readSqlString (doubleQuotes val +:+ String quote rest))
              = Some (String quote val, rest)).
      rewrite IH. reflexivity.
    + change (readSqlString (String c (doubleQuotes val +:+ String quote rest))
              = Some (String c val, rest)).
      cbn [readSqlString]. rewrite (proj2 (Ascii.eqb_neq c quote) Hc).
      rewrite IH. reflexivity.
Qed.




End SqlInserts.

(** X21. A string value is written as one SQL string literal that reads
    back as the value itself: whatever quotes the value holds, the literal
    ends where the code ends it, as long as the text that follows does not
    start with a quote (in a statement a comma or a parenthesis follows). *)
Theorem sqlValue_reads_back (val rest : string) :
  (forall tail, rest <> String quote tail) ->
  exists body,
    sqlValue (MockString val) +:+ rest = String quote body /\
    readSqlString body = Some (val, rest).
Proof.
  intros Hrest. exists (doubleQuotes val +:+ String quote rest). split.
  - cbn [sqlValue]. rewrite append_assoc. reflexivity.
  - exact (readSqlString_doubleQuotes val rest Hrest).
Qed.

Lemma sqlValue_reads_back_witness :
  exists body,
    sqlValue (MockString "O'Brien") +:+ ", 7);" = String quote body /\
    readSqlString body = Some ("O'Brien", ", 7);").
Proof.
  apply (sqlValue_reads_back "O'Brien" ", 7);").
  intros tail H. discriminate H.
Defined.



Section SqlValues.

Lemma numToString_reads (z : Z) :
  NilZero.int_of_string (Js.numToString z) = Some (Z.to_int z).
Proof.
  unfold Js.numToString. apply NilZero.isi.
  - destruct z as [|p|p]; cbn; try discriminate.
    intros H. injection H as H. exact (DecimalPos.Unsigned.to_uint_nonnil p H).
  - destruct z as [|p|p]; cbn; try discriminate.
    intros H. injection H as H. exact (DecimalPos.Unsigned.to_uint_nonnil p H).
Qed.

Lemma numToString_inj (z z' : Z) :
  Js.numToString z = Js.numToString z' -> z = z'.
Proof.
  intros H. apply DecimalZ.to_int_inj.
  pose proof (numToString_reads z) as Hz. rewrite H, numToString_reads in Hz.
  injection Hz as Hz. symmetry. exact Hz.
Qed.

Lemma numToString_not (z : Z) (text : string) :
  NilZero.int_of_string text = None -> Js.numToString z <> text.
Proof.
  intros Hnone H. pose proof (numToString_reads z) as Hz.
  rewrite H, Hnone in Hz. discriminate Hz.
Qed.

Lemma doubleQuotes_inj (a b : string) (rest rest' : string) :
  (forall tail, rest <> String quote tail) ->
  (forall tail, rest' <> String quote tail) ->
  doubleQuotes a +:+ String quote rest = doubleQuotes b +:+ String quote rest' ->
  a = b.
Proof.
  intros Hr Hr' H.
  pose proof (readSqlString_doubleQuotes a rest Hr) as Ha.
  rewrite H, (readSqlString_doubleQuotes b rest' Hr') in Ha.
  injection Ha as Ha _. symmetry. exact Ha.
Qed.

End SqlValues.

(** X23. Two different values never have the same text in a statement: a
    string is always inside quotes, so the string [NULL] is not the value
    [null], the string [42] is not the number 42 and the string [true] is
    not the boolean; different strings and different numbers have
    different texts. *)
Theorem sqlValue_distinguishes (v w : MockValue) :
  sqlValue v = sqlValue w <-> v = w.
Proof.
  split; [|intros ->; reflexivity].
  assert (Hquoted : forall z s, Js.numToString z <> String quote s).
  { intros z s. apply numToString_not. unfold quote. cbn.
    destruct (NilEmpty.uint_of_string s); reflexivity. }
  destruct v as [a|z|[]|], w as [b|z'|[]|]; cbn [sqlValue]; intros H;
    try reflexivity; try discriminate H;
    try (exfalso; exact (Hquoted _ _ H));
    try (exfalso; symmetry in H; exact (Hquoted _ _ H));
    try (exfalso; revert H; apply numToString_not; reflexivity);
    try (exfalso; symmetry in H; revert H; apply numToString_not; reflexivity).
  - f_equal. apply (doubleQuotes_inj a b EmptyString EmptyString);
      [intros tail; discriminate | intros tail; discriminate |].
    injection H as H. exact H.
  - f_equal. exact (numToString_inj z z' H).
Qed.

Section RegexFacts.

Lemma drop_add (n m : nat) (s : string) : Js.drop (n + m) s = Js.drop m (Js.drop n s).
Proof.
  revert s. induction n as [|n IH]; intros s; [reflexivity|].
  destruct s as [|c s]; cbn [Nat.add Js.drop].
  - destruct m; reflexivity.
  - apply IH.
Qed.

Lemma length_drop (n : nat) (s : string) :
  String.length (Js.drop n s) = String.length s - n.
Proof.
  revert s. induction n as [|n IH]; intros s; cbn [Js.drop].
  - rewrite Nat.sub_0_r. reflexivity.
  - destruct s as [|c s]; [reflexivity|]. cbn [String.length]. apply IH.
Qed.

(** A match takes its characters from the head of the input. *)
Lemma Matches_advance r s pos caps s' pos' caps' :
  Matches r s pos caps s' pos' caps' ->
  exists n, pos' = pos + n /\ n <= String.length s /\ s' = Js.drop n s.
Proof.
  induction 1 as
    [ s pos caps | c s pos caps | p c s pos caps Hp
    | r1 r2 s pos caps s1 pos1 caps1 s2 pos2 caps2 _ IH1 _ IH2
    | r1 r2 s pos caps s' pos' caps' _ IH
    | r1 r2 s pos caps s' pos' caps' _ IH
    | r s pos caps
    | r s pos caps s1 pos1 caps1 s2 pos2 caps2 _ IH1 Hlt _ IH2
    | i r s pos caps s' pos' caps' _ IH ].
  - exists 0. split; [lia|]. split; [lia|reflexivity].
  - exists 1. split; [lia|]. split; [cbn; lia|reflexivity].
  - exists 1. split; [lia|]. split; [cbn; lia|reflexivity].
  - destruct IH1 as (n1 & -> & Hn1 & ->). destruct IH2 as (n2 & -> & Hn2 & ->).
    rewrite length_drop in Hn2. exists (n1 + n2).
    split; [lia|]. split; [lia|]. symmetry. apply drop_add.
  - exact IH.
  - exact IH.
  - exists 0. split; [lia|]. split; [lia|reflexivity].
  - destruct IH1 as (n1 & -> & Hn1 & ->). destruct IH2 as (n2 & -> & Hn2 & ->).
    rewrite length_drop in Hn2. exists (n1 + n2).
    split; [lia|]. split; [lia|]. symmetry. apply drop_add.
  - exact IH.
Qed.

Lemma consumes_sound r s pos caps s' pos' caps' :
  Matches r s pos caps s' pos' caps' -> consumes r = true -> pos < pos'.
Proof.
  induction 1 as
    [ s pos caps | c s pos caps | p c s pos caps Hp
    | r1 r2 s pos caps s1 pos1 caps1 s2 pos2 caps2 M1 IH1 M2 IH2
    | r1 r2 s pos caps s' pos' caps' _ IH
    | r1 r2 s pos caps s' pos' caps' _ IH
    | r s pos caps
    | r s pos caps s1 pos1 caps1 s2 pos2 caps2 _ IH1 Hlt _ IH2
    | i r s pos caps s' pos' caps' _ IH ];
    cbn [consumes]; intros Hc; try discriminate Hc; try lia.
  - destruct (Matches_advance _ _ _ _ _ _ _ M1) as (n1 & -> & _).
    destruct (Matches_advance _ _ _ _ _ _ _ M2) as (n2 & -> & _).
    apply orb_true_iff in Hc. destruct Hc as [Hc|Hc].
    + specialize (IH1 Hc). lia.
    + specialize (IH2 Hc). lia.
  - apply andb_true_iff in Hc. exact (IH (proj1 Hc)).
  - apply andb_true_iff in Hc. exact (IH (proj2 Hc)).
  - exact (IH Hc).
Qed.

Lemma Matches_group_other (i : nat) r s pos caps s' pos' caps' :
  Matches r s pos caps s' pos' caps' -> mentions i r = false ->
  Regex.group i caps' = Regex.group i caps.
Proof.
  induction 1 as
    [ s pos caps | c s pos caps | p c s pos caps Hp
    | r1 r2 s pos caps s1 pos1 caps1 s2 pos2 caps2 _ IH1 _ IH2
    | r1 r2 s pos caps s' pos' caps' _ IH
    | r1 r2 s pos caps s' pos' caps' _ IH
    | r s pos caps
    | r s pos caps s1 pos1 caps1 s2 pos2 caps2 _ IH1 Hlt _ IH2
    | j r s pos caps s' pos' caps' _ IH ];
    cbn [mentions]; intros Hm; try reflexivity.
  - apply orb_false_iff in Hm. rewrite (IH2 (proj2 Hm)). exact (IH1 (proj1 Hm)).
  - apply orb_false_iff in Hm. exact (IH (proj1 Hm)).
  - apply orb_false_iff in Hm. exact (IH (proj2 Hm)).
  - rewrite (IH2 Hm). exact (IH1 Hm).
  - apply orb_false_iff in Hm. destruct Hm as [Hij Hm].
    cbn [Regex.group]. rewrite Hij. exact (IH Hm).
Qed.

Lemma take_nonempty (n : nat) (s : string) :
  0 < n -> n <= String.length s -> Js.take n s <> "".
Proof.
  intros Hn Hlen. destruct n as [|n]; [lia|].
  destruct s as [|c s]; [cbn in Hlen; lia|]. discriminate.
Qed.

(** What [bindsNonEmpty] promises. *)
Lemma bindsNonEmpty_sound (i : nat) r s pos caps s' pos' caps' :
  Matches r s pos caps s' pos' caps' -> bindsNonEmpty i r = true ->
  Regex.group i caps' <> "".
Proof.
  induction 1 as
    [ s pos caps | c s pos caps | p c s pos caps Hp
    | r1 r2 s pos caps s1 pos1 caps1 s2 pos2 caps2 M1 IH1 M2 IH2
    | r1 r2 s pos caps s' pos' caps' _ IH
    | r1 r2 s pos caps s' pos' caps' _ IH
    | r s pos caps
    | r s pos caps s1 pos1 caps1 s2 pos2 caps2 _ IH1 Hlt _ IH2
    | j r s pos caps s' pos' caps' M IH ];
    cbn [bindsNonEmpty]; intros Hb; try discriminate Hb.
  - apply orb_true_iff in Hb. destruct Hb as [Hb|Hb]; [exact (IH2 Hb)|].
    apply andb_true_iff in Hb. destruct Hb as [Hb Hm].
    apply negb_true_iff in Hm.
    rewrite (Matches_group_other i _ _ _ _ _ _ _ M2 Hm). exact (IH1 Hb).
  - cbn [Regex.group]. destruct (i =? j) eqn:Hij; [|exact (IH Hb)].
    pose proof (consumes_sound _ _ _ _ _ _ _ M Hb) as Hlt.
    destruct (Matches_advance _ _ _ _ _ _ _ M) as (n & -> & Hn & _).
    apply take_nonempty; lia.
Qed.

(** The engine only finds matches. *)
Lemma run_sound {R : Type} (r : Regex.re) :
  forall (s : string) (pos : nat) (caps : Regex.Captures)
         (k : string -> nat -> Regex.Captures -> option R) (x : R),
    Regex.run r s pos caps k = Some x ->
    exists s' pos' caps',
      Matches r s pos caps s' pos' caps' /\ k s' pos' caps' = Some x.
Proof.
  induction r as [|c|p|r1 IH1 r2 IH2|r1 IH1 r2 IH2|r1 IH1|i r1 IH1];
    intros s pos caps k x H.
  - exists s, pos, caps. split; [constructor | exact H].
  - cbn [Regex.run] in H. destruct s as [|c' s']; [discriminate H|].
    destruct (Ascii.eqb_spec c c') as [<-|_]; [|discriminate H].
    exists s', (S pos), caps. split; [constructor | exact H].
  - cbn [Regex.run] in H. destruct s as [|c' s']; [discriminate H|].
    destruct (p c') eqn:Hp; [|discriminate H].
    exists s', (S pos), caps. split; [constructor; exact Hp | exact H].
  - cbn [Regex.run] in H.
    apply IH1 in H. destruct H as (s1 & pos1 & caps1 & M1 & H).
    apply IH2 in H. destruct H as (s2 & pos2 & caps2 & M2 & H).
    exists s2, pos2, caps2. split; [econstructor; eassumption | exact H].
  - cbn [Regex.run] in H.
    destruct (Regex.run r1 s pos caps k) as [y|] eqn:E.
    + injection H as ->. apply IH1 in E. destruct E as (s' & pos' & caps' & M & Hk).
      exists s', pos', caps'. split; [apply Matches_Alt_l; exact M | exact Hk].
    + apply IH2 in H. destruct H as (s' & pos' & caps' & M & Hk).
      exists s', pos', caps'. split; [apply Matches_Alt_r; exact M | exact Hk].
  - cbn [Regex.run] in H. revert H. generalize (String.length s). intros fuel.
    revert s pos caps. induction fuel as [|fuel IHf]; intros s pos caps H.
    + exists s, pos, caps. split; [constructor | exact H].
    + match type of H with
      | match ?m with _ => _ end = _ => destruct m as [y|] eqn:E
      end.
      * injection H as ->. apply IH1 in E.
        destruct E as (s1 & pos1 & caps1 & M1 & Hk).
        destruct (pos <? pos1) eqn:Hlt; [|discriminate Hk].
        apply IHf in Hk. destruct Hk as (s2 & pos2 & caps2 & M2 & Hk).
        exists s2, pos2, caps2. split; [|exact Hk].
        apply Matches_Star_more with s1 pos1 caps1; [exact M1 | | exact M2].
        apply Nat.ltb_lt. exact Hlt.
      * exists s, pos, caps. split; [constructor | exact H].
  - cbn [Regex.run] in H. apply IH1 in H.
    destruct H as (s' & pos' & caps' & M & Hk).
    exists s', pos', ((i, Js.take (pos' - pos) s) :: caps').
    split; [constructor; exact M | exact Hk].
Qed.

Lemma exec_sound (r : Regex.re) (s : string) :
  forall (pos : nat) (m : Regex.Match) (rest : string),
    Regex.exec r s pos = Some (m, rest) ->
    exists s0 pos0,
      Matches r s0 pos0 [] rest (Regex.matchEnd m) (Regex.captures m).
Proof.
  induction s as [|c s IH]; intros pos m rest H; cbn [Regex.exec] in H.
  - match type of H with
    | match ?x with _ => _ end = _ => destruct x as [y|] eqn:E
    end; [|discriminate H].
    injection H as ->. apply run_sound in E.
    destruct E as (s' & pos' & caps' & M & Hk). injection Hk as <- <-.
    exists EmptyString, pos. exact M.
  - match type of H with
    | match ?x with _ => _ end = _ => destruct x as [y|] eqn:E
    end.
    + injection H as ->. apply run_sound in E.
      destruct E as (s' & pos' & caps' & M & Hk). injection Hk as <- <-.
      exists (String c s), pos. exact M.
    + exact (IH _ _ _ H).
Qed.

Lemma execLoop_group_nonempty (i : nat) (r : Regex.re) (fuel : nat) :
  bindsNonEmpty i r = true ->
  forall (s : string) (pos : nat) (m : Regex.Match),
    In m (Regex.execLoop fuel r s pos) -> Regex.group i (Regex.captures m) <> "".
Proof.
  intros Hb. induction fuel as [|fuel IH]; intros s pos m Hin; [destruct Hin|].
  cbn [Regex.execLoop] in Hin.
  destruct (Regex.exec r s pos) as [[m0 rest]|] eqn:E; [|destruct Hin].
  destruct Hin as [<-|Hin]; [|exact (IH _ _ _ Hin)].
  destruct (exec_sound _ _ _ _ _ E) as (s0 & pos0 & M).
  exact (bindsNonEmpty_sound i _ _ _ _ _ _ _ M Hb).
Qed.

Lemma execAll_group_nonempty (i : nat) (r : Regex.re) (text : string) (m : Regex.Match) :
  bindsNonEmpty i r = true -> In m (Regex.execAll r text) ->
  Regex.group i (Regex.captures m) <> "".
Proof. intros Hb. apply execLoop_group_nonempty. exact Hb. Qed.

End RegexFacts.

Section ParsedModels.

Lemma numberNodes_In (found : list (string * list Column)) :
  forall (count : nat) (n : Node),
    In n (numberNodes count found) -> In (label (data n), columns (data n)) found.
Proof.
  induction found as [|[modelName cols] found IH]; intros count n Hin; [destruct Hin|].
  cbn [numberNodes] in Hin. destruct Hin as [<-|Hin].
  - left. reflexivity.
  - right. exact (IH _ _ Hin).
Qed.

Lemma mapType_nonempty (typeMap : list (string * string)) (key : string) :
  Forall (fun entry => snd entry <> "") typeMap -> mapType typeMap key <> "".
Proof.
  unfold mapType. induction typeMap as [|[k v] typeMap IH]; intros H.
  - discriminate.
  - inversion H as [|? ? Hv Hrest]; subst. cbn [ownEntry].
    destruct (String.eqb key k); [exact Hv | exact (IH Hrest)].
Qed.

Lemma prisma_nodes (text : string) (n : Node) :
  In n (nodes (PrismaParser.parse text)) ->
  label (data n) <> "" /\ Forall named (columns (data n)).
Proof.
  intros Hin. apply numberNodes_In, in_map_iff in Hin.
  destruct Hin as (m & Heq & Hm). unfold PrismaParser.parseModel in Heq.
  injection Heq as Hlabel Hcols. rewrite <- Hlabel, <- Hcols. split.
  - exact (execAll_group_nonempty 1 PrismaParser.modelRegex text m eq_refl Hm).
  - apply List.Forall_forall. intros c Hc. apply in_map_iff in Hc.
    destruct Hc as (f & <- & Hf). split.
    + exact (execAll_group_nonempty 1 PrismaParser.fieldRegex _ f eq_refl Hf).
    + apply mapType_nonempty. repeat constructor; discriminate.
Qed.

Lemma sequelize_nodes (text : string) (n : Node) :
  In n (nodes (SequelizeParser.parse text)) ->
  label (data n) <> "" /\ Forall named (columns (data n)).
Proof.
  intros Hin. apply numberNodes_In, in_map_iff in Hin.
  destruct Hin as (m & Heq & Hm). unfold SequelizeParser.parseModel in Heq.
  injection Heq as Hlabel Hcols. rewrite <- Hlabel, <- Hcols. split.
  - exact (execAll_group_nonempty 1 SequelizeParser.modelRegex text m eq_refl Hm).
  - constructor.
Qed.

Lemma mongoose_nodes (text : string) (n : Node) :
  In n (nodes (MongooseParser.parse text)) -> Forall named (columns (data n)).
Proof.
  intros Hin. apply numberNodes_In, in_map_iff in Hin.
  destruct Hin as (m & Heq & Hm). unfold MongooseParser.parseSchema in Heq.
  injection Heq as Hlabel Hcols. rewrite <- Hcols.
  apply List.Forall_forall. intros c Hc. apply in_map_iff in Hc.
  destruct Hc as (f & <- & Hf). split.
  - exact (execAll_group_nonempty 1 MongooseParser.fieldRegex _ f eq_refl Hf).
  - apply mapType_nonempty. repeat constructor; discriminate.
Qed.

Lemma parseWith_nodes (parserType : ParserType) (text : string) (n : Node) :
  In n (nodes (parseWith parserType text)) ->
  (parserType <> mongoose -> label (data n) <> "") /\ Forall named (columns (data n)).
Proof.
  destruct parserType; cbn [parseWith]; intros Hin.
  - split; [intros _|]; apply (prisma_nodes text n Hin).
  - split; [intros H; contradiction|]. exact (mongoose_nodes text n Hin).
  - split; [intros _|]; apply (sequelize_nodes text n Hin).
Qed.

(** Where a merged entity comes from. *)
Lemma parseModels_origin (files : list File) (m : Node) :
  In m (nodes (parseModels files)) ->
  node_id m <> "" /\
  exists file parserType p,
    In file files /\ detectParserType (content file) = Some parserType /\
    In p (nodes (parseWith parserType (content file))) /\ data m = data p.
Proof.
  intros Hin. unfold parseModels in Hin. cbv zeta in Hin. cbn [nodes] in Hin. split.
  - apply String.eqb_neq.
    apply (wellNumbered_id_nonempty (fold_left parseFile files initialState)); [|exact Hin].
    apply parseFiles_wellNumbered, wellNumbered_initial.
  - destruct (parseFiles_firstWins files initialState [] firstWins_initial) as [_ Hfirst].
    destruct (Hfirst m Hin) as (p & Hfind & Hdata & _).
    apply find_some in Hfind. destruct Hfind as [Hp _]. cbn [app] in Hp.
    unfold parsedNodes in Hp. apply in_flat_map in Hp.
    destruct Hp as (file & Hfile & Hp).
    destruct (detectParserType (content file)) as [parserType|] eqn:E; [|destruct Hp].
    exists file, parserType, p. repeat split; assumption.
Qed.

Lemma validateNodes_by_labels (ns : list Node) :
  (forall n, In n ns -> node_id n <> "" /\ Forall named (columns (data n))) ->
  (r ← validateNodes (map node_to_js ns); Ret (default Valid r)) =
  Ret (verdictByLabels ns).
Proof.
  unfold verdictByLabels.
  induction ns as [|m ns IH]; intros H; [reflexivity|].
  rewrite validateNodes_cons.
  destruct (H m (or_introl eq_refl)) as (Hid & Hcols).
  rewrite (eqb_empty_false _ Hid). cbn [orb existsb].
  destruct (String.eqb (label (data m)) ""); [reflexivity|]. cbn [orb].
  rewrite validateColumns_named.
  - apply IH. intros n Hn. apply H. right. exact Hn.
  - intros c Hc. exact (proj1 (List.Forall_forall _ _) Hcols c Hc).
Qed.

Lemma parseModels_verdict (files : list File) :
  validateSchema (schema_to_js (parseModels files)) =
  Ret (verdictByLabels (nodes (parseModels files))).
Proof.
  rewrite validateSchema_typed. apply validateNodes_by_labels.
  intros n Hn. destruct (parseModels_origin files n Hn)
    as (Hid & file & parserType & p & _ & _ & Hp & Hdata).
  split; [exact Hid|]. rewrite Hdata. exact (proj2 (parseWith_nodes _ _ _ Hp)).
Qed.

End ParsedModels.

(** X24. Whatever the files hold, the model [parseModels] builds has an id
    on every entity and a name and a type on every attribute; so
    [validateSchema] rejects it only for an entity with an empty display
    name, with the error of the id and label test, and accepts it
    otherwise. *)
Theorem parseModels_validation (files : list File) :
  (forall n, In n (nodes (parseModels files)) ->
             node_id n <> "" /\
             forall c, In c (columns (data n)) -> col_name c <> "" /\ col_type c <> "") /\
  validateSchema (schema_to_js (parseModels files)) =
  Ret (if existsb (fun n => String.eqb (label (data n)) "") (nodes (parseModels files))
       then Invalid "Each node must have 'id', 'data.label'"
       else Valid).
Proof.
  split; [|exact (parseModels_verdict files)].
  intros n Hn. destruct (parseModels_origin files n Hn)
    as (Hid & file & parserType & p & _ & _ & Hp & Hdata).
  split; [exact Hid|]. rewrite Hdata.
  exact (proj1 (List.Forall_forall _ _) (proj2 (parseWith_nodes _ _ _ Hp))).
Qed.

(** X25. A model built from Prisma and Sequelize files only is always
    accepted by [validateSchema]: the expressions of these two parsers
    never capture an empty name. *)
Theorem parseModels_valid (files : list File) :
  (forall file, In file files -> detectParserType (content file) <> Some mongoose) ->
  validateSchema (schema_to_js (parseModels files)) = Ret Valid.
Proof.
  intros Hfiles. rewrite parseModels_verdict. unfold verdictByLabels.
  destruct (existsb _ (nodes (parseModels files))) eqn:E; [|reflexivity].
  exfalso. apply existsb_exists in E. destruct E as (n & Hn & Hempty).
  apply String.eqb_eq in Hempty.
  destruct (parseModels_origin files n Hn)
    as (_ & file & parserType & p & Hfile & Hdetect & Hp & Hdata).
  rewrite Hdata in Hempty.
  apply (proj1 (parseWith_nodes _ _ _ Hp)); [|exact Hempty].
  intros ->. exact (Hfiles file Hfile Hdetect).
Qed.

Lemma parseModels_valid_witness :
  validateSchema (schema_to_js (parseModels [prismaFile; sequelizeFile])) = Ret Valid.
Proof.
  apply (parseModels_valid [prismaFile; sequelizeFile]).
  intros file [<-|[<-|[]]]; vm_compute; discriminate.
Defined.

(** A Mongoose schema variable called [SchemaSchema] gives an entity
    without a display name, which the validator rejects. *)
Example scenario_mongoose_empty_label :
  labelsOf (nodes (parseModels [mongooseFile])) = [""] /\
  validateSchema (schema_to_js (parseModels [mongooseFile])) =
  Ret (Invalid "Each node must have 'id', 'data.label'").
Proof. split; vm_compute; reflexivity. Qed.

(** X26. When no two relationships of the first schema join the same pair
    (source, target), the modified relationships are exactly the pairs of a
    relationship of the first schema and one of the second with the same
    key that differ in any field: id, endpoints, handles, type or label. *)
Theorem computeDiff_modified_edges (A B : Schema) (c : EdgeChange) :
  List.NoDup (map edgeKey (edges A)) ->
  In c (modified (diff_edges (computeDiff A B))) <->
  In (edge_original c) (edges A) /\ In (edge_modified c) (edges B) /\
  edgeKey (edge_original c) = edgeKey (edge_modified c) /\
  edge_original c <> edge_modified c.
Proof.
  intros Hnd. rewrite computeDiff_edges. cbn [modified].
  rewrite in_flat_map. split.
  - intros (e & He & Hc).
    destruct (newMap (edgeEntries (edges A)) !! edgeKey e) as [e1|] eqn:E;
      [|destruct Hc].
    destruct (stringifyDiffers (edge_to_js e1) (edge_to_js e)) eqn:Ed; [|destruct Hc].
    destruct Hc as [<-|[]]. cbn.
    apply newMap_Some, edgeEntries_In in E. destruct E as [Hin Hkey].
    repeat split; try assumption. apply stringifyDiffers_edges. exact Ed.
  - intros (Ho & Hm & Hkey & Hne).
    exists (edge_modified c). split; [exact Hm|].
    rewrite <- edgeEntries_keys in Hnd.
    rewrite (newMap_In _ _ (edge_original c) Hnd)
      by (apply edgeEntries_In; auto).
    apply stringifyDiffers_edges in Hne. rewrite Hne.
    left. destruct c; reflexivity.
Qed.

Lemma computeDiff_modified_edges_witness :
  let relabelled :=
    {| edge_id := edge_id orderToUser; source := source orderToUser;
       target := target orderToUser; sourceHandle := sourceHandle orderToUser;
       targetHandle := targetHandle orderToUser; edge_type := edge_type orderToUser;
       edge_label := "N:M" |} in
  In {| edge_original := orderToUser; edge_modified := relabelled |}
     (modified (diff_edges
        (computeDiff shopSchema {| nodes := nodes shopSchema; edges := [relabelled] |}))).
Proof.
  intros relabelled.
  apply (computeDiff_modified_edges shopSchema
           {| nodes := nodes shopSchema; edges := [relabelled] |}
           {| edge_original := orderToUser; edge_modified := relabelled |}).
  - cbn. repeat constructor; cbn; intuition discriminate.
  - cbn. repeat split; auto; discriminate.
Defined.

Section ValidatorShapes.

Lemma hasTruthy_cases (v : JsVal) (k : string) :
  match getProp v k with
  | Ret x => if truthy x then hasTruthy v k else ~ hasTruthy v k
  | Throw _ => nullish v /\ ~ hasTruthy v k
  end.
Proof.
  destruct (getProp v k) as [x|e] eqn:E.
  - destruct (truthy x) eqn:T.
    + exists x. split; [exact E | exact T].
    + intros (y & Hy & Ty). rewrite E in Hy. injection Hy as <-.
      rewrite T in Ty. discriminate Ty.
  - split.
    + destruct v; try discriminate E; [right | left]; reflexivity.
    + intros (y & Hy & _). rewrite E in Hy. discriminate Hy.
Qed.

Lemma validateColumns_cases (cs : list JsVal) :
  match validateColumns cs with
  | Ret None => Forall acceptableColumn cs
  | Ret (Some v) => (exists e, v = Invalid e) /\ ~ Forall acceptableColumn cs
  | Throw e => (exists m, e = TypeError m) /\ Exists nullish cs
  end.
Proof.
  induction cs as [|col cs IH]; [constructor|].
  cbn [validateColumns].
  pose proof (hasTruthy_cases col "name") as Hname.
  pose proof (hasTruthy_cases col "type") as Htype.
  destruct (getProp col "name") as [name|e] eqn:En.
  - destruct (getProp col "type") as [type|e] eqn:Et.
    + cbn. destruct (truthy name); cbn.
      * destruct (truthy type); cbn.
        -- destruct (validateColumns cs) as [[v|]|e].
           ++ split; [exact (proj1 IH)|]. intros H. inversion H; subst.
              exact (proj2 IH ltac:(assumption)).
           ++ constructor; [split; assumption | exact IH].
           ++ split; [exact (proj1 IH)|]. apply Exists_cons_tl. exact (proj2 IH).
        -- split; [eexists; reflexivity|]. intros H. inversion H as [|? ? [_ Hc] _]; subst.
           exact (Htype Hc).
      * split; [eexists; reflexivity|]. intros H. inversion H as [|? ? [Hc _] _]; subst.
        exact (Hname Hc).
    + destruct col; discriminate Et || discriminate En.
  - cbn. split.
    + destruct col; try discriminate En; injection En as <-; eexists; reflexivity.
    + apply Exists_cons_hd. exact (proj1 Hname).
Qed.

End ValidatorShapes.

Section ValidatorVerdicts.

Lemma getProp_cases (v : JsVal) (k : string) :
  (exists x, getProp v k = Ret x) \/
  (nullish v /\ exists m, getProp v k = Throw (TypeError m)).
Proof.
  destruct v; cbn; try (left; eexists; reflexivity);
    right; (split; [|eexists; reflexivity]); [right | left]; reflexivity.
Qed.

Lemma getProp_again (v : JsVal) (k k' : string) (x : JsVal) :
  getProp v k = Ret x -> exists y, getProp v k' = Ret y.
Proof. destruct v; cbn; intros H; try discriminate H; eexists; reflexivity. Qed.

Lemma getProp_truthy (v : JsVal) (k : string) :
  truthy v = true -> exists y, getProp v k = Ret y.
Proof. destruct v; cbn; intros H; try discriminate H; eexists; reflexivity. Qed.

Lemma acceptableNode_inv (node : JsVal) :
  acceptableNode node ->
  forall P : Prop,
    (forall id d l cs,
        getProp node "id" = Ret id -> truthy id = true ->
        getProp node "data" = Ret d -> truthy d = true ->
        getProp d "label" = Ret l -> truthy l = true ->
        getProp d "columns" = Ret (JArr cs) -> Forall acceptableColumn cs -> P) -> P.
Proof.
  intros ((id & Eid & Tid) & d & cs & Ed & Td & (l & El & Tl) & Ec & Hcs) P H.
  exact (H id d l cs Eid Tid Ed Td El Tl Ec Hcs).
Qed.

Lemma validateNodes_cases (ns : list JsVal) :
  match validateNodes ns with
  | Ret None => Forall acceptableNode ns
  | Ret (Some v) => (exists e, v = Invalid e) /\ ~ Forall acceptableNode ns
  | Throw e => (exists m, e = TypeError m) /\ Exists throwingNode ns
  end.
Proof.
  induction ns as [|node ns IH]; [constructor|].
  assert (Hreject : forall P : Prop,
             (acceptableNode node -> False) -> P ->
             P /\ ~ Forall acceptableNode (node :: ns)).
  { intros P Hno HP. split; [exact HP|]. intros H. inversion H; subst. auto. }
  cbn [validateNodes]. unfold nodeLacksIdOrLabel.
  destruct (getProp_cases node "id") as [(id & Eid)|(Hnull & m & Eid)]; rewrite Eid; cbn.
  2: { split; [eexists; reflexivity | apply Exists_cons_hd; left; exact Hnull]. }
  destruct (truthy id) eqn:Tid; cbn.
  2: { apply Hreject; [|eexists; reflexivity]. intros H.
       apply (acceptableNode_inv _ H). intros id' d l cs Eid' Tid' _ _ _ _ _ _.
       rewrite Eid in Eid'. injection Eid' as <-. rewrite Tid in Tid'. discriminate Tid'. }
  destruct (getProp_again node "id" "data" id Eid) as (d & Ed). rewrite Ed. cbn.
  destruct (truthy d) eqn:Td; cbn.
  2: { apply Hreject; [|eexists; reflexivity]. intros H.
       apply (acceptableNode_inv _ H). intros id' d' l cs _ _ Ed' Td' _ _ _ _.
       rewrite Ed in Ed'. injection Ed' as <-. rewrite Td in Td'. discriminate Td'. }
  destruct (getProp_truthy d "label" Td) as (l & El). rewrite El. cbn.
  destruct (truthy l) eqn:Tl; cbn.
  2: { apply Hreject; [|eexists; reflexivity]. intros H.
       apply (acceptableNode_inv _ H). intros id' d' l' cs _ _ Ed' _ El' Tl' _ _.
       rewrite Ed in Ed'. injection Ed' as <-.
       rewrite El in El'. injection El' as <-. rewrite Tl in Tl'. discriminate Tl'. }
  destruct (getProp_truthy d "columns" Td) as (cols & Ec). rewrite Ec. cbn.
  assert (Hcols : forall cs', acceptableNode node -> cols = JArr cs' ->
                              Forall acceptableColumn cs').
  { intros cs' H ->. apply (acceptableNode_inv _ H).
    intros id' d' l' cs _ _ Ed' _ _ _ Ec' Hcs.
    rewrite Ed in Ed'. injection Ed' as <-.
    rewrite Ec in Ec'. injection Ec' as <-. exact Hcs. }
  assert (Harray : acceptableNode node -> exists cs', cols = JArr cs').
  { intros H. apply (acceptableNode_inv _ H).
    intros id' d' l' cs _ _ Ed' _ _ _ Ec' _.
    rewrite Ed in Ed'. injection Ed' as <-.
    rewrite Ec in Ec'. injection Ec' as ->. eexists. reflexivity. }
  destruct cols as [| |b|z|str|cs|props];
    try (apply Hreject; [|eexists; reflexivity];
         intros H; destruct (Harray H) as (cs' & Hcs'); discriminate Hcs').
  pose proof (validateColumns_cases cs) as Hcs.
  destruct (validateColumns cs) as [[v|]|e]; cbn.
  - apply Hreject; [|exact (proj1 Hcs)].
    intros H. exact (proj2 Hcs (Hcols cs H eq_refl)).
  - destruct (validateNodes ns) as [[v|]|e].
    + split; [exact (proj1 IH)|]. intros H. inversion H; subst. exact (proj2 IH ltac:(assumption)).
    + constructor; [|exact IH]. split; [exists id; split; assumption|].
      exists d, cs. repeat split; try assumption. exists l. split; assumption.
    + split; [exact (proj1 IH)|]. apply Exists_cons_tl. exact (proj2 IH).
  - split; [exact (proj1 Hcs)|]. apply Exists_cons_hd. right.
    exists d, cs. repeat split; try assumption. exact (proj2 Hcs).
Qed.

End ValidatorVerdicts.

(** X27. What [validateSchema] accepts, for values of any shape: exactly
    the objects whose [nodes] and [edges] are arrays and whose nodes all
    have a truthy [id], a truthy [data] with a truthy [label], and an array
    [data.columns] whose items all have a truthy [name] and [type]. *)
Theorem validateSchema_accepts_exactly (schema : JsVal) :
  validateSchema schema = Ret Valid <->
  exists ns es,
    getProp schema "nodes" = Ret (JArr ns) /\
    getProp schema "edges" = Ret (JArr es) /\
    Forall acceptableNode ns.
Proof.
  unfold validateSchema.
  destruct schema as [| |b|z|str|items|props]; cbn;
    try (split; [intros H; discriminate H
                | intros (ns & es & H & _); discriminate H]).
  - destruct b; cbn; (split; [intros H; discriminate H
                             | intros (ns & es & H & _); discriminate H]).
  - destruct (z =? 0)%Z; cbn; (split; [intros H; discriminate H
                                      | intros (ns & es & H & _); discriminate H]).
  - destruct (String.eqb str ""); cbn;
      (split; [intros H; discriminate H | intros (ns & es & H & _); discriminate H]).
  - destruct (default JUndefined (ownEntry "nodes" props)) as [| |b|z|str|ns|ps]; cbn;
      try (split; [intros H; discriminate H
                  | intros (ns' & es & H & _); discriminate H]).
    destruct (default JUndefined (ownEntry "edges" props)) as [| |b|z|str|es|ps]; cbn;
      try (split; [intros H; discriminate H
                  | intros (ns' & es' & _ & H & _); discriminate H]).
    pose proof (validateNodes_cases ns) as Hns.
    destruct (validateNodes ns) as [[v|]|e]; cbn.
    + destruct Hns as [(e & ->) Hno]. split; [intros H; discriminate H|].
      intros (ns' & es' & H & _ & Hall). injection H as <-. contradiction.
    + split; [intros _; exists ns, es; auto | reflexivity].
    + split; [intros H; discriminate H|].
      intros (ns' & es' & H & _ & Hall). injection H as <-.
      exfalso. destruct Hns as [_ Hex].
      apply List.Exists_exists in Hex. destruct Hex as (node & Hin & Hthrow).
      pose proof (proj1 (List.Forall_forall _ _) Hall node Hin) as Hok.
      apply (acceptableNode_inv _ Hok). intros id d l cs Eid _ Ed _ _ _ Ec Hcs.
      destruct Hthrow as [[-> | ->]|(d' & cs' & Ed' & Ec' & Hnull)]; try discriminate Eid.
      rewrite Ed in Ed'. injection Ed' as <-. rewrite Ec in Ec'. injection Ec' as <-.
      apply List.Exists_exists in Hnull. destruct Hnull as (col & Hcol & Hnullish).
      destruct (proj1 (List.Forall_forall _ _) Hcs col Hcol) as [(x & Ex & _) _].
      destruct Hnullish as [-> | ->]; discriminate Ex.
Qed.

(** X28. [validateSchema] can fail instead of giving a verdict, and only
    in one way: a [TypeError] for a property read on an item that is
    [null] or [undefined], either an item of [nodes] or an item of the
    [columns] of a node. Values without such items always get a verdict. *)
Theorem validateSchema_throws (schema : JsVal) (e : exn) :
  validateSchema schema = Throw e ->
  (exists m, e = TypeError m) /\
  exists ns, getProp schema "nodes" = Ret (JArr ns) /\ Exists throwingNode ns.
Proof.
  unfold validateSchema.
  destruct schema as [| |b|z|str|items|props]; cbn; try (intros H; discriminate H).
  - destruct b; cbn; intros H; discriminate H.
  - destruct (z =? 0)%Z; cbn; intros H; discriminate H.
  - destruct (String.eqb str ""); cbn; intros H; discriminate H.
  - destruct (default JUndefined (ownEntry "nodes" props)) as [| |b|z|str|ns|ps]; cbn;
      try (intros H; discriminate H).
    destruct (default JUndefined (ownEntry "edges" props)) as [| |b|z|str|es|ps]; cbn;
      try (intros H; discriminate H).
    pose proof (validateNodes_cases ns) as Hns.
    destruct (validateNodes ns) as [[v|]|e']; cbn; intros H; try discriminate H.
    injection H as <-. split; [exact (proj1 Hns)|].
    exists ns. split; [reflexivity | exact (proj2 Hns)].
Qed.

Lemma validateSchema_throws_witness :
  exists ns,
    getProp (JObj [("nodes", JArr [JNull]); ("edges", JArr [])]) "nodes" = Ret (JArr ns) /\
    Exists throwingNode ns.
Proof.
  apply (validateSchema_throws
           (JObj [("nodes", JArr [JNull]); ("edges", JArr [])])
           (TypeError "Cannot read properties of null (reading 'id')")).
  reflexivity.
Defined.
